(** * sprintfjs: a shallow embedding of the Go package and its properties

    The package parses a sprintf.js-style format string into an AST
    ([Parse]) and renders the AST against a list of arguments
    ([FormatAST], [Format]).  Source files: [sprintfjs.go], [number.go].

    Conventions of the embedding.
    - A Go [string] is a sequence of bytes: Rocq's [string] (a list of
      8-bit [ascii]).  [len] is the byte length, as Go's [len].
    - Go's [int] is taken to be 64 bits wide (as on amd64/arm64); integers
      are [Z] and every conversion between integer kinds writes its
      wrap-around out.
    - Fallible functions return [result]; the Go [error] values, which
      the source builds as message strings, are the constructors of
      [error], carrying the data the message is formatted from. *)

From Stdlib Require Import ZArith Lia Bool List Ascii String SpecFloat.
From stdpp Require Import base option gmap strings.

Set Warnings "-register-all".
Local Open Scope string_scope.
Local Open Scope Z_scope.

(** ** Byte strings *)

Module Bytes.

(** [len(s)] *)
Definition len (s : string) : Z := Z.of_nat (String.length s).

(** [s[n:]] for [0 <= n <= len(s)]; the empty string once [s] runs out. *)
Fixpoint drop (n : nat) (s : string) : string :=
  match n, s with
  | O, _ => s
  | S n', String _ s' => drop n' s'
  | S _, EmptyString => EmptyString
  end.

(** [s[:n]] for [0 <= n <= len(s)]. *)
Fixpoint take (n : nat) (s : string) : string :=
  match n, s with
  | O, _ => EmptyString
  | S n', String c s' => String c (take n' s')
  | S _, EmptyString => EmptyString
  end.

(** [strings.Repeat(s, n)], on [nat]. *)
Fixpoint repeat_nat (s : string) (n : nat) : string :=
  match n with
  | O => EmptyString
  | S n' => s ++ repeat_nat s n'
  end.

(** [strings.Repeat(s, count)].  Go panics on a negative count; the
    package only calls it with [count > 0]. *)
Definition Repeat (s : string) (count : Z) : string :=
  repeat_nat s (Z.to_nat count).

(** The code of a byte. *)
Definition code (c : ascii) : Z := Z.of_N (N_of_ascii c).

(** The byte of a code below 256. *)
Definition chr (z : Z) : ascii := ascii_of_N (Z.to_N z).

Definition in_range (lo hi : Z) (c : ascii) : bool :=
  (lo <=? code c) && (code c <=? hi).

(** [c] is one of the bytes of [set]. *)
Fixpoint mem (c : ascii) (set : string) : bool :=
  match set with
  | EmptyString => false
  | String d set' => Ascii.eqb c d || mem c set'
  end.

(** Some byte of [s] satisfies [p]. *)
Fixpoint any (p : ascii -> bool) (s : string) : bool :=
  match s with
  | EmptyString => false
  | String c s' => p c || any p s'
  end.

Fixpoint all (p : ascii -> bool) (s : string) : bool :=
  match s with
  | EmptyString => true
  | String c s' => p c && all p s'
  end.

(** The longest prefix of [s] whose bytes satisfy [p], and the rest. *)
Fixpoint span (p : ascii -> bool) (s : string) : string * string :=
  match s with
  | EmptyString => (EmptyString, EmptyString)
  | String c s' =>
      if p c then let '(a, b) := span p s' in (String c a, b)
      else (EmptyString, s)
  end.

Definition is_digit (c : ascii) : bool := in_range 48 57 c.

End Bytes.
Import Bytes.

(** ** UTF-8, as package [unicode/utf8] decodes it

    The regular expressions of the package match runes, and the one
    place where that shows is the custom pad character ['c]: [c] is one
    rune, possibly several bytes.  [rune_size] is the width that
    [utf8.DecodeRuneInString] reports for the first rune of a non-empty
    string: an ill-formed or truncated sequence decodes as one byte. *)

Module Utf8.

(** Second-byte range demanded by the lead byte [c], with the sequence's
    size ([first] and [acceptRanges] of utf8.go); [None] for a lead byte
    that cannot start a sequence. *)
Definition lead (c : ascii) : option (nat * (Z * Z)) :=
  let x := code c in
  if x <? 0x80 then None
  else if x <? 0xC2 then None
  else if x <? 0xE0 then Some (2%nat, (0x80, 0xBF))
  else if x =? 0xE0 then Some (3%nat, (0xA0, 0xBF))
  else if x <? 0xED then Some (3%nat, (0x80, 0xBF))
  else if x =? 0xED then Some (3%nat, (0x80, 0x9F))
  else if x <? 0xF0 then Some (3%nat, (0x80, 0xBF))
  else if x =? 0xF0 then Some (4%nat, (0x90, 0xBF))
  else if x <? 0xF4 then Some (4%nat, (0x80, 0xBF))
  else if x =? 0xF4 then Some (4%nat, (0x80, 0x8F))
  else None.

Definition cont (c : ascii) : bool := in_range 0x80 0xBF c.

(** Width in bytes of the first rune of [String c rest]. *)
Definition rune_size (c : ascii) (rest : string) : nat :=
  match lead c with
  | None => 1
  | Some (size, (lo, hi)) =>
      match size, rest with
      | 2%nat, String c1 _ => if in_range lo hi c1 then 2 else 1
      | 3%nat, String c1 (String c2 _) =>
          if in_range lo hi c1 && cont c2 then 3 else 1
      | 4%nat, String c1 (String c2 (String c3 _)) =>
          if in_range lo hi c1 && cont c2 && cont c3 then 4 else 1
      | _, _ => 1
      end
  end%nat.

(** [utf8.RuneCountInString]: [skip] counts the bytes still owed to the
    rune that was counted last. *)
Fixpoint count_from (skip : nat) (s : string) : Z :=
  match s with
  | EmptyString => 0
  | String c rest =>
      match skip with
      | S k => count_from k rest
      | O => 1 + count_from (rune_size c rest - 1) rest
      end
  end.

Definition RuneCountInString (s : string) : Z := count_from 0 s.

End Utf8.
Import Utf8.

(** ** Padding and truncation ([sprintfjs.go]) *)

(** [alignedPad].  [width], [padLen] are Go [int]s.  With string lengths
    below [2^63] the subtraction cannot wrap when [width > 0], and when
    [width <= 0] no padding is built whatever [padLen] is, so [Z]
    arithmetic gives the function's value in every case. *)
Definition alignedPad (value : string) (width : Z)
    (padChar align sign : string) : string :=
  let padChar :=
    if String.eqb padChar "" then " "
    else if 1 <? len padChar then drop 1 padChar
    else padChar in
  let padLen := width - len sign - len value in
  let pad :=
    if (0 <? width) && (0 <? padLen) then Repeat padChar padLen else "" in
  if String.eqb align "-" then sign ++ value ++ pad
  else if String.eqb padChar "0" then sign ++ pad ++ value
  else pad ++ sign ++ value.

(** [trim] *)
Definition trim (value : string) (width : Z) : string :=
  if (width <? 0) || (len value <=? width) then value
  else take (Z.to_nat width) value.

(** [sign] *)
Definition sign (positive : bool) : string :=
  if positive then "+" else "-".


(** ** Outcomes

    A Go function of the package either returns normally, returns a
    non-nil [error], or panics (an index out of range, a reflective call
    that cannot be made).  [E] is the type of errors. *)

Inductive result (E A : Type) : Type :=
| Ok (a : A)
| Err (e : E)
| Panic (msg : string).
Arguments Ok {E A} a.
Arguments Err {E A} e.
Arguments Panic {E A} msg.

(** ** Integers

    The integer kinds of Go that the package names in its type switches,
    and the two it does not ([int16], [uint16]), which therefore fall to
    the default branches. *)

Inductive ikind : Type :=
| KInt | KInt8 | KInt16 | KInt32 | KInt64
| KUint | KUint8 | KUint16 | KUint32 | KUint64.

Definition ikind_name (k : ikind) : string :=
  match k with
  | KInt => "int" | KInt8 => "int8" | KInt16 => "int16"
  | KInt32 => "int32" | KInt64 => "int64"
  | KUint => "uint" | KUint8 => "uint8" | KUint16 => "uint16"
  | KUint32 => "uint32" | KUint64 => "uint64"
  end.

(** Conversion to an unsigned kind of [bits] bits keeps the low bits. *)
Definition to_unsigned (bits : Z) (z : Z) : Z := z mod 2 ^ bits.

(** Conversion to a signed kind of [bits] bits: two's complement. *)
Definition to_signed (bits : Z) (z : Z) : Z :=
  (z + 2 ^ (bits - 1)) mod 2 ^ bits - 2 ^ (bits - 1).

(** ** Integer rendering and parsing, package [strconv] *)

Module Strconv.

Definition digit_char (upper : bool) (d : Z) : ascii :=
  if d <? 10 then chr (48 + d)
  else if upper then chr (55 + d) else chr (87 + d).

Fixpoint digits_loop (fuel : nat) (upper : bool) (base n : Z)
    (acc : string) : string :=
  match fuel with
  | O => acc
  | S fuel' =>
      let acc' := String (digit_char upper (n mod base)) acc in
      if n / base =? 0 then acc'
      else digits_loop fuel' upper base (n / base) acc'
  end.

(** [strconv.FormatUint(n, base)] for [0 <= n] and [2 <= base <= 16]
    ([upper] selects the digits of the verb [%X]).  A number has at most
    as many digits as bits. *)
Definition FormatUint (upper : bool) (base n : Z) : string :=
  digits_loop (S (Z.to_nat (Z.log2 n))) upper base n "".

(** [strconv.FormatInt(n, base)]: a minus sign, then the magnitude. *)
Definition FormatInt (upper : bool) (base n : Z) : string :=
  if n <? 0 then String "-" (FormatUint upper base (- n))
  else FormatUint upper base n.

Definition Itoa (n : Z) : string := FormatInt false 10 n.

(** The value of a string of decimal digits. *)
Fixpoint digits_value (acc : Z) (s : string) : Z :=
  match s with
  | EmptyString => acc
  | String c s' => digits_value (acc * 10 + (code c - 48)) s'
  end.

(** The two errors of the package's conversions ([strconv.ErrSyntax],
    [strconv.ErrRange]). *)
Inductive NumError : Type := ErrSyntax | ErrRange.

(** [strconv.ParseInt(s, 10, 64)]: an optional sign, then decimal digits
    and nothing else; the value has to fit [int64]. *)
Definition ParseInt (s : string) : NumError + Z :=
  match s with
  | EmptyString => inl ErrSyntax
  | String c rest =>
      let neg := Ascii.eqb c "-" in
      let body := if Ascii.eqb c "+" || neg then rest else s in
      if String.eqb body "" || negb (all is_digit body) then inl ErrSyntax
      else
        let un := digits_value 0 body in
        if negb neg && (2 ^ 63 <=? un) then inl ErrRange
        else if neg && (2 ^ 63 <? un) then inl ErrRange
        else inr (if neg then - un else un)
  end.

(** [strconv.Atoi(s)], with a 64-bit [int]. *)
Definition Atoi (s : string) : NumError + Z := ParseInt s.

End Strconv.
Import Strconv.

(** ** Floating point

    A [float64] (or [float32]) is an IEEE 754 binary float, given by the
    Standard Library's [spec_float]: a signed zero, an infinity, NaN, or
    [m * 2^e] with its sign, in canonical form for its format.  The
    conversions below follow package [strconv]'s exact (multi-precision)
    algorithms, on exact integers. *)

Module Float.

Definition float : Type := spec_float.

(** Mantissa bits (with the implicit one) and the exponent of infinity. *)
Record format : Type := { fprec : Z; femax : Z }.
Definition binary64 : format := {| fprec := 53; femax := 1024 |}.
Definition binary32 : format := {| fprec := 24; femax := 128 |}.

(** The float of [fm] nearest to [z * 2^e] (round to nearest even). *)
Definition round (fm : format) (z e : Z) : float :=
  binary_normalize (fprec fm) (femax fm) z e false.

(** [float64(z)] for an integer [z]. *)
Definition of_Z (z : Z) : float := round binary64 z 0.

(** [float64(f)] for a [float32] [f]: the same number, in the canonical
    form of the wider format. *)
Definition widen (f : float) : float :=
  match f with
  | S754_finite s m e => round binary64 (cond_Zopp s (Zpos m)) e
  | _ => f
  end.

(** [f >= 0]: false for NaN, true for both zeros. *)
Definition ge0 (f : float) : bool := SFleb (S754_zero false) f.

(** [int64(f)]: truncation toward zero.  Go leaves the result unspecified
    when the value does not fit; amd64 yields [-2^63], which is what is
    modelled. *)
Definition to_int64 (f : float) : Z :=
  match f with
  | S754_zero _ => 0
  | S754_finite s m e =>
      let mag := if 0 <=? e then Zpos m * 2 ^ e else Zpos m / 2 ^ (- e) in
      let z := if s then - mag else mag in
      if (- 2 ^ 63 <=? z) && (z <? 2 ^ 63) then z else - 2 ^ 63
  | _ => - 2 ^ 63
  end.

(** *** Decimal digits ([strconv/decimal.go])

    [dd] are the digits, most significant first, without trailing zeros;
    the number is [0.dd * 10^dp]. *)
Record decimal : Type := { dd : list Z; dp : Z }.

Definition nd (a : decimal) : Z := Z.of_nat (length (dd a)).

Fixpoint uint_digits (u : Decimal.uint) : list Z :=
  match u with
  | Decimal.Nil => []
  | Decimal.D0 u => 0 :: uint_digits u
  | Decimal.D1 u => 1 :: uint_digits u
  | Decimal.D2 u => 2 :: uint_digits u
  | Decimal.D3 u => 3 :: uint_digits u
  | Decimal.D4 u => 4 :: uint_digits u
  | Decimal.D5 u => 5 :: uint_digits u
  | Decimal.D6 u => 6 :: uint_digits u
  | Decimal.D7 u => 7 :: uint_digits u
  | Decimal.D8 u => 8 :: uint_digits u
  | Decimal.D9 u => 9 :: uint_digits u
  end.

(** Decimal digits of a positive integer. *)
Definition pos_digits (p : positive) : list Z := uint_digits (Pos.to_uint p).

(** Without its trailing zeros. *)
Definition rtrim (l : list Z) : list Z :=
  fold_right (fun x acc =>
    match acc with
    | [] => if x =? 0 then [] else [x]
    | _ => x :: acc
    end) [] l.

(** [trim]: drop trailing zeros; a number without digits has [dp = 0]. *)
Definition mk (l : list Z) (p : Z) : decimal :=
  match rtrim l with
  | [] => {| dd := []; dp := 0 |}
  | l' => {| dd := l'; dp := p |}
  end.

(** The exact decimal expansion of [m * 2^e], [0 < m] ([Assign] then
    [Shift]). *)
Definition exact (m : Z) (e : Z) : decimal :=
  if 0 <=? e then
    let ds := pos_digits (Z.to_pos (m * 2 ^ e)) in
    mk ds (Z.of_nat (length ds))
  else
    let ds := pos_digits (Z.to_pos (m * 5 ^ (- e))) in
    mk ds (Z.of_nat (length ds) + e).

(** Digit [i], or [0] outside the digits. *)
Definition digit (a : decimal) (i : Z) : Z :=
  if i <? 0 then 0 else nth (Z.to_nat i) (dd a) 0.

Definition shouldRoundUp (a : decimal) (n : Z) : bool :=
  if (n <? 0) || (nd a <=? n) then false
  else if (digit a n =? 5) && (n + 1 =? nd a)
       then (0 <? n) && Z.odd (digit a (n - 1))
       else 5 <=? digit a n.

Definition RoundDown (a : decimal) (n : Z) : decimal :=
  if (n <? 0) || (nd a <=? n) then a
  else mk (firstn (Z.to_nat n) (dd a)) (dp a).

(** Drop the trailing nines of a reversed digit list. *)
Fixpoint drop_nines (r : list Z) : list Z :=
  match r with
  | 9 :: r' => drop_nines r'
  | _ => r
  end.

Definition RoundUp (a : decimal) (n : Z) : decimal :=
  if (n <? 0) || (nd a <=? n) then a
  else
    match drop_nines (rev (firstn (Z.to_nat n) (dd a))) with
    | [] => {| dd := [1]; dp := dp a + 1 |}
    | c :: r => {| dd := rev ((c + 1) :: r); dp := dp a |}
    end.

Definition Round (a : decimal) (n : Z) : decimal :=
  if (n <? 0) || (nd a <=? n) then a
  else if shouldRoundUp a n then RoundUp a n else RoundDown a n.

(** [roundShortest] ([strconv/ftoa.go]): the shortest decimal that rounds
    back to [m * 2^e] in the format [fm].  [lower] and [upper] are the
    midpoints to the neighbouring floats; [delta] is [upperdelta]. *)
Fixpoint shortest_loop (fuel : nat) (a lower upper : decimal)
    (inclusive : bool) (delta ui : Z) : decimal :=
  match fuel with
  | O => a
  | S fuel' =>
      let mi := ui - dp upper + dp a in
      if nd a <=? mi then a
      else
        let li := ui - dp upper + dp lower in
        let l := digit lower li in
        let m := digit a mi in
        let u := digit upper ui in
        let okdown := negb (l =? m) || (inclusive && (li + 1 =? nd lower)) in
        let delta' :=
          if (delta =? 0) && (m + 1 <? u) then 2
          else if (delta =? 0) && negb (m =? u) then 1
          else if (delta =? 1) && (negb (m =? 9) || negb (u =? 0)) then 2
          else delta in
        let okup :=
          (0 <? delta') && (inclusive || (1 <? delta') || (ui + 1 <? nd upper)) in
        if okdown && okup then Round a (mi + 1)
        else if okdown then RoundDown a (mi + 1)
        else if okup then RoundUp a (mi + 1)
        else shortest_loop fuel' a lower upper inclusive delta' (ui + 1)
  end.

Definition roundShortest (fm : format) (m : Z) (e : Z) : decimal :=
  let a := exact m e in
  let emin := 3 - femax fm - fprec fm in
  let upper := exact (2 * m + 1) (e - 1) in
  let lower :=
    if (2 ^ (fprec fm - 1) <? m) || (e =? emin)
    then exact (2 * (m - 1) + 1) (e - 1)
    else exact (2 * (2 * m - 1) + 1) (e - 2) in
  let inclusive := Z.even m in
  shortest_loop (length (dd a) + 3) a lower upper inclusive 0 0.


(** *** Layout ([strconv/ftoa.go]) *)

Definition digit_byte (d : Z) : ascii := chr (48 + d).

(** Digits [i], [i+1], ..., [i+n-1] of [a], zeros outside. *)
Fixpoint digits_from (a : decimal) (i : Z) (n : nat) : string :=
  match n with
  | O => ""
  | S n' => String (digit_byte (digit a i)) (digits_from a (i + 1) n')
  end.

(** The exponent of [%e]: a sign and at least two digits. *)
Definition fmt_exp (e : Z) : string :=
  let sgn := if e <? 0 then "-" else "+" in
  let mag := Z.abs e in
  sgn ++ (if mag <? 10 then String "0" (String (digit_byte mag) "")
          else if mag <? 100
          then String (digit_byte (mag / 10)) (String (digit_byte (mag mod 10)) "")
          else String (digit_byte (mag / 100))
                 (String (digit_byte ((mag / 10) mod 10))
                    (String (digit_byte (mag mod 10)) ""))).

(** [%e]: [-d.ddddde+dd] *)
Definition fmtE (neg : bool) (a : decimal) (prec : Z) (e : ascii) : string :=
  (if neg then "-" else "")
  ++ String (digit_byte (if nd a =? 0 then 0 else digit a 0)) ""
  ++ (if 0 <? prec then String "." (digits_from a 1 (Z.to_nat prec)) else "")
  ++ String e ""
  ++ fmt_exp (if nd a =? 0 then 0 else dp a - 1).

(** [%f]: [-ddddddd.ddddd] *)
Definition fmtF (neg : bool) (a : decimal) (prec : Z) : string :=
  (if neg then "-" else "")
  ++ (if 0 <? dp a then digits_from a 0 (Z.to_nat (dp a)) else "0")
  ++ (if 0 <? prec then String "." (digits_from a (dp a) (Z.to_nat prec)) else "").

(** [formatDigits] *)
Definition formatDigits (shortest neg : bool) (a : decimal) (prec : Z)
    (fmt : ascii) : string :=
  if Ascii.eqb fmt "e" || Ascii.eqb fmt "E" then fmtE neg a prec fmt
  else if Ascii.eqb fmt "f" then fmtF neg a prec
  else if Ascii.eqb fmt "g" || Ascii.eqb fmt "G" then
    let eprec := if (nd a <? prec) && (dp a <=? nd a) then nd a else prec in
    let eprec := if shortest then 6 else eprec in
    let exp := dp a - 1 in
    if (exp <? -4) || (eprec <=? exp) then
      let prec := if nd a <? prec then nd a else prec in
      fmtE neg a (prec - 1) (chr (code fmt + 101 - 103))
    else
      let prec := if dp a <? prec then nd a else prec in
      fmtF neg a (Z.max (prec - dp a) 0)
  else String "%" (String fmt "").

(** [%b]: [-ddddddddp+ddd], the mantissa and the binary exponent. *)
Definition fmtB (neg : bool) (m e : Z) : string :=
  (if neg then "-" else "") ++ FormatUint false 10 m ++ "p"
  ++ (if 0 <=? e then "+" else "") ++ FormatInt false 10 e.

(** [strconv.FormatFloat(f, fmt, prec, bitSize)] for a float [f] of the
    format [fm]; a negative [prec] asks for the shortest digits that
    identify [f]. *)
Definition FormatFloat (fm : format) (f : float) (fmt : ascii) (prec : Z)
    : string :=
  match f with
  | S754_nan => "NaN"
  | S754_infinity s => if s then "-Inf" else "+Inf"
  | _ =>
      let '(neg, m, e) :=
        match f with
        | S754_finite s m e => (s, Zpos m, e)
        | S754_zero s => (s, 0, 3 - femax fm - fprec fm)
        | _ => (false, 0, 0)
        end in
      if Ascii.eqb fmt "b" then fmtB neg m e
      else
        let shortest := prec <? 0 in
        let a0 := if m =? 0 then {| dd := []; dp := 0 |} else exact m e in
        if shortest then
          let a := if m =? 0 then a0 else roundShortest fm m e in
          let prec :=
            if Ascii.eqb fmt "e" || Ascii.eqb fmt "E" then nd a - 1
            else if Ascii.eqb fmt "f" then Z.max (nd a - dp a) 0
            else if Ascii.eqb fmt "g" || Ascii.eqb fmt "G" then nd a
            else prec in
          formatDigits shortest neg a prec fmt
        else
          let prec :=
            if (Ascii.eqb fmt "g" || Ascii.eqb fmt "G") && (prec =? 0)
            then 1 else prec in
          let a :=
            if Ascii.eqb fmt "e" || Ascii.eqb fmt "E" then Round a0 (prec + 1)
            else if Ascii.eqb fmt "f" then Round a0 (dp a0 + prec)
            else if Ascii.eqb fmt "g" || Ascii.eqb fmt "G" then Round a0 prec
            else a0 in
          formatDigits shortest neg a prec fmt
  end.

(** *** Parsing ([strconv/atof.go]) *)

(** The float of [fm] nearest to [m * 10^e10]; [m] is an integer. *)
Definition of_decimal (fm : format) (neg : bool) (m e10 : Z) : float :=
  if m =? 0 then S754_zero neg
  else if 0 <=? e10 then
    binary_normalize (fprec fm) (femax fm) (cond_Zopp neg (m * 10 ^ e10)) 0 neg
  else
    (* [m / 10^-e10], to [prec + 3] bits and the place of the rest *)
    let den := 10 ^ (- e10) in
    let k := Z.max 0 (Z.log2 den + fprec fm + 3 - Z.log2 m) in
    let num := m * 2 ^ k in
    let q := num / den in
    let r := num mod den in
    let loc :=
      if r =? 0 then loc_Exact else loc_Inexact (Z.compare (2 * r) den) in
    binary_round_aux (fprec fm) (femax fm) neg q (- k) loc.

Definition lower (c : ascii) : ascii :=
  if in_range 65 90 c then chr (code c + 32) else c.

Fixpoint lower_string (s : string) : string :=
  match s with
  | EmptyString => EmptyString
  | String c s' => String (lower c) (lower_string s')
  end.

(** [special]: the whole string is an infinity or NaN. *)
Definition special (s : string) : option float :=
  let l := lower_string s in
  if String.eqb l "nan" then Some S754_nan
  else if String.eqb l "inf" || String.eqb l "+inf"
       || String.eqb l "infinity" || String.eqb l "+infinity"
       then Some (S754_infinity false)
  else if String.eqb l "-inf" || String.eqb l "-infinity"
       then Some (S754_infinity true)
  else None.

Definition hex_value (c : ascii) : option Z :=
  if is_digit c then Some (code c - 48)
  else if in_range 97 102 (lower c) then Some (code (lower c) - 87)
  else None.

(** The mantissa of [readFloat]: digits in [base] with at most one point
    and with underscores; returns the digits' value, the number of digits
    after the point, whether a digit was seen, whether an underscore was,
    and the rest of the input. *)
Fixpoint read_mantissa (hex : bool) (s : string) (acc frac : Z)
    (sawdot sawdigits underscores : bool)
    : Z * Z * bool * bool * string :=
  match s with
  | EmptyString => (acc, frac, sawdigits, underscores, s)
  | String c s' =>
      if Ascii.eqb c "_" then
        read_mantissa hex s' acc frac sawdot sawdigits true
      else if Ascii.eqb c "." then
        if sawdot then (acc, frac, sawdigits, underscores, s)
        else read_mantissa hex s' acc frac true sawdigits underscores
      else
        match hex_value c with
        | Some d =>
            if (d <? 10) || hex then
              read_mantissa hex s' (acc * (if hex then 16 else 10) + d)
                (if sawdot then frac + 1 else frac) sawdot true underscores
            else (acc, frac, sawdigits, underscores, s)
        | None => (acc, frac, sawdigits, underscores, s)
        end
  end.

(** The digits of an exponent, with underscores; the value saturates as
    in the source ([if e < 10000]). *)
Fixpoint read_exp (s : string) (e : Z) (underscores : bool)
    : Z * bool * string :=
  match s with
  | EmptyString => (e, underscores, s)
  | String c s' =>
      if Ascii.eqb c "_" then read_exp s' e true
      else if is_digit c then
        read_exp s' (if e <? 10000 then e * 10 + (code c - 48) else e)
          underscores
      else (e, underscores, s)
  end.

(** [underscoreOK]: every underscore separates two digits (the base
    prefix counts as a digit).  [saw] is [0] at the start, [1] after a
    digit, [2] after an underscore, [3] after anything else. *)
Fixpoint underscore_loop (hex : bool) (saw : Z) (s : string) : bool :=
  match s with
  | EmptyString => negb (saw =? 2)
  | String c s' =>
      if is_digit c || (hex && in_range 97 102 (lower c))
      then underscore_loop hex 1 s'
      else if Ascii.eqb c "_" then
        if saw =? 1 then underscore_loop hex 2 s' else false
      else if saw =? 2 then false
      else underscore_loop hex 3 s'
  end.

Definition underscoreOK (s : string) : bool :=
  let s :=
    match s with
    | String c s' => if Ascii.eqb c "-" || Ascii.eqb c "+" then s' else s
    | _ => s
    end in
  match s with
  | String "0" (String x s') =>
      let x := lower x in
      if Ascii.eqb x "b" || Ascii.eqb x "o" || Ascii.eqb x "x"
      then underscore_loop (Ascii.eqb x "x") 1 s'
      else underscore_loop false 0 s
  | _ => underscore_loop false 0 s
  end.

(** [strconv.ParseFloat(s, 64)].  A value too large for the format is
    [ErrRange] (Go returns the infinity along with the error; the package
    only looks at the error). *)
Definition ParseFloat (s : string) : NumError + float :=
  match special s with
  | Some f => inr f
  | None =>
      let '(neg, s1) :=
        match s with
        | String "+" s' => (false, s')
        | String "-" s' => (true, s')
        | _ => (false, s)
        end in
      let '(hex, s2) :=
        match s1 with
        | String "0" (String x (String c s')) =>
            if Ascii.eqb (lower x) "x" then (true, String c s') else (false, s1)
        | _ => (false, s1)
        end in
      let '(m, frac, sawdigits, us, s3) :=
        read_mantissa hex s2 0 0 false false false in
      if negb sawdigits then inl ErrSyntax
      else
        let expChar := if hex then "p"%char else "e"%char in
        let scanned :=
          match s3 with
          | String c s4 =>
              if Ascii.eqb (lower c) expChar then
                let '(esign, s5) :=
                  match s4 with
                  | String "+" s' => (1, s')
                  | String "-" s' => (-1, s')
                  | _ => (1, s4)
                  end in
                match s5 with
                | String d _ =>
                    if is_digit d then
                      let '(e, us', s6) := read_exp s5 0 us in
                      Some (e * esign, us', s6)
                    else None
                | EmptyString => None
                end
              else if hex then None else Some (0, us, s3)
          | EmptyString => if hex then None else Some (0, us, s3)
          end in
        match scanned with
        | None => inl ErrSyntax
        | Some (e, us', rest) =>
            if negb (String.eqb rest "") then inl ErrSyntax
            else if us' && negb (underscoreOK s) then inl ErrSyntax
            else
              let f :=
                if hex then
                  if m =? 0 then S754_zero neg
                  else binary_normalize 53 1024 (cond_Zopp neg m)
                         (e - 4 * frac) neg
                else of_decimal binary64 neg m (e - frac) in
              match f with
              | S754_infinity _ => inl ErrRange
              | _ => inr f
              end
        end
  end.

End Float.

(** ** Argument values

    The arguments of [Format] are Go interface values.  The package
    inspects them through type switches and [reflect.Kind]; everything it
    can tell apart has a constructor here.  Values it treats as opaque
    ([VFunc], [VOther]) carry what it can still observe of them: the name
    of their type (the verb [%T]) and their default rendering (the verb
    [%v]). *)

Inductive okind : Type :=
| OPtr (isnil : bool)     (* a pointer *)
| OSlice | OArray         (* slices and arrays *)
| OOther.                 (* structs, channels, other maps, named types, ... *)

Inductive value : Type :=
| VNil                                        (* the nil interface value *)
| VBool (b : bool)
| VInt (k : ikind) (z : Z)
| VFloat32 (f : Float.float)
| VFloat64 (f : Float.float)
| VString (s : string)
| VMap (m : gmap string value)                (* map[string]interface{} *)
| VFunc (ty str : string) (call : option (list value))
    (* a function: [call] is what calling it without arguments returns,
       [None] when such a call panics *)
| VReflectValues (vs : list value)            (* []reflect.Value *)
| VNumber (v : value)                         (* sprintfjs.Number *)
| VOther (k : okind) (ty str : string).

(** ** Package [fmt]: what is modelled *)

Module Fmt.

Definition join (sep : string) (l : list string) : string :=
  String.concat sep l.

Fixpoint insert_sorted (x : string * string) (l : list (string * string))
    : list (string * string) :=
  match l with
  | [] => [x]
  | y :: l' =>
      if String.leb (fst x) (fst y) then x :: l else y :: insert_sorted x l'
  end.

Definition sort_by_key (l : list (string * string)) : list (string * string) :=
  fold_right insert_sorted [] l.

(** The verb [%T]: the name of the dynamic type. *)
Definition typeString (v : value) : string :=
  match v with
  | VNil => "<nil>"
  | VBool _ => "bool"
  | VInt k _ => ikind_name k
  | VFloat32 _ => "float32"
  | VFloat64 _ => "float64"
  | VString _ => "string"
  | VMap _ => "map[string]interface {}"
  | VFunc ty _ _ => ty
  | VReflectValues _ => "[]reflect.Value"
  | VNumber _ => "sprintfjs.Number"
  | VOther _ ty _ => ty
  end.

(** [fmt.Sprint(v)], the verb [%v].  A map prints its keys in sorted
    order; an element of a [[]reflect.Value] prints through
    [reflect.Value.String]: the string it holds, or [<T Value>] (the
    static type of a call's result being taken as the type of the value
    returned); a [Number] is a [fmt.Formatter] whose [Format] has no case
    for [v] and writes nothing. *)
Fixpoint Sprint (v : value) : string :=
  match v with
  | VNil => "<nil>"
  | VBool b => if b then "true" else "false"
  | VInt _ z => Itoa z
  | VFloat32 f => Float.FormatFloat Float.binary32 f "g" (-1)
  | VFloat64 f => Float.FormatFloat Float.binary64 f "g" (-1)
  | VString s => s
  | VMap m =>
      "map["
      ++ join " "
           (map (fun kv => fst kv ++ ":" ++ snd kv)
              (sort_by_key
                 (map_fold (fun k v' acc => (k, Sprint v') :: acc) [] m)))
      ++ "]"
  | VFunc _ str _ => str
  | VReflectValues vs =>
      "["
      ++ join " "
           (map (fun v' =>
                   match v' with
                   | VString s => s
                   | VNil => "<interface {} Value>"
                   | _ => "<" ++ typeString v' ++ " Value>"
                   end) vs)
      ++ "]"
  | VNumber _ => ""
  | VOther _ _ str => str
  end.

(** The rendering of an operand that the verb [c] does not apply to:
    [%!c(T=v)]. *)
Definition badVerb (c : ascii) (v : value) : string :=
  "%!" ++ String c "" ++ "(" ++ typeString v ++ "=" ++ Sprint v ++ ")".

End Fmt.
Import Fmt.

(** ** Calls into [fmt] and [encoding/json] that are not modelled

    Rendering an arbitrary operand under the verbs [c], [s], [v] with a
    precision, and JSON encoding, are left to the libraries: a
    computation of the package is a tree whose inner nodes are those
    calls, each continuing with the library's answer. *)

Inductive Go (A : Type) : Type :=
| Ret (a : A)
| CallSprintf (format : string) (arg : value) (k : string -> Go A)
    (* fmt.Sprintf(format, arg) *)
| CallMarshal (arg : value) (indent : option string)
    (k : string + string -> Go A).
    (* json.Marshal(arg), or json.MarshalIndent(arg, "", indent): the
       encoding, or the error's message *)
Arguments Ret {A} a.
Arguments CallSprintf {A} format arg k.
Arguments CallMarshal {A} arg indent k.

Fixpoint bind {A B : Type} (m : Go A) (f : A -> Go B) : Go B :=
  match m with
  | Ret a => f a
  | CallSprintf format arg k => CallSprintf format arg (fun s => bind (k s) f)
  | CallMarshal arg indent k => CallMarshal arg indent (fun r => bind (k r) f)
  end.

Notation "'call' x <- m ; f" := (bind m (fun x => f))
  (at level 10, x name, m at level 100, f at level 200).

(** The libraries, as a pair of functions answering the calls. *)
Record Lib : Type := {
  lib_Sprintf : string -> value -> string;
  lib_Marshal : value -> option string -> string + string
}.

(** Libraries that answer every call with the empty string, for
    computations that make no call. *)
Definition silent : Lib :=
  {| lib_Sprintf := fun _ _ => ""; lib_Marshal := fun _ _ => inl "" |}.

(** The value of a computation, given the libraries. *)
Fixpoint run {A : Type} (lib : Lib) (m : Go A) : A :=
  match m with
  | Ret a => a
  | CallSprintf format arg k => run lib (k (lib_Sprintf lib format arg))
  | CallMarshal arg indent k => run lib (k (lib_Marshal lib arg indent))
  end.

(** ** Errors

    One constructor for each error message the package builds, with the
    operands of the message. *)

Inductive cause : Type :=
| CausePrecision (precision : string) (e : NumError)
    (* failed to parse precision *)
| CauseJSON (msg : string).
    (* the encoder's error *)

Inductive error : Type :=
| EParamNo (digits : string) (e : NumError)
    (* failed to parse positional argument *)
| EWidth (digits : string) (e : NumError)
    (* failed to parse width *)
| ENamedKey
    (* failed to parse named argument key *)
| EMixed
    (* mixing positional and named placeholders is not (yet) supported *)
| EUnexpected
    (* unexpected placeholder *)
| EImplicitIndex (need : Z)
    (* Implicit argument index is out of range ... need at least [need] *)
| ENilProperty (key : string) (path : list string)
    (* Cannot access property [key] of nil in [path] *)
| ENotMap (key : string) (arg : value)
    (* Cannot access property [key] in value of type %T *)
| EPositionalIndex (paramNo : Z)
    (* Positional argument index is out of range *)
| ENotANumber (v : value)
    (* expecting number but found %T *)
| EFormat (v : value) (placeholder : string) (c : cause).
    (* failed to format value [v] as [placeholder] *)

Definition res (A : Type) : Type := result error A.

(** ** Numbers ([number.go])

    A [Number] wraps a value; the methods below take the wrapped value. *)

Module Number.

(** [Number.IsPositive] *)
Definition IsPositive (v : value) : bool :=
  match v with
  | VInt (KInt | KInt8 | KInt32 | KInt64) z => 0 <=? z
  | VFloat32 f | VFloat64 f => Float.ge0 f
  | VInt (KUint | KUint8 | KUint32 | KUint64) _ => true
  | VString s =>
      match Float.ParseFloat s with
      | inl _ => false
      | inr f64 => Float.ge0 f64
      end
  | _ => false
  end.

(** [Number.Float64]; [None] is the error [Cannot use %T as float64]. *)
Definition Float64 (v : value) : option Float.float :=
  match v with
  | VInt (KInt | KInt8 | KInt32 | KInt64
         | KUint | KUint8 | KUint32 | KUint64) z => Some (Float.of_Z z)
  | VFloat32 f => Some (Float.widen f)
  | VFloat64 f => Some f
  | VString s =>
      match Float.ParseFloat s with
      | inl _ => None
      | inr f => Some f
      end
  | _ => None
  end.

(** [Number.Int64]; [None] is an error. *)
Definition Int64 (v : value) : option Z :=
  match v with
  | VInt (KInt | KInt8 | KInt32 | KInt64
         | KUint | KUint8 | KUint32 | KUint64) z => Some (to_signed 64 z)
  | VFloat32 f | VFloat64 f => Some (Float.to_int64 f)
  | VString s =>
      match ParseInt s with
      | inl _ => None
      | inr i => Some i
      end
  | _ => None
  end.

(** [Number.IsNaN] *)
Definition IsNaN (v : value) : bool :=
  match v with
  | VInt (KInt | KInt8 | KInt32 | KInt64
         | KUint | KUint8 | KUint32 | KUint64) _ => false
  | VFloat32 _ | VFloat64 _ => false
  | VString _ =>
      match Float64 v with
      | Some _ => false
      | None => true
      end
  | _ => true
  end.

(** [unsigned] *)
Definition unsigned (v : value) : value :=
  match v with
  | VInt (KInt | KInt8 | KInt32) z => VInt KUint32 (to_unsigned 32 z)
  | VInt KInt64 z => VInt KUint64 (to_unsigned 64 z)
  | _ => v
  end.

(** [Number.Unsigned] *)
Definition Unsigned (v : value) : value := unsigned v.

(** [trimExcessZerosFromExponent]: [l] runs down from the last byte; [r]
    is the string reversed, so that its head is [s[l]] and [l] is the
    length of its tail.  [None] is the panic of the slice [s[:l+2]] when
    it reaches past the end of [s]. *)
Fixpoint trim_loop (s : string) (r : list ascii) : option string :=
  match r with
  | [] => Some s
  | c :: r' =>
      match r' with
      | [] => Some s                  (* l = 0: the loop is not entered *)
      | _ =>
          if Ascii.eqb c "+" then
            if (length r' + 2 <=? String.length s)%nat
            then Some (take (length r' + 2) s) else None
          else if negb (Ascii.eqb c "0") then Some s
          else trim_loop s r'
      end
  end.

Definition trimExcessZerosFromExponent (s : string) : option string :=
  trim_loop s (rev (list_ascii_of_string s)).

(** What [fmt] writes when a [Format] method panics. *)
Definition panicked (c : ascii) (s : string) : string :=
  "%!" ++ String c "" ++ "(PANIC=Format method: runtime error: "
  ++ "slice bounds out of range [:" ++ Itoa (len s + 1)
  ++ "] with length " ++ Itoa (len s) ++ ")".

(** [fmt.Fprintf(f, "%b", v)] for the wrapped value: integers in base 2
    with their sign, floats as mantissa and binary exponent, strings as
    an operand the verb does not apply to; the library's business for
    other operands. *)
Definition Fprintf_b (v : value) : Go string :=
  match v with
  | VInt _ z => Ret (FormatInt false 2 z)
  | VFloat32 f => Ret (Float.FormatFloat Float.binary32 f "b" (-1))
  | VFloat64 f => Ret (Float.FormatFloat Float.binary64 f "b" (-1))
  | VString _ => Ret (badVerb "b" v)
  | _ => CallSprintf "%b" v Ret
  end.

(** [Number.Format]: what the method writes for the verb [c], with the
    precision of the state, if any. *)
Definition Format (v : value) (precision : option Z) (c : ascii)
    : Go string :=
  if Ascii.eqb c "b" then Fprintf_b v
  else if Ascii.eqb c "u" then
    match Int64 (Unsigned v) with
    | None => Ret (badVerb "u" v)
    | Some i64 => Ret (FormatInt false 10 i64)
    end
  else if Ascii.eqb c "i" || Ascii.eqb c "d" then
    match Int64 v with
    | None => Ret (badVerb c v)
    | Some i64 => Ret (FormatInt false 10 i64)
    end
  else if Ascii.eqb c "e" || Ascii.eqb c "f" || Ascii.eqb c "g" then
    match Float64 v with
    | None => Ret (badVerb c v)
    | Some f64 =>
        let prec := match precision with Some p => p | None => -1 end in
        let s := Float.FormatFloat Float.binary64 f64 c prec in
        if Ascii.eqb c "e" then
          match trimExcessZerosFromExponent s with
          | Some s' => Ret s'
          | None => Ret (panicked c s)
          end
        else Ret s
    end
  else if Ascii.eqb c "x" || Ascii.eqb c "X" || Ascii.eqb c "o" then
    match Int64 (Unsigned v) with
    | None => Ret (badVerb c v)
    | Some i64 =>
        Ret (FormatInt (Ascii.eqb c "X") (if Ascii.eqb c "o" then 8 else 16) i64)
    end
  else Ret "".

End Number.

(** ** Rendering a placeholder ([sprintfjs.go]) *)

(** AST nodes.  [Keys] is a Go slice, [None] when it is [nil]. *)
Record ASTNode : Type := {
  Text : string;
  Placeholder : string;
  ParamNo : Z;
  Keys : option (list string);
  Sign : string;
  Pad : string;
  Align : string;
  Width : Z;
  Precision : string;
  Type_ : string
}.

Definition AST : Type := list ASTNode.

(** The regular expressions applied to the type of a placeholder.  A
    character class matches if some byte of the string is in it. *)
Definition reNotType_Match (s : string) : bool :=
  any (fun c => negb (Ascii.eqb c "T")) s.
Definition reNotPrimitive_Match (s : string) : bool :=
  any (fun c => negb (Ascii.eqb c "v")) s.
Definition reNumericArg_Match (s : string) : bool :=
  any (fun c => mem c "bcdiefguxX") s.
Definition reNumber_Match (s : string) : bool :=
  any (fun c => mem c "diefg") s.

(** [reSign.ReplaceAllString(s, "")]: a sign at the start is removed. *)
Definition reSign_remove (s : string) : string :=
  match s with
  | String c s' => if Ascii.eqb c "+" || Ascii.eqb c "-" then s' else s
  | EmptyString => s
  end.

(** [isFunc] *)
Definition isFunc (v : value) : bool :=
  match v with
  | VFunc _ _ _ => true
  | _ => false
  end.

(** [coerceBoolean] *)
Definition coerceBoolean (v : value) : bool :=
  match v with
  | VOther (OPtr isnil) _ _ => negb isnil
  | VInt (KInt | KInt8 | KInt32 | KInt64
         | KUint | KUint8 | KUint32 | KUint64) z => negb (z =? 0)
  | VBool b => b
  | _ =>
      let s := Sprint v in
      if String.eqb s "0" || String.eqb s "" then false else true
  end.

(** [typeName] *)
Definition typeName (v : value) : string :=
  match v with
  | VNil => "null"
  | VOther (OSlice | OArray) _ _ | VReflectValues _ => "array"
  | VFunc _ _ _ => "function"
  | VBool _ => "boolean"
  | VString _ => "string"
  | _ =>
      if match v with
         | VOther (OPtr _) ty _ => String.eqb ty "*regexp.Regexp"
         | _ => false
         end
      then "regexp"
      else if negb (Number.IsNaN v) then "number"
      else "object"
  end.

(** The precision digits as [fmt] reads them ([parsenum]): a number is
    refused as soon as a further digit follows a value above [10^6]. *)
Fixpoint parsenum (acc : Z) (s : string) : option Z :=
  match s with
  | EmptyString => Some acc
  | String c s' =>
      if 1000000 <? acc then None
      else parsenum (acc * 10 + (code c - 48)) s'
  end.

(** A format of the two shapes [formatWithPrecision] builds, [%c] and
    [%.Nc]: the precision and the verb. *)
Definition directive (format : string) : option (option Z * ascii) :=
  match format with
  | String "%" (String c "") => Some (None, c)
  | String "%" (String "." rest) =>
      let '(digits, tail) := span is_digit rest in
      match digits, tail with
      | String _ _, String c "" =>
          match parsenum 0 digits with
          | Some n => Some (Some n, c)
          | None => None
          end
      | _, _ => None
      end
  | _ => None
  end.

(** [fmt.Sprintf(format, arg)] with one operand.  [fmt] hands a
    [Number], which is a [fmt.Formatter], to its [Format] method with the
    verb and the precision; a [bool] under [%t] is [true] or [false];
    anything else is the library's business. *)
Definition Sprintf (format : string) (arg : value) : Go string :=
  match directive format, arg with
  | Some (precision, c), VNumber v =>
      if mem c "bcdefgijostuvxX" then Number.Format v precision c
      else CallSprintf format arg Ret
  | Some (None, c), VBool b =>
      if Ascii.eqb c "t" then Ret (if b then "true" else "false")
      else CallSprintf format arg Ret
  | _, _ => CallSprintf format arg Ret
  end.

(** [formatWithPrecision] *)
Definition formatWithPrecision (typ precision : string) (v : value)
    : Go (cause + string) :=
  if String.eqb precision "" then
    call s <- Sprintf ("%" ++ typ) v; Ret (inr s)
  else if String.eqb typ "t" then
    match Atoi precision with
    | inl e => Ret (inl (CausePrecision precision e))
    | inr width => Ret (inr (trim (Sprint v) width))
    end
  else
    call s <- Sprintf ("%." ++ precision ++ typ) v; Ret (inr s).

(** [formatJSON] *)
Definition formatJSON (v : value) (indent : Z) : Go (cause + string) :=
  CallMarshal v (if 0 <? indent then Some (Repeat " " indent) else None)
    (fun r =>
       match r with
       | inl js => Ret (inr js)
       | inr msg => Ret (inl (CauseJSON msg))
       end).

(** The tail of [formatPlaceholder], from [if err != nil] on. *)
Definition finish (ph : ASTNode) (v : value) (r : cause + string)
    : res string :=
  match r with
  | inl c => Err (EFormat v (Placeholder ph) c)
  | inr formattedValue =>
      let '(signChar, formattedValue) :=
        if reNumber_Match (Type_ ph) then
          let positive := Number.IsPositive v in
          if negb positive || negb (String.eqb (Sign ph) "")
          then (sign positive, reSign_remove formattedValue)
          else ("", formattedValue)
        else ("", formattedValue) in
      Ok (alignedPad formattedValue (Width ph) (Pad ph) (Align ph) signChar)
  end.

(** [formatPlaceholder] *)
Definition formatPlaceholder (ph : ASTNode) (v : value) : Go (res string) :=
  let called :=
    if reNotType_Match (Type_ ph) && reNotPrimitive_Match (Type_ ph)
       && isFunc v
    then match v with
         | VFunc _ _ (Some results) => Some (VReflectValues results)
         | _ => None
         end
    else Some v in
  match called with
  | None => Ret (Panic "reflect: Call")
  | Some v =>
      let numberValue := VNumber v in
      if reNumericArg_Match (Type_ ph) && Number.IsNaN v
      then Ret (Err (ENotANumber v))
      else
        match Type_ ph with
        | EmptyString => Ret (Panic "index out of range")
        | String t _ =>
            if Ascii.eqb t "c" then
              call s <- Sprintf "%c" v; Ret (finish ph v (inr s))
            else if mem t "bdiuefgoxX" then
              call r <- formatWithPrecision (Type_ ph) (Precision ph) numberValue;
              Ret (finish ph v r)
            else if Ascii.eqb t "j" then
              call r <- formatJSON v (Width ph);
              match r with
              | inr formattedValue => Ret (Ok formattedValue)
              | inl _ => Ret (finish ph v r)
              end
            else if Ascii.eqb t "s" then
              call r <- formatWithPrecision (Type_ ph) (Precision ph) v;
              Ret (finish ph v r)
            else if Ascii.eqb t "t" then
              call r <- formatWithPrecision (Type_ ph) (Precision ph)
                          (VBool (coerceBoolean v));
              Ret (finish ph v r)
            else if Ascii.eqb t "T" then
              Ret (finish ph v (inr (typeName v)))
            else if Ascii.eqb t "v" then
              call r <- formatWithPrecision (Type_ ph) (Precision ph) v;
              Ret (finish ph v r)
            else Ret (finish ph v (inr (Sprint v)))
        end
  end.

(** ** Resolving the argument of a placeholder *)

(** [args[i]], for a Go [int] [i] within bounds. *)
Definition index (args : list value) (i : Z) : option value :=
  if (i <? 0) || (Z.of_nat (length args) <=? i) then None
  else args !! Z.to_nat i.

(** [marg[key]]: the zero value, [nil], for an absent key. *)
Definition map_index (marg : gmap string value) (key : string) : value :=
  default VNil (marg !! key).

(** The loop of [argumentValue] over the keys; [path] is [ph.Keys]. *)
Fixpoint walk (path : list string) (keys : list string) (arg : value)
    : res value :=
  match keys with
  | [] => Ok arg
  | key :: keys' =>
      match arg with
      | VNil => Err (ENilProperty key path)
      | VMap marg => walk path keys' (map_index marg key)
      | _ => Err (ENotMap key arg)
      end
  end.

(** [argumentValue]: the argument and the next cursor. *)
Definition argumentValue (ph : ASTNode) (args : list value) (cursor : Z)
    : res (value * Z) :=
  match Keys ph with
  | Some keys =>
      match index args cursor with
      | None => Err (EImplicitIndex (cursor + 1))
      | Some arg =>
          match walk keys keys arg with
          | Ok arg' => Ok (arg', cursor)
          | Err e => Err e
          | Panic msg => Panic msg
          end
      end
  | None =>
      if negb (ParamNo ph =? 0) then
        if (ParamNo ph <? 1) || (Z.of_nat (length args) <? ParamNo ph)
        then Err (EPositionalIndex (ParamNo ph))
        else
          match index args (ParamNo ph - 1) with
          | Some arg => Ok (arg, cursor)
          | None => Panic "index out of range"
          end
      else
        match index args cursor with
        | None => Err (EImplicitIndex (cursor + 1))
        | Some arg => Ok (arg, cursor + 1)
        end
  end.

(** The loop of [FormatAST]. *)
Fixpoint FormatAST_loop (ast : AST) (args : list value) (cursor : Z)
    (output : string) : Go (res string) :=
  match ast with
  | [] => Ret (Ok output)
  | node :: ast' =>
      if negb (String.eqb (Text node) "") then
        FormatAST_loop ast' args cursor (output ++ Text node)
      else
        match argumentValue node args cursor with
        | Err e => Ret (Err e)
        | Panic msg => Ret (Panic msg)
        | Ok (arg, nextCursor) =>
            call r <- formatPlaceholder node arg;
            match r with
            | Err e => Ret (Err e)
            | Panic msg => Ret (Panic msg)
            | Ok f => FormatAST_loop ast' args nextCursor (output ++ f)
            end
        end
  end.

(** [FormatAST] *)
Definition FormatAST (ast : AST) (args : list value) : Go (res string) :=
  FormatAST_loop ast args 0 "".

(** ** Parsing a format string *)

Module Regexp.

(** [reText]: the longest run of bytes other than the percent sign. *)
Definition reText_Find (s : string) : option string :=
  match fst (span (fun c => negb (Ascii.eqb c "%")) s) with
  | EmptyString => None
  | m => Some m
  end.

(** [reModulo]: two percent signs. *)
Definition reModulo_Find (s : string) : option string :=
  match s with
  | String "%" (String "%" _) => Some "%%"
  | _ => None
  end.

(** The submatches of [rePlaceholder]; an optional group that took no
    part in the match is the empty string. *)
Record submatch : Type := {
  m0 : string;   (* the whole match *)
  m1 : string;   (* group 1: the digits before [$] *)
  m2 : string;   (* group 2: the key path between the parentheses *)
  m3 : string;   (* group 3: the sign flag *)
  m4 : string;   (* group 4: the pad specifier *)
  m5 : string;   (* group 5: the alignment flag *)
  m6 : string;   (* group 6: the width *)
  m7 : string;   (* group 7: the precision *)
  m8 : string    (* group 8: the type *)
}.

(** An optional literal byte. *)
Definition opt_byte (c : ascii) (s : string) : string * string :=
  match s with
  | String d s' => if Ascii.eqb c d then (String c "", s') else ("", s)
  | EmptyString => ("", s)
  end.

(** The optional argument selector, digits from 1 to 9 first and a
    dollar sign, or a key path in parentheses: the text it matched, the
    two groups, and the rest. *)
Definition selector (s : string) : string * string * string * string :=
  match s with
  | String c s' =>
      if in_range 49 57 c then
        let '(ds, t) := span is_digit s in
        match t with
        | String "$" t' => (ds ++ "$", ds, "", t')
        | _ => ("", "", "", s)
        end
      else if Ascii.eqb c "(" then
        let '(ks, t) := span (fun c => negb (Ascii.eqb c ")")) s' in
        match ks, t with
        | String _ _, String ")" t' => ("(" ++ ks ++ ")", "", ks, t')
        | _, _ => ("", "", "", s)
        end
      else ("", "", "", s)
  | EmptyString => ("", "", "", s)
  end.

(** The optional pad specifier, a zero or a quote and one rune other
    than the dollar sign. *)
Definition padspec (s : string) : string * string :=
  match s with
  | String "0" s' => ("0", s')
  | String "'" (String c s') =>
      if Ascii.eqb c "$" then ("", s)
      else
        let n := rune_size c s' in
        (String "'" (take n (String c s')), drop n (String c s'))
  | _ => ("", s)
  end.

(** The optional precision, a point and digits: the digits and the
    rest. *)
Definition precision (s : string) : string * string :=
  match s with
  | String "." s' =>
      match span is_digit s' with
      | (String c ds, t) => (String c ds, t)
      | _ => ("", s)
      end
  | _ => ("", s)
  end.

(** [rePlaceholder.FindAllStringSubmatch(s, 1)].  The expression is
    anchored and each of its optional parts is decided by the next byte,
    so the leftmost-first match is found without backtracking. *)
Definition rePlaceholder_Find (s : string) : option submatch :=
  match s with
  | String "%" s0 =>
      let '(seltext, g1, g2, s1) := selector s0 in
      let '(g3, s2) := opt_byte "+" s1 in
      let '(g4, s3) := padspec s2 in
      let '(g5, s4) := opt_byte "-" s3 in
      let '(g6, s5) := span is_digit s4 in
      let '(g7, s6) := precision s5 in
      match s6 with
      | String t _ =>
          if mem t "bcdefgijostTuvxX" then
            Some {| m0 := "%" ++ seltext ++ g3 ++ g4 ++ g5 ++ g6
                          ++ (if String.eqb g7 "" then "" else "." ++ g7)
                          ++ String t "";
                    m1 := g1; m2 := g2; m3 := g3; m4 := g4; m5 := g5;
                    m6 := g6; m7 := g7; m8 := String t "" |}
          else None
      | EmptyString => None
      end
  | _ => None
  end.

(** A letter of either case, or the underscore. *)
Definition is_letter (c : ascii) : bool :=
  in_range 65 90 c || in_range 97 122 c || Ascii.eqb c "_".

(** One character of an identifier at the start of [s], and the rest.
    The expressions are case-insensitive, so that the class of letters
    also takes the two runes that fold to a letter: U+017F (bytes C5 BF)
    and U+212A (bytes E2 84 AA).  With [digits], decimal digits are
    taken too. *)
Definition ident_char (digits : bool) (s : string)
    : option (string * string) :=
  match s with
  | String c s1 =>
      if is_letter c || (digits && is_digit c) then Some (String c "", s1)
      else
        match s1 with
        | String c2 s2 =>
            if (code c =? 0xC5) && (code c2 =? 0xBF)
            then Some (String c (String c2 ""), s2)
            else
              match s2 with
              | String c3 s3 =>
                  if (code c =? 0xE2) && (code c2 =? 0x84) && (code c3 =? 0xAA)
                  then Some (String c (String c2 (String c3 "")), s3)
                  else None
              | EmptyString => None
              end
        | EmptyString => None
        end
  | EmptyString => None
  end.

(** The characters of an identifier after the first, as many as there
    are: what was matched and the rest. *)
Fixpoint ident_tail (fuel : nat) (s : string) : string * string :=
  match fuel with
  | O => ("", s)
  | S fuel' =>
      match ident_char true s with
      | Some (a, s') => let '(b, t) := ident_tail fuel' s' in (a ++ b, t)
      | None => ("", s)
      end
  end.

(** An identifier at the start of [s]. *)
Definition ident (s : string) : option (string * string) :=
  match ident_char false s with
  | Some (a, s') =>
      let '(b, t) := ident_tail (String.length s') s' in Some (a ++ b, t)
  | None => None
  end.

(** [reKey]: the match [m[0]] (which is also [m[1]]). *)
Definition reKey_Find (s : string) : option string :=
  match ident s with
  | Some (k, _) => Some k
  | None => None
  end.

(** [reKeyAccess], a point and an identifier: [m[0]] and [m[1]]. *)
Definition reKeyAccess_Find (s : string) : option (string * string) :=
  match s with
  | String "." s' =>
      match ident s' with
      | Some (k, _) => Some (String "." k, k)
      | None => None
      end
  | _ => None
  end.

(** [reIndexAccess], digits in square brackets: [m[0]]. *)
Definition reIndexAccess_Find (s : string) : option string :=
  match s with
  | String "[" s' =>
      match span is_digit s' with
      | (String c ds, String "]" _) => Some ("[" ++ String c ds ++ "]")
      | _ => None
      end
  | _ => None
  end.

End Regexp.
Import Regexp.

(** The node of an implicit positional placeholder. *)
Definition node (placeholder sign pad align : string) (width : Z)
    (precision typ : string) : ASTNode :=
  {| Text := ""; Placeholder := placeholder; ParamNo := 0; Keys := None;
     Sign := sign; Pad := pad; Align := align; Width := width;
     Precision := precision; Type_ := typ |}.

(** The node of a named placeholder. *)
Definition named_node (placeholder : string) (keys : list string)
    (typ : string) : ASTNode :=
  {| Text := ""; Placeholder := placeholder; ParamNo := 0;
     Keys := Some keys; Sign := ""; Pad := ""; Align := ""; Width := 0;
     Precision := ""; Type_ := typ |}.

Definition text_node (text : string) : ASTNode :=
  {| Text := text; Placeholder := ""; ParamNo := 0; Keys := None;
     Sign := ""; Pad := ""; Align := ""; Width := 0; Precision := "";
     Type_ := "" |}.

(** The loop over the segments of a key path.  Every round drops
    [keyLen >= 1] bytes, so that [fuel] above the length of [keyNames]
    is never used up ([None]). *)
Fixpoint keys_loop (fuel : nat) (keyNames : string) (keyLen : nat)
    (keys : list string) : option (res (list string)) :=
  match fuel with
  | O => None
  | S fuel' =>
      let keyNames := drop keyLen keyNames in
      if String.eqb keyNames "" then Some (Ok keys)
      else
        match reKeyAccess_Find keyNames with
        | Some (w, k) =>
            keys_loop fuel' keyNames (String.length w) (keys ++ [k])
        | None =>
            match reIndexAccess_Find keyNames with
            | Some w => keys_loop fuel' keyNames (String.length w) keys
            | None => Some (Err ENamedKey)
            end
        end
  end.

(** The keys of the key path [keyNames] (the group [m[2]]). *)
Definition parse_keys (keyNames : string) : option (res (list string)) :=
  match reKey_Find keyNames with
  | Some k =>
      keys_loop (S (String.length keyNames)) keyNames (String.length k) [k]
  | None => Some (Err ENamedKey)
  end.

(** The node of a matched placeholder: the body of the third branch of
    [Parse], up to the bookkeeping of [argNames]. *)
Definition placeholder_node (m : submatch) : option (res ASTNode) :=
  let paramNo :=
    if negb (String.eqb (m1 m) "") then
      match Atoi (m1 m) with
      | inl e => Err (EParamNo (m1 m) e)
      | inr n => Ok n
      end
    else Ok 0 in
  let width :=
    if negb (String.eqb (m6 m) "") then
      match Atoi (m6 m) with
      | inl e => Err (EWidth (m6 m) e)
      | inr n => Ok n
      end
    else Ok 0 in
  let keys :=
    if negb (String.eqb (m2 m) "") then
      match parse_keys (m2 m) with
      | Some (Ok keys) => Some (Ok (Some keys))
      | Some (Err e) => Some (Err e)
      | Some (Panic msg) => Some (Panic msg)
      | None => None
      end
    else Some (Ok None) in
  match paramNo with
  | Err e => Some (Err e)
  | Panic msg => Some (Panic msg)
  | Ok paramNo =>
      match width with
      | Err e => Some (Err e)
      | Panic msg => Some (Panic msg)
      | Ok width =>
          match keys with
          | None => None
          | Some (Err e) => Some (Err e)
          | Some (Panic msg) => Some (Panic msg)
          | Some (Ok keys) =>
              Some (Ok {| Text := ""; Placeholder := m0 m;
                          ParamNo := paramNo; Keys := keys;
                          Sign := m3 m; Pad := m4 m; Align := m5 m;
                          Width := width; Precision := m7 m;
                          Type_ := m8 m |})
          end
      end
  end.

(** The loop of [Parse].  [argNames] gathers bit 1 for a named and bit 2
    for a positional placeholder.  Every round consumes [l >= 1] bytes:
    [fuel] above the length of [format] is never used up ([None]). *)
Fixpoint parse_loop (fuel : nat) (format : string) (ast : AST)
    (argNames : Z) : option (res AST) :=
  match fuel with
  | O => None
  | S fuel' =>
      if negb (0 <? len format) then Some (Ok ast)
      else
        let next (ast : AST) (l : Z) (argNames : Z) :=
          if len format <=? l then Some (Ok ast)
          else parse_loop fuel' (drop (Z.to_nat l) format) ast argNames in
        match reText_Find format with
        | Some text => next (ast ++ [text_node text])%list (len text) argNames
        | None =>
            match reModulo_Find format with
            | Some text => next (ast ++ [text_node "%"])%list (len text) argNames
            | None =>
                match rePlaceholder_Find format with
                | Some m =>
                    match placeholder_node m with
                    | None => None
                    | Some (Err e) => Some (Err e)
                    | Some (Panic msg) => Some (Panic msg)
                    | Some (Ok node) =>
                        let argNames :=
                          Z.lor argNames
                            (if negb (String.eqb (m2 m) "") then 1 else 2) in
                        if argNames =? 3 then Some (Err EMixed)
                        else next (ast ++ [node])%list (len (m0 m)) argNames
                    end
                | None => Some (Err EUnexpected)
                end
            end
        end
  end.

(** [Parse] *)
Definition Parse (format : string) : res AST :=
  match parse_loop (S (String.length format)) format [] 0 with
  | Some r => r
  | None => Panic "out of fuel"
  end.

(** [Format] *)
Definition Format (format : string) (args : list value) : Go (res string) :=
  match Parse format with
  | Ok ast => FormatAST ast args
  | Err e => Ret (Err e)
  | Panic msg => Ret (Panic msg)
  end.

(** ** Vocabulary of the specification *)

(** The pad specifier of a placeholder and the pad character it stands
    for: a space by default, [0] for zero padding, and otherwise the
    custom character that follows the quote. *)
Inductive PadSpec : string -> string -> Prop :=
| pad_default : PadSpec "" " "
| pad_zero : PadSpec "0" "0"
| pad_custom (c : ascii) (rest : string) :
    PadSpec (String "'" (String c rest)) (String c rest).

(** The shape of the nodes of a parsed format string. *)
Definition wf_node (n : ASTNode) : Prop :=
  (exists padChar, PadSpec (Pad n) padChar) /\
  (Align n = "" \/ Align n = "-") /\
  (Text n <> "" \/
   exists t, Type_ n = String t "" /\ mem t "bcdefgijostTuvxX" = true).

(** The mantissa and the binary exponent of a finite [float64]. *)
Definition in_float64 (m e : Z) : Prop :=
  0 < m < 2 ^ 53 /\ -1074 <= e <= 971.

(** The decimal point of [b] is that of [a], or one place further, or
    zero: where rounding [a] can leave it. *)
Definition near (a b : Float.decimal) : Prop :=
  Float.dp b = Float.dp a \/ Float.dp b = Float.dp a + 1 \/ Float.dp b = 0.

(** The finite values of [float64]. *)
Definition finite64 (f : Float.float) : Prop :=
  match f with
  | S754_zero _ => True
  | S754_finite _ m e => in_float64 (Zpos m) e
  | _ => False
  end.









(** ** Vocabulary of the further properties *)

(** The errors of [Parse]: the three of the grammar, and an argument
    number or a width that does not fit an [int]. *)
Definition parse_error (e : error) : Prop :=
  e = EMixed \/ e = EUnexpected \/ e = ENamedKey \/
  (exists digits, e = EParamNo digits ErrRange) \/
  (exists digits, e = EWidth digits ErrRange).

(** What holds of the fields of a node that [Parse] builds, besides
    [wf_node]. *)
Definition node_fields (n : ASTNode) : Prop :=
  0 <= ParamNo n < 2 ^ 63 /\ 0 <= Width n < 2 ^ 63 /\
  all is_digit (Precision n) = true /\
  (Sign n = "" \/ Sign n = "+") /\
  match Keys n with
  | Some keys => ParamNo n = 0 /\ keys <> [] /\ Forall (fun k => k <> "") keys
  | None => True
  end /\
  (if String.eqb (Text n) "" then exists rest, Placeholder n = String "%" rest
   else n = text_node (Text n)).

(** The text a node was parsed from: a literal percent sign is written
    twice, any other literal as it is, a placeholder as matched. *)
Definition source_text (n : ASTNode) : string :=
  if String.eqb (Text n) "%" then "%%"
  else if negb (String.eqb (Text n) "") then Text n
  else Placeholder n.

Definition unparse (ast : AST) : string :=
  fold_right (fun n s => source_text n ++ s) "" ast.

(** A literal or a named placeholder; a literal or a positional one. *)
Definition named_or_text (n : ASTNode) : Prop :=
  Text n <> "" \/ Keys n <> None.

Definition positional_or_text (n : ASTNode) : Prop :=
  Text n <> "" \/ Keys n = None.

(** A placeholder that takes the next argument: neither a key path nor
    an argument number. *)
Definition implicit (ph : ASTNode) : bool :=
  match Keys ph with
  | Some _ => false
  | None => ParamNo ph =? 0
  end.

Definition not_percent (c : ascii) : bool := negb (Ascii.eqb c "%").

(** A literal text as a format string: every percent sign is doubled. *)
Fixpoint escape (s : string) : string :=
  match s with
  | EmptyString => EmptyString
  | String c s' =>
      if Ascii.eqb c "%" then String "%" (String "%" (escape s'))
      else String c (escape s')
  end.

(** A result with [s] put in front of its output. *)
Definition prefixed (s : string) (r : res string) : res string :=
  match r with
  | Ok out => Ok (s ++ out)
  | _ => r
  end.

(** The concatenation of a list of strings. *)
Definition texts_of (texts : list string) : string :=
  fold_right append "" texts.
(** The key paths of the grammar, written in ASCII: a first key, then
    segments, each a point and a key or an index in square brackets. *)
Definition ident_byte (c : ascii) : bool := is_letter c || is_digit c.

Definition is_ident (k : string) : bool :=
  match k with
  | String c r => is_letter c && all ident_byte r
  | EmptyString => false
  end.

Inductive segment : Type :=
| Key (k : string)
| Index (digits : string).

Definition segment_ok (s : segment) : bool :=
  match s with
  | Key k => is_ident k
  | Index d => negb (String.eqb d "") && all is_digit d
  end.

Definition segment_text (s : segment) : string :=
  match s with
  | Key k => "." ++ k
  | Index d => "[" ++ d ++ "]"
  end.

Definition segment_keys (s : segment) : list string :=
  match s with
  | Key k => [k]
  | Index _ => []
  end.

Definition path_text (k : string) (segs : list segment) : string :=
  k ++ texts_of (map segment_text segs).

Definition path_keys (k : string) (segs : list segment) : list string :=
  k :: flat_map segment_keys segs.

(** The node of a placeholder with an argument number. *)
Definition numbered_node (placeholder : string) (paramNo : Z) (typ : string)
    : ASTNode :=
  {| Text := ""; Placeholder := placeholder; ParamNo := paramNo;
     Keys := None; Sign := ""; Pad := ""; Align := ""; Width := 0;
     Precision := ""; Type_ := typ |}.

(** * Properties *)

(** ** Byte strings *)

Lemma app_nil_s (b : string) : "" ++ b = b.
Proof. reflexivity. Qed.

Lemma app_cons_s (c : ascii) (a b : string) :
  String c a ++ b = String c (a ++ b).
Proof. reflexivity. Qed.

Lemma len_cons (c : ascii) (s : string) : len (String c s) = 1 + len s.
Proof. unfold len. cbn [String.length]. lia. Qed.

Lemma len_app (a b : string) : len (a ++ b) = len a + len b.
Proof.
  induction a as [|c a IH]; [reflexivity|].
  rewrite app_cons_s, !len_cons, IH. lia.
Qed.

Lemma len_nonneg (s : string) : 0 <= len s.
Proof. unfold len. lia. Qed.

Lemma len_repeat_nat (s : string) (n : nat) :
  len (repeat_nat s n) = Z.of_nat n * len s.
Proof.
  induction n as [|n IH]; [reflexivity|].
  cbn [repeat_nat]. rewrite len_app, IH. lia.
Qed.

Lemma len_Repeat (s : string) (n : Z) :
  0 <= n -> len (Repeat s n) = n * len s.
Proof.
  intros H. unfold Repeat. rewrite len_repeat_nat, Z2Nat.id by lia.
  reflexivity.
Qed.

Lemma app_assoc_s (a b c : string) : (a ++ b) ++ c = a ++ b ++ c.
Proof.
  induction a as [|x a IH]; [reflexivity|]. now rewrite !app_cons_s, IH.
Qed.

Lemma length_drop_s (n : nat) (s : string) :
  String.length (drop n s) = (String.length s - n)%nat.
Proof.
  revert s. induction n as [|n IH]; intros [|c s]; simpl; auto with arith.
Qed.

(** ** Padding *)

Lemma PadSpec_char (pad padChar : string) :
  PadSpec pad padChar ->
  (if String.eqb pad "" then " "
   else if 1 <? len pad then drop 1 pad else pad) = padChar.
Proof.
  intros [| |c rest]; try reflexivity.
  cbn [String.eqb]. simpl.
  assert (H : (1 <? len (String "'" (String c rest))) = true).
  { apply Z.ltb_lt. unfold len. simpl. lia. }
  now rewrite H.
Qed.

(** The pad specifier that the grammar of placeholders recognises is one
    of the three forms of [PadSpec]. *)
Lemma padspec_PadSpec (s g rest : string) :
  padspec s = (g, rest) -> exists padChar, PadSpec g padChar.
Proof.
  unfold padspec. intros H.
  destruct s as [|c s]; [inversion H; eexists; constructor|].
  destruct (Ascii.eqb_spec c "0") as [->|H0].
  { inversion H. eexists. constructor. }
  destruct (Ascii.eqb_spec c "'") as [->|H1].
  - destruct s as [|d s]; [inversion H; eexists; constructor|].
    destruct (Ascii.eqb d "$"); [inversion H; eexists; constructor|].
    inversion H; subst. unfold rune_size.
    destruct (lead d) as [[n [lo hi]]|]; [|simpl; eexists; constructor].
    destruct n as [|[|[|[|[|n]]]]], s as [|c1 [|c2 [|c3 s]]];
      simpl; repeat match goal with |- context [if ?b then _ else _] => destruct b end;
      simpl; eexists; constructor.
  - assert (E : (g, rest) = ("", String c s)).
    { rewrite <- H. clear H.
      destruct c as [[] [] [] [] [] [] [] []]; try reflexivity;
        first [now contradiction H0 | now contradiction H1]. }
    inversion E. eexists. constructor.
Qed.

(** [alignedPad], with the pad character and the clamped length of the
    padding made explicit. *)
Lemma alignedPad_unfold
    (value : string) (width : Z) (pad align sign padChar : string) :
  PadSpec pad padChar ->
  let padLen :=
    if 0 <? width then Z.max 0 (width - len sign - len value) else 0 in
  let padding := Repeat padChar padLen in
  alignedPad value width pad align sign =
    if String.eqb align "-" then sign ++ value ++ padding
    else if String.eqb padChar "0" then sign ++ padding ++ value
    else padding ++ sign ++ value.
Proof.
  intros Hpad padLen padding. unfold alignedPad.
  rewrite (PadSpec_char _ _ Hpad).
  assert (E : (if (0 <? width) && (0 <? width - len sign - len value)
               then Repeat padChar (width - len sign - len value)
               else "") = padding).
  { subst padding padLen.
    destruct (Z.ltb_spec 0 width) as [Hw|Hw]; cbn [andb].
    - destruct (Z.ltb_spec 0 (width - len sign - len value)) as [Hp|Hp].
      + now rewrite Z.max_r by lia.
      + rewrite Z.max_l by lia. reflexivity.
    - reflexivity. }
  rewrite E. reflexivity.
Qed.

(** C6.  Composition of the padded output.  With the pad character read
    off the pad specifier (space by default, [0] for zero padding, the
    custom character otherwise) and [padLen = width - len(sign) -
    len(value)], clamped to zero when it is negative or when the width is
    not positive, [alignedPad] returns sign, value, padding when the
    left-align flag is present; sign, padding, value when right-aligned
    with the pad character [0]; and padding, sign, value in all other
    cases. *)
Theorem alignedPad_composition
    (value : string) (width : Z) (pad align sign padChar : string) :
  PadSpec pad padChar ->
  let padLen :=
    if 0 <? width then Z.max 0 (width - len sign - len value) else 0 in
  let padding := Repeat padChar padLen in
  alignedPad value width pad align sign =
    if String.eqb align "-" then sign ++ value ++ padding
    else if String.eqb padChar "0" then sign ++ padding ++ value
    else padding ++ sign ++ value.
Proof. exact (alignedPad_unfold value width pad align sign padChar). Qed.

(** The format [%+010d] on [-123]: zero padding after the sign. *)
Lemma alignedPad_composition_witness :
  PadSpec "0" "0" /\ alignedPad "123" 10 "0" "" "-" = "-000000123".
Proof.
  split; [constructor|].
  rewrite (alignedPad_composition "123" 10 "0" "" "-" "0" pad_zero).
  reflexivity.
Defined.

(** ** Characters and bytes *)

Lemma count_from_space (n : nat) (s : string) :
  count_from 0 (repeat_nat " " n ++ s) = Z.of_nat n + count_from 0 s.
Proof.
  induction n as [|n IH]; [reflexivity|].
  cbn [repeat_nat]. rewrite app_assoc_s.
  change (" " ++ repeat_nat " " n ++ s)
    with (String " " (repeat_nat " " n ++ s)).
  cbn [count_from]. change (rune_size " " _) with 1%nat.
  cbn [Nat.sub]. rewrite IH. lia.
Qed.

(** C9.  The padding is counted in bytes.  For a positive width and a
    pad character of one byte, the padded output is [width] bytes long
    (or as long as sign and text, if that is more): the length of the
    padding is the width less the byte lengths of the sign and of the
    rendered text.  So a text that holds a multi-byte UTF-8 character
    (fewer runes than bytes) and fits the width comes out with fewer
    than [width] characters. *)
Theorem padding_counts_bytes
    (value : string) (width : Z) (pad align sign padChar : string) :
  0 < width ->
  PadSpec pad padChar ->
  len padChar = 1 ->
  len (alignedPad value width pad align sign)
  = Z.max width (len sign + len value) /\
  (len value <= width ->
   RuneCountInString value < len value ->
   RuneCountInString (alignedPad value width "" "" "") < width).
Proof.
  intros Hw Hpad Hone.
  assert (Hw' : (0 <? width) = true) by now apply Z.ltb_lt.
  pose proof (len_nonneg sign) as Hs. pose proof (len_nonneg value) as Hv.
  split.
  - rewrite (alignedPad_unfold value width pad align sign padChar Hpad).
    cbn zeta. rewrite Hw'.
    destruct (String.eqb align "-"); [|destruct (String.eqb padChar "0")];
      rewrite !len_app, len_Repeat, Hone by lia; lia.
  - intros Hfit Hmulti.
    rewrite (alignedPad_unfold value width "" "" "" " " pad_default).
    cbn zeta. change (String.eqb "" "-") with false.
    change (String.eqb " " "0") with false. cbn iota.
    change (len "") with 0. rewrite app_nil_s, Hw', Z.max_r by lia.
    unfold RuneCountInString, Repeat. rewrite count_from_space.
    rewrite Z2Nat.id by lia. fold (RuneCountInString value). lia.
Qed.

(** The letter e with an acute accent, two bytes, at width 5: five bytes,
    four characters. *)
Lemma padding_counts_bytes_witness :
  len (alignedPad (String (chr 195) (String (chr 169) "")) 5 "" "" "") = 5 /\
  RuneCountInString
    (alignedPad (String (chr 195) (String (chr 169) "")) 5 "" "" "") = 4 /\
  RuneCountInString
    (alignedPad (String (chr 195) (String (chr 169) "")) 5 "" "" "") < 5.
Proof.
  assert (H1 : 0 < 5) by lia.
  assert (H2 : len (String (chr 195) (String (chr 169) "")) <= 5)
    by (vm_compute; discriminate).
  assert (H3 : RuneCountInString (String (chr 195) (String (chr 169) ""))
               < len (String (chr 195) (String (chr 169) "")))
    by (vm_compute; reflexivity).
  destruct (padding_counts_bytes (String (chr 195) (String (chr 169) "")) 5
              "" "" "" " " H1 pad_default eq_refl) as [Hlen Hcount].
  split; [exact Hlen|]. split; [vm_compute; reflexivity|].
  exact (Hcount H2 H3).
Defined.

(** ** Key paths *)

Lemma walk_app (path ks1 ks2 : list string) (arg : value) :
  walk path (ks1 ++ ks2)%list arg =
  match walk path ks1 arg with
  | Ok v => walk path ks2 v
  | r => r
  end.
Proof.
  revert arg. induction ks1 as [|k ks1 IH]; intros arg; [reflexivity|].
  cbn [app walk]. destruct arg; try reflexivity. apply IH.
Qed.

Lemma walk_no_panic (path ks : list string) (arg : value) (msg : string) :
  walk path ks arg <> Panic msg.
Proof.
  revert arg. induction ks as [|k ks IH]; intros arg; [discriminate|].
  cbn [walk]. destruct arg; try discriminate. apply IH.
Qed.

(** An error of the traversal names the segment at which a nil or a value
    that is not a mapping stood in the way. *)
Lemma walk_error (path ks : list string) (arg : value) (e : error) :
  walk path ks arg = Err e ->
  exists ks1 key ks2 v,
    ks = (ks1 ++ key :: ks2)%list /\ walk path ks1 arg = Ok v /\
    ((v = VNil /\ e = ENilProperty key path) \/
     (v <> VNil /\ (forall m, v <> VMap m) /\ e = ENotMap key v)).
Proof.
  revert arg. induction ks as [|k ks IH]; intros arg H; [discriminate|].
  cbn [walk] in H.
  destruct arg;
    try (exists [], k, ks; eexists; split; [reflexivity|];
         split; [reflexivity|]; inversion H; subst;
         first [ left; split; reflexivity
               | right; repeat split; intros; discriminate ]).
  destruct (IH _ H) as (ks1 & key & ks2 & v & -> & Hw & Hv).
  exists (k :: ks1), key, ks2, v. repeat split; [exact Hw | exact Hv].
Qed.

(** C10.  A named placeholder whose key path runs through mappings up to
    its last segment, that segment being absent from the last mapping,
    resolves to nil without an error, and leaves the cursor where it was.
    A traversal error arises only where a nil, or a value that is not a
    mapping, is met with a segment still to be looked up. *)
Theorem absent_final_key_is_nil
    (ph : ASTNode) (args : list value) (cursor : Z)
    (keys : list string) (arg : value) :
  Keys ph = Some keys ->
  index args cursor = Some arg ->
  (forall ks k m,
      keys = (ks ++ [k])%list ->
      walk keys ks arg = Ok (VMap m) ->
      m !! k = None ->
      argumentValue ph args cursor = Ok (VNil, cursor)) /\
  (forall e,
      argumentValue ph args cursor = Err e ->
      exists ks1 key ks2 v,
        keys = (ks1 ++ key :: ks2)%list /\ walk keys ks1 arg = Ok v /\
        ((v = VNil /\ e = ENilProperty key keys) \/
         (v <> VNil /\ (forall m, v <> VMap m) /\ e = ENotMap key v))).
Proof.
  intros HK Hidx. unfold argumentValue. rewrite HK, Hidx. split.
  - intros ks k m -> Hw Hk.
    rewrite walk_app, Hw. cbn [walk]. unfold map_index. now rewrite Hk.
  - intros e H.
    destruct (walk keys keys arg) as [v|e'|msg] eqn:Hw; try discriminate.
    inversion H; subst e'. exact (walk_error _ _ _ _ Hw).
Qed.

(** The path [a.b] into a mapping whose entry [a] is an empty mapping. *)
Lemma absent_final_key_is_nil_witness :
  argumentValue (named_node "%(a.b)s" ["a"; "b"] "s")
    [VMap (<["a" := VMap ∅]> ∅)] 0
  = Ok (VNil, 0).
Proof.
  exact (proj1 (absent_final_key_is_nil (named_node "%(a.b)s" ["a"; "b"] "s")
                  [VMap (<["a" := VMap ∅]> ∅)] 0 ["a"; "b"]
                  (VMap (<["a" := VMap ∅]> ∅)) eq_refl eq_refl)
           ["a"] "b" ∅ eq_refl eq_refl eq_refl).
Defined.

(** ** Parsing *)

Lemma reText_Find_len (s text : string) :
  reText_Find s = Some text -> 1 <= len text.
Proof.
  unfold reText_Find.
  destruct (fst (span _ s)) as [|c t]; [discriminate|].
  intros H; inversion H; subst. rewrite len_cons. pose proof (len_nonneg t). lia.
Qed.

Lemma reModulo_Find_len (s text : string) :
  reModulo_Find s = Some text -> 1 <= len text.
Proof.
  unfold reModulo_Find. intros H.
  assert (E : text = "%%").
  { destruct s as [|c [|d s]]; try discriminate;
      destruct c as [[] [] [] [] [] [] [] []]; try discriminate;
      destruct d as [[] [] [] [] [] [] [] []]; try discriminate;
      now inversion H. }
  subst. vm_compute. discriminate.
Qed.

Lemma rePlaceholder_Find_len (s : string) (m : submatch) :
  rePlaceholder_Find s = Some m -> 1 <= len (m0 m).
Proof.
  unfold rePlaceholder_Find. intros H.
  destruct s as [|c s]; [discriminate|].
  destruct (Ascii.eqb_spec c "%") as [->|Hc].
  - destruct (selector s) as [[[seltext g1] g2] s1].
    destruct (opt_byte "+" s1) as [g3 s2].
    destruct (padspec s2) as [g4 s3].
    destruct (opt_byte "-" s3) as [g5 s4].
    destruct (span is_digit s4) as [g6 s5].
    destruct (precision s5) as [g7 s6].
    destruct s6 as [|t s6]; [discriminate|].
    destruct (mem t _); [|discriminate].
    inversion H; subst. cbn [m0].
    rewrite app_cons_s, len_cons. pose proof (len_nonneg ("" ++ seltext ++ g3 ++ g4 ++ g5 ++ g6 ++ (if String.eqb g7 "" then "" else "." ++ g7) ++ String t "")). lia.
  - exfalso. destruct c as [[] [] [] [] [] [] [] []]; try discriminate.
    now apply Hc.
Qed.

Lemma reKeyAccess_Find_len (s w k : string) :
  reKeyAccess_Find s = Some (w, k) -> (1 <= String.length w)%nat.
Proof.
  unfold reKeyAccess_Find. intros H.
  destruct s as [|c s]; [discriminate|].
  destruct (Ascii.eqb_spec c ".") as [->|Hc].
  - destruct (ident s) as [[k' r]|]; [|discriminate].
    inversion H; subst. cbn [String.length]. lia.
  - exfalso. destruct c as [[] [] [] [] [] [] [] []]; try discriminate.
    now apply Hc.
Qed.

Lemma reIndexAccess_Find_len (s w : string) :
  reIndexAccess_Find s = Some w -> (1 <= String.length w)%nat.
Proof.
  unfold reIndexAccess_Find. intros H.
  destruct s as [|c s]; [discriminate|].
  destruct (Ascii.eqb_spec c "[") as [->|Hc].
  - destruct (span is_digit s) as [[|d ds] [|b r]]; try discriminate.
    destruct (Ascii.eqb_spec b "]") as [->|Hb].
    + inversion H; subst. rewrite app_cons_s. cbn [String.length]. lia.
    + exfalso. destruct b as [[] [] [] [] [] [] [] []]; try discriminate.
      now apply Hb.
  - exfalso. destruct c as [[] [] [] [] [] [] [] []]; try discriminate.
    now apply Hc.
Qed.

(** The loop over a key path ends before its fuel does. *)
Lemma keys_loop_total (fuel : nat) :
  forall (keyNames : string) (keyLen : nat) (keys : list string),
    (String.length (drop keyLen keyNames) < fuel)%nat ->
    exists r, keys_loop fuel keyNames keyLen keys = Some r
              /\ (r = Err ENamedKey \/ exists ks, r = Ok ks).
Proof.
  induction fuel as [|fuel IH]; intros keyNames keyLen keys Hlt; [lia|].
  cbn [keys_loop]. cbv zeta.
  destruct (String.eqb_spec (drop keyLen keyNames) "") as [E|NE].
  { eexists; split; [reflexivity|]. right. eauto. }
  assert (Hpos : (1 <= String.length (drop keyLen keyNames))%nat).
  { destruct (drop keyLen keyNames); [congruence|cbn [String.length]; lia]. }
  destruct (reKeyAccess_Find _) as [[w k]|] eqn:HA.
  { apply reKeyAccess_Find_len in HA. apply IH. rewrite length_drop_s. lia. }
  destruct (reIndexAccess_Find _) as [w|] eqn:HI.
  { apply reIndexAccess_Find_len in HI. apply IH. rewrite length_drop_s. lia. }
  eexists; split; [reflexivity|]. now left.
Qed.

Lemma parse_keys_total (keyNames : string) :
  exists r, parse_keys keyNames = Some r
            /\ (r = Err ENamedKey \/ exists ks, r = Ok ks).
Proof.
  unfold parse_keys. destruct (reKey_Find keyNames) as [k|].
  - apply keys_loop_total. rewrite length_drop_s. lia.
  - eexists; split; [reflexivity|]. now left.
Qed.







Lemma step_shorter (format : string) (l : Z) :
  1 <= l -> (len format <=? l) = false ->
  (String.length (drop (Z.to_nat l) format) < String.length format)%nat.
Proof.
  intros Hl Hlt. apply Z.leb_gt in Hlt. unfold len in Hlt.
  rewrite length_drop_s. lia.
Qed.






(** ** Rendering a placeholder *)

Lemma run_bind {A B : Type} (lib : Lib) (m : Go A) (f : A -> Go B) :
  run lib (bind m f) = run lib (f (run lib m)).
Proof. induction m as [a|format arg k IH|arg indent k IH]; cbn; auto. Qed.

Lemma IsNaN_not_func (v : value) : Number.IsNaN v = false -> isFunc v = false.
Proof. destruct v; try reflexivity; discriminate. Qed.

(** [Ht : mem t set = true], for a literal [set]: one goal for each byte
    of the set. *)
Ltac mem_cases Ht t :=
  cbn [mem orb] in Ht;
  repeat match type of Ht with
         | (Ascii.eqb t ?c || _) = true =>
             destruct (Ascii.eqb_spec t c) as [->|_];
             [clear Ht|cbn [orb] in Ht]
         end;
  try discriminate.

(** A placeholder of a numeric type without precision, applied to a
    number: [fmt] hands the [Number] to [Number.Format], and the tail of
    [formatPlaceholder] signs and pads what it wrote. *)
Lemma formatPlaceholder_number (ph : ASTNode) (v : value) (t : ascii)
    (s : string) :
  Type_ ph = String t "" ->
  Precision ph = "" ->
  mem t "bdiuefgoxX" = true ->
  Number.IsNaN v = false ->
  Number.Format v None t = Ret s ->
  formatPlaceholder ph v = Ret (finish ph v (inr s)).
Proof.
  intros HT HP Ht Hnan Hs. unfold formatPlaceholder.
  rewrite (IsNaN_not_func _ Hnan), andb_false_r, Hnan, andb_false_r, HT, HP.
  mem_cases Ht t;
    (cbv -[Number.Format finish]; rewrite Hs; reflexivity).
Qed.

(** ** Unsigned rendering *)

Lemma to_unsigned_range (bits z : Z) :
  0 <= bits -> 0 <= to_unsigned bits z < 2 ^ bits.
Proof. intros H. unfold to_unsigned. apply Z.mod_pos_bound. lia. Qed.

Lemma to_signed_small (x : Z) : 0 <= x < 2 ^ 63 -> to_signed 64 x = x.
Proof.
  intros H. unfold to_signed.
  change (2 ^ (64 - 1)) with 9223372036854775808 in *.
  change (2 ^ 63) with 9223372036854775808 in *.
  change (2 ^ 64) with 18446744073709551616.
  rewrite Z.mod_small; lia.
Qed.

Lemma to_unsigned_negative (z : Z) :
  - 2 ^ 31 <= z < 0 -> to_unsigned 32 z = z + 2 ^ 32.
Proof.
  intros H. unfold to_unsigned.
  change (2 ^ 31) with 2147483648 in H.
  change (2 ^ 32) with 4294967296.
  symmetry. apply (Z.mod_unique_pos _ _ (-1)); lia.
Qed.

Lemma FormatInt_nonneg (upper : bool) (base n : Z) :
  0 <= n -> FormatInt upper base n = FormatUint upper base n.
Proof.
  intros H. unfold FormatInt.
  destruct (Z.ltb_spec n 0); [lia|reflexivity].
Qed.

Lemma Int64_unsigned_32 (k : ikind) (z : Z) :
  k = KInt \/ k = KInt8 \/ k = KInt32 ->
  Number.Int64 (Number.Unsigned (VInt k z)) = Some (to_unsigned 32 z).
Proof.
  intros [ -> | [ -> | -> ] ]; cbn [Number.Unsigned Number.unsigned Number.Int64];
    (rewrite to_signed_small; [reflexivity|]);
    pose proof (to_unsigned_range 32 z ltac:(lia)) as H;
    change (2 ^ 32) with 4294967296 in H;
    change (2 ^ 63) with 9223372036854775808; lia.
Qed.

(** C7, as amended.  With the type characters [u], [x], [X] and [o], an
    argument of kind [int], [int8] or [int32] is rendered as the value of
    its conversion to [uint32], in base 10, 16, 16 (upper case) and 8: a
    negative [z] of 32 bits as [z + 2^32].  With the type character [b]
    the argument is rendered in base 2 as it is, a negative one with a
    minus sign. *)
Theorem unsigned_is_32_bit
    (ph : ASTNode) (k : ikind) (z : Z) (t : ascii) :
  Type_ ph = String t "" ->
  Precision ph = "" ->
  k = KInt \/ k = KInt8 \/ k = KInt32 ->
  (mem t "uxXo" = true ->
   formatPlaceholder ph (VInt k z)
   = Ret (Ok (alignedPad
                (FormatUint (Ascii.eqb t "X")
                   (if Ascii.eqb t "u" then 10
                    else if Ascii.eqb t "o" then 8 else 16)
                   (to_unsigned 32 z))
                (Width ph) (Pad ph) (Align ph) ""))) /\
  (t = "b"%char ->
   formatPlaceholder ph (VInt k z)
   = Ret (Ok (alignedPad (FormatInt false 2 z)
                (Width ph) (Pad ph) (Align ph) ""))) /\
  (- 2 ^ 31 <= z < 0 -> to_unsigned 32 z = z + 2 ^ 32).
Proof.
  intros HT HP Hk.
  assert (Hnan : Number.IsNaN (VInt k z) = false)
    by (destruct Hk as [ -> | [ -> | -> ] ]; reflexivity).
  pose proof (to_unsigned_range 32 z ltac:(lia)) as Hr.
  split; [|split].
  - intros Ht.
    assert (Hs : Number.Format (VInt k z) None t
                 = Ret (FormatUint (Ascii.eqb t "X")
                          (if Ascii.eqb t "u" then 10
                           else if Ascii.eqb t "o" then 8 else 16)
                          (to_unsigned 32 z))).
    { unfold Number.Format. rewrite (Int64_unsigned_32 k z Hk).
      mem_cases Ht t;
        cbn [Ascii.eqb Bool.eqb orb]; now rewrite FormatInt_nonneg. }
    rewrite (formatPlaceholder_number ph _ t _ HT HP) with (2 := Hnan) (3 := Hs).
    + unfold finish. rewrite HT.
      mem_cases Ht t; reflexivity.
    + mem_cases Ht t; reflexivity.
  - intros ->.
    rewrite (formatPlaceholder_number ph _ "b" (FormatInt false 2 z) HT HP);
      [|reflexivity|exact Hnan|reflexivity].
    unfold finish. rewrite HT. reflexivity.
  - apply to_unsigned_negative.
Qed.

(** The format [%u] on the [int] [-2]. *)
Lemma unsigned_is_32_bit_witness :
  formatPlaceholder (node "%u" "" "" "" 0 "" "u") (VInt KInt (-2))
  = Ret (Ok "4294967294").
Proof.
  exact (proj1 (unsigned_is_32_bit (node "%u" "" "" "" 0 "" "u") KInt (-2)
                  "u" eq_refl eq_refl (or_introl eq_refl)) eq_refl).
Defined.

(** C7, as stated, fails for the type character [b]: the [int] [-2] is
    rendered with a minus sign, not as the digits of its conversion to an
    unsigned integer. *)
Lemma binary_keeps_the_sign :
  Format "%b" [VInt KInt (-2)] = Ret (Ok "-10") /\
  FormatUint false 2 (to_unsigned 32 (-2))
  = "11111111111111111111111111111110".
Proof. split; vm_compute; reflexivity. Qed.

(** ** The exponent of [%e] *)

Lemma list_ascii_app (a b : string) :
  list_ascii_of_string (a ++ b)
  = (list_ascii_of_string a ++ list_ascii_of_string b)%list.
Proof.
  induction a as [|c a IH]; [reflexivity|].
  rewrite app_cons_s. cbn [list_ascii_of_string app]. now rewrite IH.
Qed.

Lemma length_list_ascii (s : string) :
  length (list_ascii_of_string s) = String.length s.
Proof. induction s as [|c s IH]; cbn; auto. Qed.

Lemma take_app_s (a b : string) (n : nat) :
  take (String.length a + n) (a ++ b) = a ++ take n b.
Proof.
  induction a as [|c a IH]; [reflexivity|].
  rewrite !app_cons_s. cbn [String.length Nat.add take]. now rewrite IH.
Qed.

Lemma length_app_s (a b : string) :
  String.length (a ++ b) = (String.length a + String.length b)%nat.
Proof.
  induction a as [|c a IH]; [reflexivity|].
  rewrite app_cons_s. cbn [String.length]. now rewrite IH.
Qed.

(** The loop stops at a digit from 1 to 9, and at the byte that stands
    for a leading "digit" of up to 250. *)
Lemma trim_loop_digit (s : string) (d : Z) (c : ascii) (r : list ascii) :
  1 <= d <= 250 -> Number.trim_loop s (Float.digit_byte d :: c :: r) = Some s.
Proof.
  intros H.
  assert (Hall : forallb
                   (fun n => negb (Ascii.eqb (Float.digit_byte (Z.of_nat n)) "+")
                             && negb (Ascii.eqb (Float.digit_byte (Z.of_nat n)) "0"))
                   (seq 1 250) = true) by (vm_compute; reflexivity).
  rewrite forallb_forall in Hall.
  specialize (Hall (Z.to_nat d)). rewrite Z2Nat.id in Hall by lia.
  assert (Hin : In (Z.to_nat d) (seq 1 250)) by (apply in_seq; lia).
  apply Hall in Hin. apply andb_true_iff in Hin as [H1 H2].
  cbn [Number.trim_loop].
  apply negb_true_iff in H1. rewrite H1, H2. reflexivity.
Qed.

Lemma trim_loop_zero (s : string) (c : ascii) (r : list ascii) :
  Number.trim_loop s (Float.digit_byte 0 :: c :: r) = Number.trim_loop s (c :: r).
Proof. reflexivity. Qed.

Lemma digit_byte_cases (s : string) (d : Z) (c : ascii) (r : list ascii) :
  0 <= d <= 9 ->
  Number.trim_loop s (Float.digit_byte d :: c :: r)
  = if d =? 0 then Number.trim_loop s (c :: r) else Some s.
Proof.
  intros H. destruct (Z.eqb_spec d 0) as [->|Hd].
  - apply trim_loop_zero.
  - apply trim_loop_digit. lia.
Qed.

Lemma trim_loop_plus (s : string) (c : ascii) (r : list ascii) :
  (length (c :: r) + 2 <= String.length s)%nat ->
  Number.trim_loop s ("+"%char :: c :: r)
  = Some (take (length (c :: r) + 2) s).
Proof.
  intros H. apply Nat.leb_le in H.
  change (Number.trim_loop s ("+"%char :: c :: r))
    with (if (length (c :: r) + 2 <=? String.length s)%nat
          then Some (take (length (c :: r) + 2) s) else None).
  now rewrite H.
Qed.

(** The exponent zero loses its second digit. *)
Lemma trim_exponent_zero (body : string) :
  Number.trimExcessZerosFromExponent (body ++ "e+00") = Some (body ++ "e+0").
Proof.
  unfold Number.trimExcessZerosFromExponent.
  rewrite list_ascii_app, rev_app_distr.
  change (rev (list_ascii_of_string "e+00"))
    with [Float.digit_byte 0; Float.digit_byte 0; "+"%char; "e"%char].
  cbn [app]. rewrite !trim_loop_zero.
  assert (Hlen : length ("e"%char :: rev (list_ascii_of_string body))
                 = S (String.length body)).
  { cbn [length]. now rewrite length_rev, length_list_ascii. }
  rewrite trim_loop_plus; rewrite Hlen.
  - replace (S (String.length body) + 2)%nat
      with (String.length body + 3)%nat by lia.
    rewrite take_app_s. reflexivity.
  - rewrite length_app_s. cbn [String.length]. lia.
Qed.

(** [trimExcessZerosFromExponent] on the layout of [%e]: only the
    exponent zero, [e+00], loses a digit. *)
Lemma trim_exponent (body : string) (x : Z) :
  -25000 < x < 25000 ->
  Number.trimExcessZerosFromExponent (body ++ "e" ++ Float.fmt_exp x)
  = Some (if x =? 0 then body ++ "e+0" else body ++ "e" ++ Float.fmt_exp x).
Proof.
  intros Hx.
  destruct (Z.eqb_spec x 0) as [->|Hx0]; [apply trim_exponent_zero|].
  unfold Number.trimExcessZerosFromExponent.
  set (s := body ++ "e" ++ Float.fmt_exp x).
  assert (Hrev : forall sgn ds,
             Float.fmt_exp x = String sgn ds ->
             rev (list_ascii_of_string s)
             = (rev (list_ascii_of_string ds)
                  ++ sgn :: "e"%char :: rev (list_ascii_of_string body))%list).
  { intros sgn ds E. subst s. rewrite E.
    rewrite !list_ascii_app. cbn [list_ascii_of_string].
    rewrite rev_app_distr. cbn [rev app].
    rewrite <- !app_assoc. reflexivity. }
  assert (Hd : forall n, 0 <= n mod 10 <= 9).
  { intros n. pose proof (Z.mod_pos_bound n 10). lia. }
  assert (Hsgn : exists sgn ds,
             Float.fmt_exp x = String sgn ds /\
             ((Z.abs x < 10 /\ ds = String (Float.digit_byte 0)
                                      (String (Float.digit_byte (Z.abs x)) ""))
              \/ (10 <= Z.abs x < 100 /\
                  ds = String (Float.digit_byte (Z.abs x / 10))
                         (String (Float.digit_byte (Z.abs x mod 10)) ""))
              \/ (100 <= Z.abs x /\
                  ds = String (Float.digit_byte (Z.abs x / 100))
                         (String (Float.digit_byte ((Z.abs x / 10) mod 10))
                            (String (Float.digit_byte (Z.abs x mod 10)) ""))))).
  { unfold Float.fmt_exp.
    destruct (Z.ltb_spec (Z.abs x) 10);
      [|destruct (Z.ltb_spec (Z.abs x) 100)];
      destruct (x <? 0); do 2 eexists; (split; [reflexivity|]);
      [left|left|right; left|right; left|right; right|right; right];
      (split; [lia|reflexivity]). }
  destruct Hsgn as (sgn & ds & E & Hds).
  rewrite (Hrev _ _ E).
  destruct Hds as [[H ->]|[[H ->]|[H ->]]];
    cbn [list_ascii_of_string rev app].
  - apply trim_loop_digit. lia.
  - rewrite digit_byte_cases by apply Hd.
    destruct (Z.abs x mod 10 =? 0); [|reflexivity].
    apply trim_loop_digit.
    split; [apply Z.div_le_lower_bound; lia
           |apply Z.lt_succ_r, Z.div_lt_upper_bound; lia].
  - rewrite digit_byte_cases by apply Hd.
    destruct (Z.abs x mod 10 =? 0); [|reflexivity].
    rewrite digit_byte_cases by apply Hd.
    destruct ((Z.abs x / 10) mod 10 =? 0); [|reflexivity].
    apply trim_loop_digit.
    split; [apply Z.div_le_lower_bound; lia
           |apply Z.lt_succ_r, Z.div_lt_upper_bound; lia].
Qed.

(** The layout of [%e] for a finite float: a body, the letter, and the
    exponent with its sign and at least two digits. *)
Lemma FormatFloat_e_shape (f : Float.float) (p : Z) :
  (forall s, f <> S754_infinity s) -> f <> S754_nan ->
  exists body x,
    Float.FormatFloat Float.binary64 f "e" p = body ++ "e" ++ Float.fmt_exp x.
Proof.
  intros Hinf Hnan.
  assert (HE : forall neg a prec,
             exists body x,
               Float.formatDigits (p <? 0) neg a prec "e"
               = body ++ "e" ++ Float.fmt_exp x).
  { intros neg a prec. unfold Float.formatDigits.
    change (Ascii.eqb "e" "e") with true. cbn [orb]. unfold Float.fmtE.
    eexists _, _. rewrite <- !app_assoc_s. reflexivity. }
  unfold Float.FormatFloat.
  destruct f as [s|s| |s m e]; try congruence; try (now destruct (Hinf s));
    change (Ascii.eqb "e" "b") with false; cbv iota beta;
    destruct (p <? 0); apply HE.
Qed.


(** ** The range of the decimal exponent *)

Lemma little_double_length (d : Decimal.uint) :
  (length (Float.uint_digits (Decimal.Little.double d))
   <= S (length (Float.uint_digits d)))%nat /\
  (length (Float.uint_digits (Decimal.Little.succ_double d))
   <= S (length (Float.uint_digits d)))%nat.
Proof.
  induction d as [|d [IH1 IH2]|d [IH1 IH2]|d [IH1 IH2]|d [IH1 IH2]
                  |d [IH1 IH2]|d [IH1 IH2]|d [IH1 IH2]|d [IH1 IH2]
                  |d [IH1 IH2]|d [IH1 IH2]];
    cbn [Decimal.Little.double Decimal.Little.succ_double
         Float.uint_digits length]; lia.
Qed.

Lemma to_little_uint_length (p : positive) :
  (1 <= length (Float.uint_digits (Pos.to_little_uint p))
   <= Pos.size_nat p)%nat.
Proof.
  assert (Hpos : forall d,
             (1 <= length (Float.uint_digits d))%nat ->
             (1 <= length (Float.uint_digits (Decimal.Little.double d)))%nat /\
             (1 <= length (Float.uint_digits (Decimal.Little.succ_double d)))%nat).
  { intros d. destruct d; cbn [Decimal.Little.double Decimal.Little.succ_double
                               Float.uint_digits length]; lia. }
  induction p as [p IH|p IH|]; cbn [Pos.to_little_uint Pos.size_nat].
  - pose proof (little_double_length (Pos.to_little_uint p)).
    pose proof (Hpos (Pos.to_little_uint p)). lia.
  - pose proof (little_double_length (Pos.to_little_uint p)).
    pose proof (Hpos (Pos.to_little_uint p)). lia.
  - cbn. lia.
Qed.

Lemma revapp_length (d d' : Decimal.uint) :
  length (Float.uint_digits (Decimal.revapp d d'))
  = (length (Float.uint_digits d) + length (Float.uint_digits d'))%nat.
Proof.
  revert d'. induction d; intros d'; cbn [Decimal.revapp Float.uint_digits length];
    try reflexivity; rewrite IHd; cbn [Float.uint_digits length]; lia.
Qed.

(** A positive number has at least one digit and no more digits than
    bits. *)
Lemma pos_digits_length (p : positive) :
  (1 <= length (Float.pos_digits p) <= Pos.size_nat p)%nat.
Proof.
  unfold Float.pos_digits, Pos.to_uint, Decimal.rev.
  rewrite revapp_length. cbn [Float.uint_digits length].
  pose proof (to_little_uint_length p). lia.
Qed.

Lemma size_nat_bound (p : positive) (n : nat) :
  Zpos p < 2 ^ Z.of_nat n -> (Pos.size_nat p <= n)%nat.
Proof.
  revert n. induction p as [p IH|p IH|]; intros n H; cbn [Pos.size_nat].
  - destruct n as [|n]; [cbn in H; lia|].
    rewrite Nat2Z.inj_succ, Z.pow_succ_r in H by lia.
    specialize (IH n). lia.
  - destruct n as [|n]; [cbn in H; lia|].
    rewrite Nat2Z.inj_succ, Z.pow_succ_r in H by lia.
    specialize (IH n). lia.
  - destruct n as [|n]; [cbn in H; lia|]. lia.
Qed.

Lemma mk_dp (l : list Z) (p : Z) :
  Float.dp (Float.mk l p) = p \/ Float.dp (Float.mk l p) = 0.
Proof. unfold Float.mk. destruct (Float.rtrim l); cbn; auto. Qed.

Lemma pow2_digits (n : Z) (b : nat) :
  0 < n < 2 ^ Z.of_nat b ->
  (1 <= length (Float.pos_digits (Z.to_pos n)) <= b)%nat.
Proof.
  intros H. pose proof (pos_digits_length (Z.to_pos n)) as Hl.
  assert (Hs : (Pos.size_nat (Z.to_pos n) <= b)%nat).
  { apply size_nat_bound. rewrite Z2Pos.id by lia. lia. }
  lia.
Qed.

(** The decimal point of the exact digits of a [float64]. *)
Lemma exact_dp (m e : Z) :
  in_float64 m e -> -1100 <= Float.dp (Float.exact m e) <= 3300.
Proof.
  intros [[Hm0 Hm] [He1 He2]]. unfold Float.exact.
  destruct (Z.leb_spec 0 e) as [He|He].
  - assert (Hn : 0 < m * 2 ^ e < 2 ^ Z.of_nat 1024).
    { split; [apply Z.mul_pos_pos; [lia|apply Z.pow_pos_nonneg; lia]|].
      apply Z.lt_le_trans with (2 ^ 53 * 2 ^ e).
      - apply Z.mul_lt_mono_pos_r; [apply Z.pow_pos_nonneg; lia|lia].
      - rewrite <- Z.pow_add_r by lia. apply Z.pow_le_mono_r; lia. }
    pose proof (pow2_digits _ _ Hn) as Hl. cbv zeta.
    destruct (mk_dp (Float.pos_digits (Z.to_pos (m * 2 ^ e)))
                (Z.of_nat (length (Float.pos_digits (Z.to_pos (m * 2 ^ e))))))
      as [-> | ->]; lia.
  - assert (H5 : 0 < 5 ^ (- e) <= 2 ^ (3 * (- e))).
    { split; [apply Z.pow_pos_nonneg; lia|].
      rewrite Z.pow_mul_r by lia. change (2 ^ 3) with 8.
      apply Z.pow_le_mono_l. lia. }
    assert (Hn : 0 < m * 5 ^ (- e) < 2 ^ Z.of_nat 3300).
    { split; [apply Z.mul_pos_pos; lia|].
      apply Z.lt_le_trans with (2 ^ 53 * 2 ^ (3 * (- e))).
      - apply Z.le_lt_trans with (m * 2 ^ (3 * - e)).
        + apply Z.mul_le_mono_nonneg_l; lia.
        + apply Z.mul_lt_mono_pos_r; [apply Z.pow_pos_nonneg; lia|lia].
      - rewrite <- Z.pow_add_r by lia. apply Z.pow_le_mono_r; lia. }
    pose proof (pow2_digits _ _ Hn) as Hl. cbv zeta.
    destruct (mk_dp (Float.pos_digits (Z.to_pos (m * 5 ^ (- e))))
                (Z.of_nat (length (Float.pos_digits (Z.to_pos (m * 5 ^ (- e)))))
                 + e)) as [-> | ->]; lia.
Qed.

Lemma RoundDown_near (a : Float.decimal) (n : Z) : near a (Float.RoundDown a n).
Proof.
  unfold near, Float.RoundDown.
  destruct ((n <? 0) || (Float.nd a <=? n)); [auto|].
  destruct (mk_dp (firstn (Z.to_nat n) (Float.dd a)) (Float.dp a)) as [->| ->];
    auto.
Qed.

Lemma RoundUp_near (a : Float.decimal) (n : Z) : near a (Float.RoundUp a n).
Proof.
  unfold near, Float.RoundUp.
  destruct ((n <? 0) || (Float.nd a <=? n)); [auto|].
  destruct (Float.drop_nines _); cbn; auto.
Qed.

Lemma Round_near (a : Float.decimal) (n : Z) : near a (Float.Round a n).
Proof.
  unfold Float.Round.
  destruct ((n <? 0) || (Float.nd a <=? n)); [unfold near; auto|].
  destruct (Float.shouldRoundUp a n);
    [apply RoundUp_near|apply RoundDown_near].
Qed.

Lemma shortest_loop_near (fuel : nat) :
  forall a lower upper inclusive delta ui,
    near a (Float.shortest_loop fuel a lower upper inclusive delta ui).
Proof.
  induction fuel as [|fuel IH]; intros a lower upper inclusive delta ui;
    cbn [Float.shortest_loop]; [unfold near; auto|].
  cbv zeta.
  destruct (Float.nd a <=? _); [unfold near; auto|].
  destruct (_ && _); [apply Round_near|].
  destruct (negb _ || _); [apply RoundDown_near|].
  destruct (_ && _); [apply RoundUp_near|].
  apply IH.
Qed.

(** The layout of [%e] for a finite [float64], with a range for its
    exponent. *)
Lemma FormatFloat_e_range (f : Float.float) (p : Z) :
  finite64 f ->
  exists body x,
    Float.FormatFloat Float.binary64 f "e" p
    = body ++ "e" ++ Float.fmt_exp x /\
    -1200 <= x <= 3400.
Proof.
  assert (HE : forall neg a0 a prec,
             -1100 <= Float.dp a0 <= 3300 -> near a0 a ->
             exists body x,
               Float.formatDigits (p <? 0) neg a prec "e"
               = body ++ "e" ++ Float.fmt_exp x /\ -1200 <= x <= 3400).
  { intros neg a0 a prec Hdp Hnear. unfold Float.formatDigits.
    change (Ascii.eqb "e" "e") with true. cbn [orb]. unfold Float.fmtE.
    eexists _, _. rewrite <- !app_assoc_s. split; [reflexivity|].
    destruct (Float.nd a =? 0); [lia|].
    destruct Hnear as [-> | [-> | ->]]; lia. }
  assert (Hself : forall a, near a a) by (intros a; unfold near; auto).
  destruct f as [s|s| |s m e]; try contradiction; intros Hin;
    unfold Float.FormatFloat; change (Ascii.eqb "e" "b") with false;
    cbv iota beta zeta.
  - change (0 =? 0) with true. cbv iota.
    destruct (p <? 0).
    + apply (HE _ {| Float.dd := []; Float.dp := 0 |}); [cbn; lia|apply Hself].
    + change (Ascii.eqb "e" "g") with false.
      change (Ascii.eqb "e" "G") with false.
      change (Ascii.eqb "e" "e") with true. cbn [orb andb]. cbv iota.
      apply (HE _ {| Float.dd := []; Float.dp := 0 |});
        [cbn; lia|apply Round_near].
  - pose proof (exact_dp _ _ Hin) as Hdp.
    change (Z.pos m =? 0) with false. cbv iota.
    destruct (p <? 0).
    + apply (HE _ _ _ _ Hdp). apply shortest_loop_near.
    + change (Ascii.eqb "e" "g") with false.
      change (Ascii.eqb "e" "G") with false.
      change (Ascii.eqb "e" "e") with true. cbn [orb andb]. cbv iota.
      apply (HE _ _ _ _ Hdp). apply Round_near.
Qed.

(** C4, as amended.  For a number rendered with [e], [Number.Format]
    gives the digits of [strconv.FormatFloat] with the exponent cut to a
    single digit when the exponent is zero ([e+00] becomes [e+0]); any
    other exponent keeps the sign and the digits, two at least, that
    [strconv] writes. *)
Theorem exponent_trimmed_only_at_zero
    (v : value) (f64 : Float.float) (precision : option Z) :
  Number.Float64 v = Some f64 ->
  finite64 f64 ->
  exists body x,
    Float.FormatFloat Float.binary64 f64 "e"
      (match precision with Some p => p | None => -1 end)
    = body ++ "e" ++ Float.fmt_exp x /\
    Number.Format v precision "e"
    = Ret (if x =? 0 then body ++ "e+0"
           else body ++ "e" ++ Float.fmt_exp x).
Proof.
  intros Hf Hfin.
  destruct (FormatFloat_e_range f64
              (match precision with Some p => p | None => -1 end) Hfin)
    as (body & x & Hs & Hx).
  exists body, x. split; [exact Hs|].
  unfold Number.Format.
  change (Ascii.eqb "e" "b") with false.
  change (Ascii.eqb "e" "u") with false.
  change (Ascii.eqb "e" "i") with false.
  change (Ascii.eqb "e" "d") with false.
  change (Ascii.eqb "e" "e") with true.
  cbn [orb]. cbv iota. rewrite Hf. cbv zeta. rewrite Hs.
  rewrite trim_exponent by lia. reflexivity.
Qed.

(** The number 2, whose rendering is [2e+0] (example [test_exponent]). *)
Lemma exponent_trimmed_only_at_zero_witness :
  Number.Float64 (VInt KInt 2) = Some (Float.of_Z 2) /\
  finite64 (Float.of_Z 2) /\
  exists body x,
    Float.FormatFloat Float.binary64 (Float.of_Z 2) "e" (-1)
    = body ++ "e" ++ Float.fmt_exp x /\
    Number.Format (VInt KInt 2) None "e"
    = Ret (if x =? 0 then body ++ "e+0"
           else body ++ "e" ++ Float.fmt_exp x).
Proof.
  assert (Hfin : finite64 (Float.of_Z 2)).
  { vm_compute. repeat split; discriminate. }
  split; [reflexivity|]. split; [exact Hfin|].
  exact (exponent_trimmed_only_at_zero (VInt KInt 2) (Float.of_Z 2) None
           eq_refl Hfin).
Defined.

(** C4, as stated, fails for exponents from 1 to 9: the number 200000 is
    rendered with the exponent [+05], one digit more than it needs. *)
Lemma exponent_keeps_leading_zero :
  Format "%e" [VFloat64 (Float.of_Z 200000)] = Ret (Ok "2e+05") /\
  Format "%e" [VInt KInt 200000] = Ret (Ok "2e+05").
Proof. split; vm_compute; reflexivity. Qed.

(** ** Signs *)



(** What [Number.IsPositive] says of an integer: not below zero. *)
Lemma IsPositive_int (k : ikind) (z : Z) :
  k = KInt \/ k = KInt8 \/ k = KInt32 \/ k = KInt64 ->
  Number.IsPositive (VInt k z) = (0 <=? z).
Proof. intros [ -> | [ -> | [ -> | -> ] ] ]; reflexivity. Qed.


(** ** The check for a number *)

Lemma finish_not_NotANumber (ph : ASTNode) (v w : value) (r : cause + string) :
  finish ph v r <> Err (ENotANumber w).
Proof.
  unfold finish. destruct r as [c|fv]; [discriminate|].
  destruct (reNumber_Match (Type_ ph)); [|discriminate].
  destruct (negb (Number.IsPositive v) || negb (String.eqb (Sign ph) ""));
    discriminate.
Qed.

(** C3, as amended.  The check for a number before the dispatch is made
    for the type characters of [reNumericArg]: for every placeholder
    whose type character is one of [b], [c], [d], [e], [f], [g], [i],
    [u], [x], [X], a value that [Number.IsNaN] holds of fails with the
    error of [ENotANumber] (expecting number).  No type character other
    than these and [o] leads to that error, whatever the value and the
    libraries' answers. *)
Theorem nan_check_set (ph : ASTNode) (v : value) (t : ascii) :
  Type_ ph = String t "" ->
  (mem t "bcdefgiuxX" = true ->
   isFunc v = false ->
   Number.IsNaN v = true ->
   formatPlaceholder ph v = Ret (Err (ENotANumber v))) /\
  (mem t "bcdefgiouxX" = false ->
   forall lib w, run lib (formatPlaceholder ph v) <> Err (ENotANumber w)).
Proof.
  intros HT. split.
  - intros Ht Hf Hnan. unfold formatPlaceholder.
    rewrite Hf, andb_false_r, Hnan, HT.
    mem_cases Ht t; reflexivity.
  - intros Ht lib w. unfold formatPlaceholder. rewrite HT.
    cbn [mem orb] in Ht.
    repeat match type of Ht with
           | (_ || _) = false => apply orb_false_iff in Ht as [? Ht]
           end.
    assert (Hre : reNumericArg_Match (String t "") = false).
    { unfold reNumericArg_Match. cbn [any mem orb].
      repeat match goal with
             | H : Ascii.eqb t _ = false |- _ => rewrite H; clear H
             end. reflexivity. }
    rewrite Hre. cbn [andb].
    assert (Hnum : mem t "bdiuefgoxX" = false).
    { cbn [mem orb].
      repeat match goal with
             | H : Ascii.eqb t _ = false |- _ => rewrite H
             end. reflexivity. }
    rewrite Hnum.
    match goal with
    | H : Ascii.eqb t "c" = false |- _ => rewrite H
    end.
    destruct (if _ && isFunc v then _ else Some v) as [v'|];
      [|discriminate].
    destruct (Ascii.eqb t "j").
    { unfold formatJSON. cbn [bind run].
      destruct (lib_Marshal lib v' _); cbn [run];
        [discriminate|apply finish_not_NotANumber]. }
    destruct (Ascii.eqb t "s");
      [rewrite run_bind; apply finish_not_NotANumber|].
    destruct (Ascii.eqb t "t");
      [rewrite run_bind; apply finish_not_NotANumber|].
    destruct (Ascii.eqb t "T"); [apply finish_not_NotANumber|].
    destruct (Ascii.eqb t "v");
      [rewrite run_bind; apply finish_not_NotANumber|].
    apply finish_not_NotANumber.
Qed.

(** The format [%d] on a boolean. *)
Lemma nan_check_set_witness :
  formatPlaceholder (node "%d" "" "" "" 0 "" "d") (VBool true)
  = Ret (Err (ENotANumber (VBool true))).
Proof.
  exact (proj1 (nan_check_set (node "%d" "" "" "" 0 "" "d") (VBool true) "d"
                  eq_refl) eq_refl eq_refl eq_refl).
Defined.

(** C3, as stated, fails for the type character [c], which is checked
    although it is not in the set of the claim. *)
Lemma character_type_is_checked :
  Format "%c" [VBool true] = Ret (Err (ENotANumber (VBool true))) /\
  Format "%c" [VString "abc"] = Ret (Err (ENotANumber (VString "abc"))).
Proof. split; vm_compute; reflexivity. Qed.

(** ** Deferred values and booleans *)

(** C1.  A callable argument under a numeric type: the call's results
    come back as a slice of [reflect.Value], which is not a number; the
    value the function returns, passed directly, is rendered. *)
Theorem callable_is_not_unwrapped :
  Format "%d" [VFunc "func() int" "0x47b0e0" (Some [VInt KInt 2])]
  = Ret (Err (ENotANumber (VReflectValues [VInt KInt 2]))) /\
  Format "%d" [VInt KInt 2] = Ret (Ok "2").
Proof. split; vm_compute; reflexivity. Qed.

(** C2.  The nil interface value is rendered through [fmt.Sprint], whose
    answer is neither empty nor [0]: it coerces to [true]. *)
Theorem nil_coerces_to_true :
  coerceBoolean VNil = true /\ Format "%t" [VNil] = Ret (Ok "true").
Proof. split; vm_compute; reflexivity. Qed.

(** The other cases of the coercion. *)
Lemma coerceBoolean_cases :
  (forall ty str, coerceBoolean (VOther (OPtr true) ty str) = false) /\
  (forall ty str, coerceBoolean (VOther (OPtr false) ty str) = true) /\
  (forall k z,
      k <> KInt16 -> k <> KUint16 ->
      coerceBoolean (VInt k z) = negb (z =? 0)) /\
  (forall b, coerceBoolean (VBool b) = b) /\
  (forall s,
      coerceBoolean (VString s)
      = negb (String.eqb s "0" || String.eqb s "")).
Proof.
  split; [|split; [|split; [|split]]]; try reflexivity.
  intros k z H1 H2. destruct k; try reflexivity; contradiction.
Qed.

(** ** Further facts *)

(** A callable is replaced by the slice of the results of its call,
    unless the type is [T] or [v]. *)
Lemma callable_becomes_slice
    (ph : ASTNode) (ty str : string) (results : list value) :
  reNotType_Match (Type_ ph) = true ->
  reNotPrimitive_Match (Type_ ph) = true ->
  formatPlaceholder ph (VFunc ty str (Some results))
  = formatPlaceholder ph (VReflectValues results).
Proof.
  intros H1 H2. unfold formatPlaceholder. rewrite H1, H2. reflexivity.
Qed.

(** The values that [Number.IsNaN] does not hold of. *)
Lemma IsNaN_false (v : value) :
  Number.IsNaN v = false <->
  (exists k z, v = VInt k z /\ k <> KInt16 /\ k <> KUint16) \/
  (exists f, v = VFloat32 f) \/ (exists f, v = VFloat64 f) \/
  (exists s f, v = VString s /\ Float.ParseFloat s = inr f).
Proof.
  split.
  - destruct v as [|b|k z|f|f|s|m|ty str res0|vs|v|k ty str];
      try discriminate; intros H.
    + left. exists k, z. destruct k; try discriminate;
        (split; [reflexivity|split; discriminate]).
    + right. left. eauto.
    + right. right. left. eauto.
    + right. right. right. unfold Number.IsNaN, Number.Float64 in H.
      destruct (Float.ParseFloat s) as [e|f] eqn:E; [discriminate|eauto].
  - intros [H | [H | [H | H] ] ].
    + destruct H as (k & z & E & H1 & H2). subst v.
      destruct k; try reflexivity; contradiction.
    + destruct H as (f & E). now subst v.
    + destruct H as (f & E). now subst v.
    + destruct H as (s & f & E & H). subst v.
      unfold Number.IsNaN, Number.Float64. now rewrite H.
Qed.

(** The loop of [trimExcessZerosFromExponent] cannot slice past the end
    once it has stepped over one byte. *)
Lemma trim_loop_some (s : string) (r : list ascii) :
  (length r < String.length s)%nat -> exists s', Number.trim_loop s r = Some s'.
Proof.
  induction r as [|c r IH]; intros H; [eexists; reflexivity|].
  cbn [Number.trim_loop]. destruct r as [|c' r]; [eexists; reflexivity|].
  destruct (Ascii.eqb c "+").
  - assert (E : (length (c' :: r) + 2 <=? String.length s)%nat = true).
    { apply Nat.leb_le. cbn [length] in H |- *. lia. }
    rewrite E. eexists. reflexivity.
  - destruct (negb (Ascii.eqb c "0")); [eexists; reflexivity|].
    apply IH. cbn [length] in H |- *. lia.
Qed.

(** A string that does not end in a plus sign is trimmed without a
    panic. *)
Lemma trim_some (body : string) (c : ascii) :
  c <> "+"%char ->
  exists s',
    Number.trimExcessZerosFromExponent (body ++ String c "") = Some s'.
Proof.
  intros Hc. unfold Number.trimExcessZerosFromExponent.
  rewrite list_ascii_app, rev_app_distr. cbn [list_ascii_of_string rev app].
  cbn [Number.trim_loop].
  destruct (rev (list_ascii_of_string body)) as [|c' r] eqn:E;
    [eexists; reflexivity|].
  destruct (Ascii.eqb_spec c "+") as [->|_]; [contradiction|].
  destruct (negb (Ascii.eqb c "0")); [eexists; reflexivity|].
  apply trim_loop_some.
  rewrite <- E, length_rev, length_list_ascii, length_app_s.
  cbn [String.length]. lia.
Qed.

Lemma digit_byte_not_plus (d : Z) :
  0 <= d <= 9 -> Float.digit_byte d <> "+"%char.
Proof.
  intros H.
  assert (E : d = 0 \/ d = 1 \/ d = 2 \/ d = 3 \/ d = 4 \/ d = 5 \/ d = 6
              \/ d = 7 \/ d = 8 \/ d = 9) by lia.
  repeat (destruct E as [->|E]; [discriminate|]). subst. discriminate.
Qed.

(** The rendering of [strconv.FormatFloat] under [e] never ends in a plus
    sign, so that the trimming of its exponent never panics. *)
Lemma trim_FormatFloat (f : Float.float) (p : Z) :
  exists s',
    Number.trimExcessZerosFromExponent
      (Float.FormatFloat Float.binary64 f "e" p) = Some s'.
Proof.
  assert (Hexp : forall x, exists b d,
             Float.fmt_exp x = b ++ String (Float.digit_byte d) ""
             /\ 0 <= d <= 9).
  { intros x. unfold Float.fmt_exp.
    pose proof (Z.mod_pos_bound (Z.abs x) 10 ltac:(lia)) as Hm.
    destruct (Z.abs x <? 10) eqn:H10;
      [|destruct (Z.abs x <? 100)]; destruct (x <? 0).
    - exists "-0", (Z.abs x). split; [reflexivity|].
      apply Z.ltb_lt in H10. lia.
    - exists "+0", (Z.abs x). split; [reflexivity|].
      apply Z.ltb_lt in H10. lia.
    - exists (String "-" (String (Float.digit_byte (Z.abs x / 10)) "")),
        (Z.abs x mod 10). split; [reflexivity|lia].
    - exists (String "+" (String (Float.digit_byte (Z.abs x / 10)) "")),
        (Z.abs x mod 10). split; [reflexivity|lia].
    - exists (String "-" (String (Float.digit_byte (Z.abs x / 100))
                (String (Float.digit_byte ((Z.abs x / 10) mod 10)) ""))),
        (Z.abs x mod 10). split; [reflexivity|lia].
    - exists (String "+" (String (Float.digit_byte (Z.abs x / 100))
                (String (Float.digit_byte ((Z.abs x / 10) mod 10)) ""))),
        (Z.abs x mod 10). split; [reflexivity|lia]. }
  destruct f as [s|s| |s m e].
  - destruct (FormatFloat_e_shape (S754_zero s) p) as (body & x & E);
      [discriminate|discriminate|].
    rewrite E. destruct (Hexp x) as (b & d & -> & Hd).
    rewrite <- !app_assoc_s. apply trim_some, digit_byte_not_plus, Hd.
  - destruct s; eexists; vm_compute; reflexivity.
  - eexists; vm_compute; reflexivity.
  - destruct (FormatFloat_e_shape (S754_finite s m e) p) as (body & x & E);
      [discriminate|discriminate|].
    rewrite E. destruct (Hexp x) as (b & d & -> & Hd).
    rewrite <- !app_assoc_s. apply trim_some, digit_byte_not_plus, Hd.
Qed.

(** ** The nodes that [Parse] builds *)

Lemma opt_byte_cases (c : ascii) (s g rest : string) :
  opt_byte c s = (g, rest) -> g = "" \/ g = String c "".
Proof.
  unfold opt_byte. destruct s as [|d s]; intros H.
  - inversion H. now left.
  - destruct (Ascii.eqb c d); inversion H; [now right|now left].
Qed.

Lemma rePlaceholder_Find_groups (s : string) (m : submatch) :
  rePlaceholder_Find s = Some m ->
  (exists padChar, PadSpec (m4 m) padChar) /\
  (m5 m = "" \/ m5 m = "-") /\
  (exists t, m8 m = String t "" /\ mem t "bcdefgijostTuvxX" = true).
Proof.
  unfold rePlaceholder_Find. intros H.
  destruct s as [|c s]; [discriminate|].
  destruct (Ascii.eqb_spec c "%") as [->|Hc].
  - destruct (selector s) as [[[seltext g1] g2] s1].
    destruct (opt_byte "+" s1) as [g3 s2].
    destruct (padspec s2) as [g4 s3] eqn:Hpad.
    destruct (opt_byte "-" s3) as [g5 s4] eqn:Halign.
    destruct (span is_digit s4) as [g6 s5].
    destruct (precision s5) as [g7 s6].
    destruct s6 as [|t s6]; [discriminate|].
    destruct (mem t _) eqn:Ht; [|discriminate].
    inversion H; subst. cbn [m4 m5 m8].
    split; [exact (padspec_PadSpec _ _ _ Hpad)|].
    split; [exact (opt_byte_cases _ _ _ _ Halign)|eauto].
  - exfalso. destruct c as [[] [] [] [] [] [] [] []]; try discriminate.
    now apply Hc.
Qed.

Lemma placeholder_node_fields (m : submatch) (n : ASTNode) :
  placeholder_node m = Some (Ok n) ->
  Text n = "" /\ Pad n = m4 m /\ Align n = m5 m /\ Type_ n = m8 m
  /\ Sign n = m3 m /\ Precision n = m7 m /\ Placeholder n = m0 m.
Proof.
  unfold placeholder_node. intros H.
  destruct (if negb (String.eqb (m1 m) "") then _ else Ok 0)
    as [paramNo|e|msg]; try discriminate.
  destruct (if negb (String.eqb (m6 m) "") then _ else Ok 0)
    as [width|e|msg]; try discriminate.
  destruct (if negb (String.eqb (m2 m) "") then _ else Some (Ok None))
    as [[keys|e|msg]|]; try discriminate.
  inversion H; subst. cbn. repeat split.
Qed.

Lemma wf_text (text : string) : text <> "" -> wf_node (text_node text).
Proof.
  intros H. unfold wf_node, text_node. cbn.
  split; [eexists; constructor|]. split; [now left|now left].
Qed.

(** The invariant of the data model: a node that [Parse] builds is a
    literal with its text, or a placeholder with one type character of
    the grammar; its pad specifier and its alignment are of the forms the
    grammar allows. *)
Lemma parse_loop_wf (fuel : nat) :
  forall format ast argNames ast',
    Forall wf_node ast ->
    parse_loop fuel format ast argNames = Some (Ok ast') ->
    Forall wf_node ast'.
Proof.
  induction fuel as [|fuel IH]; intros format ast argNames ast' Hwf H;
    [discriminate|].
  cbn [parse_loop] in H. cbv zeta in H.
  destruct (negb (0 <? len format)); [now inversion H; subst|].
  assert (Hsnoc : forall n, wf_node n -> Forall wf_node (ast ++ [n])%list).
  { intros n Hn. apply Forall_app. split; [exact Hwf|]. now constructor. }
  destruct (reText_Find format) as [text|] eqn:HT.
  { assert (Hne : text <> "").
    { apply reText_Find_len in HT. intros ->. vm_compute in HT. now apply HT. }
    destruct (len format <=? len text).
    - inversion H; subst. apply Hsnoc, wf_text, Hne.
    - eapply IH; [|exact H]. apply Hsnoc, wf_text, Hne. }
  destruct (reModulo_Find format) as [text|].
  { destruct (len format <=? len text).
    - inversion H; subst. apply Hsnoc, wf_text. discriminate.
    - eapply IH; [|exact H]. apply Hsnoc, wf_text. discriminate. }
  destruct (rePlaceholder_Find format) as [m|] eqn:HP; [|discriminate].
  destruct (placeholder_node m) as [[n|e|msg]|] eqn:HN; try discriminate.
  destruct (Z.lor _ _ =? 3); [discriminate|].
  assert (Hn : wf_node n).
  { destruct (rePlaceholder_Find_groups _ _ HP) as (Hpad & Halign & Htype).
    destruct (placeholder_node_fields _ _ HN)
      as (_ & Ep & Ea & Et & _). unfold wf_node.
    rewrite Ep, Ea, Et. tauto. }
  destruct (len format <=? len (m0 m)).
  - inversion H; subst. apply Hsnoc, Hn.
  - eapply IH; [|exact H]. apply Hsnoc, Hn.
Qed.

Lemma Parse_wf (format : string) (ast : AST) :
  Parse format = Ok ast -> Forall wf_node ast.
Proof.
  unfold Parse. intros H.
  destruct (parse_loop _ format [] 0) as [r|] eqn:E; [|discriminate].
  subst r. refine (parse_loop_wf _ _ _ _ _ _ E). constructor.
Qed.

(** ** Every rendering but JSON is padded *)

Lemma finish_padded (ph : ASTNode) (v : value) (r : cause + string)
    (out : string) :
  finish ph v r = Ok out ->
  exists fv signChar,
    out = alignedPad fv (Width ph) (Pad ph) (Align ph) signChar.
Proof.
  unfold finish. destruct r as [c|fv]; [discriminate|].
  destruct (reNumber_Match (Type_ ph));
    [destruct (negb (Number.IsPositive v) || negb (String.eqb (Sign ph) ""))|];
    intros H; inversion H; eauto.
Qed.

(** Whatever the libraries answer, the output of a placeholder whose type
    is not [j] is the result of [alignedPad] at the width, the pad
    specifier and the alignment of the placeholder. *)
Lemma formatPlaceholder_padded
    (lib : Lib) (ph : ASTNode) (v : value) (t : ascii) (rest out : string) :
  Type_ ph = String t rest ->
  t <> "j"%char ->
  run lib (formatPlaceholder ph v) = Ok out ->
  exists fv signChar,
    out = alignedPad fv (Width ph) (Pad ph) (Align ph) signChar.
Proof.
  intros HT Hj. unfold formatPlaceholder.
  destruct (if _ && isFunc v then _ else Some v) as [v'|]; [|discriminate].
  destruct (reNumericArg_Match (Type_ ph) && Number.IsNaN v');
    [discriminate|].
  rewrite HT.
  destruct (Ascii.eqb t "c"); [rewrite run_bind; apply finish_padded|].
  destruct (mem t "bdiuefgoxX"); [rewrite run_bind; apply finish_padded|].
  destruct (Ascii.eqb_spec t "j") as [E|_]; [contradiction|].
  destruct (Ascii.eqb t "s"); [rewrite run_bind; apply finish_padded|].
  destruct (Ascii.eqb t "t"); [rewrite run_bind; apply finish_padded|].
  destruct (Ascii.eqb t "T"); [apply finish_padded|].
  destruct (Ascii.eqb t "v"); [rewrite run_bind; apply finish_padded|].
  apply finish_padded.
Qed.


(** ** What a match consumes *)

Lemma span_app (p : ascii -> bool) (s a b : string) :
  span p s = (a, b) -> s = a ++ b.
Proof.
  revert a b. induction s as [|c s IH]; intros a b H; cbn [span] in H.
  - now inversion H.
  - destruct (p c).
    + destruct (span p s) as [a' b']. inversion H; subst.
      rewrite app_cons_s. f_equal. now apply IH.
    + now inversion H.
Qed.

Lemma take_drop (n : nat) (s : string) : take n s ++ drop n s = s.
Proof.
  revert s. induction n as [|n IH]; intros [|c s]; cbn [take drop];
    try reflexivity.
  rewrite app_cons_s. f_equal. apply IH.
Qed.

Lemma opt_byte_app (c : ascii) (s g rest : string) :
  opt_byte c s = (g, rest) -> s = g ++ rest.
Proof.
  unfold opt_byte. destruct s as [|d s]; intros H; [now inversion H|].
  destruct (Ascii.eqb_spec c d) as [->|_]; now inversion H.
Qed.

Lemma selector_app (s text g1 g2 rest : string) :
  selector s = (text, g1, g2, rest) -> s = text ++ rest.
Proof.
  unfold selector. destruct s as [|c s]; intros H; [now inversion H|].
  destruct (in_range 49 57 c).
  - destruct (span is_digit (String c s)) as [ds t] eqn:E.
    apply span_app in E.
    destruct t as [|d t]; [now inversion H|].
    destruct (Ascii.eqb_spec d "$") as [->|Hd].
    + inversion H; subst. rewrite E, app_assoc_s. reflexivity.
    + assert (E' : (text, g1, g2, rest) = ("", "", "", String c s)).
      { rewrite <- H.
        destruct d as [[] [] [] [] [] [] [] []]; try reflexivity.
        now contradiction Hd. }
      now inversion E'.
  - destruct (Ascii.eqb_spec c "(") as [->|_]; [|now inversion H].
    destruct (span _ s) as [ks t] eqn:E. apply span_app in E.
    destruct ks as [|k ks]; [now inversion H|].
    destruct t as [|d t]; [now inversion H|].
    destruct (Ascii.eqb_spec d ")") as [->|Hd].
    + inversion H; subst. rewrite !app_assoc_s. reflexivity.
    + assert (E' : (text, g1, g2, rest) = ("", "", "", String "(" s)).
      { rewrite <- H.
        destruct d as [[] [] [] [] [] [] [] []]; try reflexivity.
        now contradiction Hd. }
      now inversion E'.
Qed.

Lemma padspec_app (s g rest : string) : padspec s = (g, rest) -> s = g ++ rest.
Proof.
  unfold padspec. intros H.
  destruct s as [|c s]; [now inversion H|].
  destruct (Ascii.eqb_spec c "0") as [->|H0]; [now inversion H|].
  destruct (Ascii.eqb_spec c "'") as [->|H1].
  - destruct s as [|d s]; [now inversion H|].
    destruct (Ascii.eqb d "$"); [now inversion H|].
    inversion H; subst. rewrite app_cons_s. f_equal.
    symmetry. apply take_drop.
  - assert (E : (g, rest) = ("", String c s)).
    { rewrite <- H. clear H.
      destruct c as [[] [] [] [] [] [] [] []]; try reflexivity;
        first [now contradiction H0 | now contradiction H1]. }
    now inversion E.
Qed.

Lemma precision_app (s g rest : string) :
  precision s = (g, rest) ->
  s = (if String.eqb g "" then "" else "." ++ g) ++ rest.
Proof.
  unfold precision. intros H.
  destruct s as [|c s]; [now inversion H|].
  destruct (Ascii.eqb_spec c ".") as [->|Hc].
  - destruct (span is_digit s) as [[|d ds] t] eqn:E.
    + now inversion H.
    + apply span_app in E. inversion H; subst. reflexivity.
  - assert (E : (g, rest) = ("", String c s)).
    { rewrite <- H. clear H.
      destruct c as [[] [] [] [] [] [] [] []]; try reflexivity.
      now contradiction Hc. }
    now inversion E.
Qed.

(** The match of a placeholder is a prefix of the input, as long as what
    [Parse] then drops from it. *)
Lemma rePlaceholder_Find_prefix (s : string) (m : submatch) :
  rePlaceholder_Find s = Some m -> exists rest, s = m0 m ++ rest.
Proof.
  unfold rePlaceholder_Find. intros H.
  destruct s as [|c s]; [discriminate|].
  destruct (Ascii.eqb_spec c "%") as [->|Hc].
  - destruct (selector s) as [[[seltext g1] g2] s1] eqn:E1.
    destruct (opt_byte "+" s1) as [g3 s2] eqn:E2.
    destruct (padspec s2) as [g4 s3] eqn:E3.
    destruct (opt_byte "-" s3) as [g5 s4] eqn:E4.
    destruct (span is_digit s4) as [g6 s5] eqn:E5.
    destruct (precision s5) as [g7 s6] eqn:E6.
    destruct s6 as [|t s6]; [discriminate|].
    destruct (mem t _); [|discriminate].
    inversion H; subst. cbn [m0]. exists s6.
    apply selector_app in E1. apply opt_byte_app in E2, E4.
    apply padspec_app in E3. apply span_app in E5.
    apply precision_app in E6.
    rewrite E1, E2, E3, E4, E5, E6, !app_assoc_s. reflexivity.
  - exfalso. destruct c as [[] [] [] [] [] [] [] []]; try discriminate.
    now apply Hc.
Qed.

(** * Further properties *)

(** ** Truncation and padding never lose bytes they should keep *)

Lemma app_nil_r_s (a : string) : a ++ "" = a.
Proof. induction a as [|c a IH]; [reflexivity|]. now rewrite app_cons_s, IH. Qed.

Lemma len_nil : len "" = 0.
Proof. reflexivity. Qed.

Lemma len_take (n : nat) (s : string) :
  len (take n s) = Z.min (Z.of_nat n) (len s).
Proof.
  revert s. induction n as [|n IH]; intros s;
    pose proof (len_nonneg s) as Hs; destruct s as [|c s]; cbn [take];
    rewrite ?len_cons, ?len_nil, ?IH in *; lia.
Qed.

(** X1. [trim] returns a prefix of the value: the value itself for a
    negative width, and otherwise its first [width] bytes, all of it when
    it has no more.  Trimming twice is trimming once. *)
Theorem trim_is_prefix (value : string) (width : Z) :
  (exists rest, value = trim value width ++ rest) /\
  len (trim value width)
  = (if width <? 0 then len value else Z.min width (len value)) /\
  trim (trim value width) width = trim value width.
Proof.
  assert (Hs : forall v, len v <= width -> trim v width = v).
  { intros v Hv. unfold trim. destruct (Z.leb_spec (len v) width); [|lia].
    now rewrite orb_true_r. }
  destruct (Z.ltb_spec width 0) as [Hneg|Hpos].
  - assert (E : forall v, trim v width = v).
    { intros v. unfold trim. now destruct (Z.ltb_spec width 0); [|lia]. }
    rewrite !E. split; [exists ""; now rewrite app_nil_r_s|]. now split.
  - destruct (Z.leb_spec (len value) width) as [Hle|Hgt].
    + rewrite !Hs by lia. split; [exists ""; now rewrite app_nil_r_s|].
      split; [lia|reflexivity].
    + assert (E : trim value width = take (Z.to_nat width) value).
      { unfold trim. destruct (Z.ltb_spec width 0); [lia|].
        now destruct (Z.leb_spec (len value) width); [lia|]. }
      rewrite E.
      split; [exists (drop (Z.to_nat width) value); now rewrite take_drop|].
      rewrite len_take, Z2Nat.id by lia. split; [lia|].
      apply Hs. rewrite len_take, Z2Nat.id by lia. lia.
Qed.

(** X2. [alignedPad] never truncates: the value is a substring of the
    output whatever the width, and when the sign and the value already
    fill the width the output is the sign and the value, for every pad
    specifier and alignment.  In bytes the output is the sign, the value
    and [padLen] copies of the pad character, which may be a rune of
    several bytes. *)
Theorem alignedPad_keeps_value
    (value : string) (width : Z) (pad align sign : string) :
  (width <= len sign + len value ->
   alignedPad value width pad align sign = sign ++ value) /\
  (exists a b, alignedPad value width pad align sign = a ++ value ++ b) /\
  (forall padChar,
      PadSpec pad padChar ->
      len (alignedPad value width pad align sign)
      = len sign + len value
        + (if 0 <? width then Z.max 0 (width - len sign - len value) else 0)
          * len padChar).
Proof.
  split; [|split].
  - intros Hw. unfold alignedPad.
    destruct (Z.ltb_spec 0 (width - len sign - len value)); [lia|].
    rewrite andb_false_r, app_nil_r_s, app_nil_s.
    destruct (String.eqb align "-"); [reflexivity|].
    now destruct (String.eqb _ "0").
  - unfold alignedPad.
    set (pc := if String.eqb pad "" then " " else _).
    set (p := if _ && _ then _ else "").
    destruct (String.eqb align "-"); [now exists sign, p|].
    destruct (String.eqb pc "0").
    + exists (sign ++ p), "". now rewrite app_nil_r_s, app_assoc_s.
    + exists (p ++ sign), "". now rewrite app_nil_r_s, app_assoc_s.
  - intros padChar HP. rewrite (alignedPad_unfold _ _ _ _ _ _ HP). cbv zeta.
    set (n := if 0 <? width then _ else 0).
    assert (Hn : 0 <= n) by (subst n; destruct (0 <? width); lia).
    destruct (String.eqb align "-"); [|destruct (String.eqb padChar "0")];
      rewrite !len_app, len_Repeat by exact Hn; lia.
Qed.

Lemma alignedPad_keeps_value_witness :
  alignedPad "12345" 3 "0" "-" "+" = "+12345" /\
  len (alignedPad "7" 3 (String "'" (String (chr 195) (String (chr 169) "")))
         "" "") = 5.
Proof.
  split.
  - apply (proj1 (alignedPad_keeps_value "12345" 3 "0" "-" "+")).
    vm_compute. discriminate.
  - rewrite (proj2 (proj2 (alignedPad_keeps_value "7" 3 _ "" ""))
               (String (chr 195) (String (chr 169) "")) (pad_custom _ _)).
    reflexivity.
Defined.

(** ** Trimming the exponent *)

Lemma string_of_list_app (a b : list ascii) :
  string_of_list_ascii (a ++ b)%list
  = string_of_list_ascii a ++ string_of_list_ascii b.
Proof.
  induction a as [|c a IH]; [reflexivity|].
  cbn [string_of_list_ascii app]. now rewrite app_cons_s, IH.
Qed.

Lemma length_string_of_list (l : list ascii) :
  String.length (string_of_list_ascii l) = length l.
Proof. induction l as [|c l IH]; [reflexivity|]. cbn. now rewrite IH. Qed.

Lemma string_of_list_nonempty (c : ascii) (l : list ascii) :
  string_of_list_ascii (rev (c :: l)) <> "".
Proof.
  intros E. apply (f_equal String.length) in E.
  rewrite length_string_of_list, length_rev in E. discriminate.
Qed.

Lemma length_zeros (n : nat) : String.length (repeat_nat "0" n) = n.
Proof.
  induction n as [|n IH]; [reflexivity|].
  cbn [repeat_nat]. rewrite app_cons_s, app_nil_s. cbn [String.length].
  now rewrite IH.
Qed.

Lemma take_all (s : string) : take (String.length s) s = s.
Proof. induction s as [|c s IH]; [reflexivity|]. cbn. now rewrite IH. Qed.

(** The loop, started anywhere in a run of zeros that ends the string:
    [r] is what is left to scan, reversed, and [k] zeros follow it. *)
Lemma trim_loop_inv (r : list ascii) :
  forall (k : nat) (s : string),
    s = string_of_list_ascii (rev r) ++ repeat_nat "0" k ->
    match Number.trim_loop s r with
    | Some s' =>
        s' = s \/
        exists p j, p <> "" /\ s' = p ++ "+0" /\ s = s' ++ repeat_nat "0" j
    | None => k = 0%nat /\ exists p, p <> "" /\ s = p ++ "+"
    end.
Proof.
  induction r as [|c r IH]; intros k s Hs; [now left|].
  cbn [Number.trim_loop]. destruct r as [|d r]; [now left|].
  set (r' := d :: r) in *.
  assert (Hp : string_of_list_ascii (rev r') <> "")
    by apply string_of_list_nonempty.
  assert (Es : s = string_of_list_ascii (rev r') ++ String c (repeat_nat "0" k)).
  { rewrite Hs. cbn [rev]. now rewrite string_of_list_app, app_assoc_s. }
  destruct (Ascii.eqb_spec c "+") as [->|Hplus].
  - assert (El : String.length s = (length r' + 1 + k)%nat).
    { rewrite Es, length_app_s, length_string_of_list, length_rev.
      cbn [String.length].
      rewrite length_zeros. lia. }
    destruct k as [|k].
    + destruct (Nat.leb_spec (length r' + 2) (String.length s)); [lia|].
      split; [reflexivity|]. now exists (string_of_list_ascii (rev r')).
    + destruct (Nat.leb_spec (length r' + 2) (String.length s)); [|lia].
      right. exists (string_of_list_ascii (rev r')), k.
      split; [exact Hp|].
      assert (E2 : s = (string_of_list_ascii (rev r') ++ "+0")
                       ++ repeat_nat "0" k).
      { rewrite Es, app_assoc_s. reflexivity. }
      split; [|].
      * rewrite E2 at 1.
        replace (length r' + 2)%nat
          with (String.length (string_of_list_ascii (rev r') ++ "+0") + 0)%nat.
        -- now rewrite take_app_s, app_nil_r_s.
        -- rewrite length_app_s, length_string_of_list, length_rev.
           cbn [String.length]. lia.
      * rewrite E2 at 1. f_equal.
        replace (length r' + 2)%nat
          with (String.length (string_of_list_ascii (rev r') ++ "+0") + 0)%nat.
        -- rewrite E2, take_app_s. now rewrite app_nil_r_s.
        -- rewrite length_app_s, length_string_of_list, length_rev.
           cbn [String.length]. lia.
  - destruct (Ascii.eqb_spec c "+") as [|_]; [contradiction|].
    destruct (Ascii.eqb_spec c "0") as [->|H0]; cbn [negb]; [|now left].
    specialize (IH (S k) s Es).
    destruct (Number.trim_loop s r'); [exact IH|]. now destruct IH.
Qed.

Lemma rev_list_snoc (body : string) (c : ascii) :
  rev (list_ascii_of_string (body ++ String c ""))
  = c :: rev (list_ascii_of_string body).
Proof. rewrite list_ascii_app, rev_app_distr. reflexivity. Qed.

Lemma rev_list_nonempty (body : string) :
  body <> "" -> exists d r, rev (list_ascii_of_string body) = d :: r.
Proof.
  intros H. destruct (rev (list_ascii_of_string body)) as [|d r] eqn:E; eauto.
  apply (f_equal (@length ascii)) in E.
  rewrite length_rev, length_list_ascii in E.
  destruct body; [contradiction|discriminate].
Qed.

(** X3. [trimExcessZerosFromExponent] panics on exactly the strings of
    two bytes or more that end in a plus sign: the slice [s[:l+2]] then
    reaches one byte past the end.  (On every other string it returns.) *)
Theorem trim_exponent_panics (s : string) :
  Number.trimExcessZerosFromExponent s = None
  <-> exists body, body <> "" /\ s = body ++ "+".
Proof.
  unfold Number.trimExcessZerosFromExponent. split.
  - intros H.
    pose proof (trim_loop_inv (rev (list_ascii_of_string s)) 0 s) as I.
    rewrite H in I. apply I.
    now rewrite rev_involutive, string_of_list_ascii_of_string, app_nil_r_s.
  - intros (body & Hne & ->). rewrite rev_list_snoc.
    destruct (rev_list_nonempty body Hne) as (d & r & E).
    cbn [Number.trim_loop]. rewrite E.
    change (Ascii.eqb "+" "+") with true. cbv iota.
    rewrite <- E, length_rev, length_list_ascii, length_app_s.
    cbn [String.length].
    now destruct (Nat.leb_spec (String.length body + 2) (String.length body + 1));
      [lia|].
Qed.

(** X4. What [trimExcessZerosFromExponent] returns is the string without
    some of the zeros at its end, nothing else is removed or changed; and
    trimming what it returns changes nothing. *)
Theorem trim_exponent_drops_zeros (s s' : string) :
  Number.trimExcessZerosFromExponent s = Some s' ->
  (exists n, s = s' ++ repeat_nat "0" n) /\
  Number.trimExcessZerosFromExponent s' = Some s'.
Proof.
  intros H.
  pose proof (trim_loop_inv (rev (list_ascii_of_string s)) 0 s) as I.
  unfold Number.trimExcessZerosFromExponent in H. rewrite H in I.
  destruct I as [->|(p & j & Hp & -> & Es)].
  - now rewrite rev_involutive, string_of_list_ascii_of_string, app_nil_r_s.
  - split; [exists 0%nat; now rewrite app_nil_r_s|exact H].
  - split; [now exists j|].
    unfold Number.trimExcessZerosFromExponent.
    change (p ++ "+0") with (p ++ String "+" (String "0" "")).
    replace (p ++ String "+" (String "0" ""))
      with ((p ++ "+") ++ String "0" "") by now rewrite app_assoc_s.
    rewrite rev_list_snoc, rev_list_snoc.
    destruct (rev_list_nonempty p Hp) as (d & r & E). rewrite E.
    cbn [Number.trim_loop].
    change (Ascii.eqb "0" "+") with false.
    change (Ascii.eqb "0" "0") with true.
    change (Ascii.eqb "+" "+") with true. cbv iota. cbn [negb].
    rewrite <- E, length_rev, length_list_ascii.
    assert (El : String.length ((p ++ "+") ++ "0")
                 = (String.length p + 2)%nat).
    { rewrite !length_app_s. cbn [String.length]. lia. }
    rewrite El. destruct (Nat.leb_spec (String.length p + 2) (String.length p + 2)); [|lia].
    now rewrite <- El, take_all.
Qed.

Lemma trim_exponent_drops_zeros_witness :
  (exists n, "1.5e+000" = "1.5e+0" ++ repeat_nat "0" n) /\
  Number.trimExcessZerosFromExponent "1.5e+0" = Some "1.5e+0".
Proof. exact (trim_exponent_drops_zeros "1.5e+000" "1.5e+0" eq_refl). Defined.

(** ** What the grammar lets into the groups of a placeholder *)

Lemma span_all (p : ascii -> bool) (s a b : string) :
  span p s = (a, b) -> all p a = true.
Proof.
  revert a b. induction s as [|c s IH]; intros a b H; cbn [span] in H.
  - now inversion H.
  - destruct (p c) eqn:Hc; [|now inversion H].
    destruct (span p s) as [a' b']. inversion H; subst.
    cbn [all]. rewrite Hc. exact (IH _ _ eq_refl).
Qed.

Lemma selector_groups (s text g1 g2 rest : string) :
  selector s = (text, g1, g2, rest) ->
  all is_digit g1 = true /\ (g1 = "" \/ g2 = "").
Proof.
  unfold selector. destruct s as [|c s]; intros H; [now inversion H; auto|].
  destruct (in_range 49 57 c).
  - destruct (span is_digit (String c s)) as [ds t] eqn:E.
    apply span_all in E.
    destruct t as [|d t]; [now inversion H; auto|].
    destruct (Ascii.eqb_spec d "$") as [->|Hd].
    + inversion H; subst. auto.
    + assert (E' : (text, g1, g2, rest) = ("", "", "", String c s)).
      { rewrite <- H.
        destruct d as [[] [] [] [] [] [] [] []]; try reflexivity.
        now contradiction Hd. }
      inversion E'. auto.
  - destruct (Ascii.eqb_spec c "(") as [->|_]; [|now inversion H; auto].
    destruct (span _ s) as [ks t] eqn:E.
    destruct ks as [|k ks]; [now inversion H; auto|].
    destruct t as [|d t]; [now inversion H; auto|].
    destruct (Ascii.eqb_spec d ")") as [->|Hd].
    + inversion H; subst. auto.
    + assert (E' : (text, g1, g2, rest) = ("", "", "", String "(" s)).
      { rewrite <- H.
        destruct d as [[] [] [] [] [] [] [] []]; try reflexivity.
        now contradiction Hd. }
      inversion E'. auto.
Qed.

Lemma precision_digits (s g rest : string) :
  precision s = (g, rest) -> all is_digit g = true.
Proof.
  unfold precision. intros H.
  destruct s as [|c s]; [now inversion H|].
  destruct (Ascii.eqb_spec c ".") as [->|Hc].
  - destruct (span is_digit s) as [[|d ds] t] eqn:E.
    + now inversion H.
    + apply span_all in E. now inversion H; subst.
  - assert (E : (g, rest) = ("", String c s)).
    { rewrite <- H. clear H.
      destruct c as [[] [] [] [] [] [] [] []]; try reflexivity.
      now contradiction Hc. }
    now inversion E.
Qed.

(** The digits of the argument number, of the width and of the
    precision are decimal digits; the sign flag is a plus sign; a
    placeholder has an argument number or a key path, not both. *)
Lemma rePlaceholder_Find_digits (s : string) (m : submatch) :
  rePlaceholder_Find s = Some m ->
  all is_digit (m1 m) = true /\ all is_digit (m6 m) = true /\
  all is_digit (m7 m) = true /\ (m3 m = "" \/ m3 m = "+") /\
  (m1 m = "" \/ m2 m = "").
Proof.
  unfold rePlaceholder_Find. intros H.
  destruct s as [|c s]; [discriminate|].
  destruct (Ascii.eqb_spec c "%") as [->|Hc].
  - destruct (selector s) as [[[seltext g1] g2] s1] eqn:E1.
    destruct (opt_byte "+" s1) as [g3 s2] eqn:E2.
    destruct (padspec s2) as [g4 s3].
    destruct (opt_byte "-" s3) as [g5 s4].
    destruct (span is_digit s4) as [g6 s5] eqn:E5.
    destruct (precision s5) as [g7 s6] eqn:E6.
    destruct s6 as [|t s6]; [discriminate|].
    destruct (mem t _); [|discriminate].
    inversion H; subst. cbn [m1 m2 m3 m6 m7].
    destruct (selector_groups _ _ _ _ _ E1) as [D1 X].
    split; [exact D1|]. split; [exact (span_all _ _ _ _ E5)|].
    split; [exact (precision_digits _ _ _ E6)|].
    split; [exact (opt_byte_cases _ _ _ _ E2)|exact X].
  - exfalso. destruct c as [[] [] [] [] [] [] [] []]; try discriminate.
    now apply Hc.
Qed.

Lemma digits_value_nonneg (s : string) :
  forall acc, 0 <= acc -> all is_digit s = true -> 0 <= digits_value acc s.
Proof.
  induction s as [|c s IH]; intros acc Hacc H; cbn [digits_value]; [exact Hacc|].
  cbn [all] in H. apply andb_true_iff in H as [Hc Hs].
  apply IH; [|exact Hs]. unfold is_digit, in_range in Hc.
  apply andb_true_iff in Hc as [Hlo _]. lia.
Qed.

(** [Atoi] on decimal digits: the number they write, unless it does not
    fit 64 bits. *)
Lemma Atoi_digits (s : string) :
  s <> "" -> all is_digit s = true ->
  Atoi s = inl ErrRange \/
  (Atoi s = inr (digits_value 0 s) /\ 0 <= digits_value 0 s < 2 ^ 63).
Proof.
  intros Hne Hd. unfold Atoi, ParseInt.
  destruct s as [|c s]; [contradiction|].
  assert (Hc : is_digit c = true)
    by (cbn [all] in Hd; now apply andb_true_iff in Hd).
  destruct (Ascii.eqb_spec c "-") as [->|_]; [discriminate|].
  destruct (Ascii.eqb_spec c "+") as [->|_]; [discriminate|].
  cbn [orb negb andb]. rewrite Hd. cbn [negb orb].
  change (String.eqb (String c s) "") with false. cbv iota.
  pose proof (digits_value_nonneg (String c s) 0 ltac:(lia) Hd) as H0.
  destruct (Z.leb_spec (2 ^ 63) (digits_value 0 (String c s)));
    [now left|right]. split; [reflexivity|lia].
Qed.

(** ** The nodes of a placeholder *)

Lemma ident_char_nonempty (digits : bool) (s a rest : string) :
  ident_char digits s = Some (a, rest) -> a <> "".
Proof.
  unfold ident_char. intros H.
  destruct s as [|c s1]; [discriminate|].
  destruct (is_letter c || digits && is_digit c); [now inversion H|].
  destruct s1 as [|c2 s2]; [discriminate|].
  destruct ((code c =? 197) && (code c2 =? 191)); [now inversion H|].
  destruct s2 as [|c3 s3]; [discriminate|].
  destruct ((code c =? 226) && (code c2 =? 132) && (code c3 =? 170));
    [now inversion H|discriminate].
Qed.

Lemma ident_nonempty (s k rest : string) : ident s = Some (k, rest) -> k <> "".
Proof.
  unfold ident. destruct (ident_char false s) as [[a s']|] eqn:E; [|discriminate].
  destruct (ident_tail _ s') as [b t]. intros H; inversion H; subst.
  apply ident_char_nonempty in E. destruct a; [contradiction|discriminate].
Qed.

Lemma reKey_Find_nonempty (s k : string) : reKey_Find s = Some k -> k <> "".
Proof.
  unfold reKey_Find. destruct (ident s) as [[k' r]|] eqn:E; [|discriminate].
  intros H; inversion H; subst. exact (ident_nonempty _ _ _ E).
Qed.

Lemma reKeyAccess_Find_nonempty (s w k : string) :
  reKeyAccess_Find s = Some (w, k) -> k <> "".
Proof.
  unfold reKeyAccess_Find. intros H.
  destruct s as [|c s]; [discriminate|].
  destruct (Ascii.eqb_spec c ".") as [->|Hc].
  - destruct (ident s) as [[k' r]|] eqn:E; [|discriminate].
    inversion H; subst. exact (ident_nonempty _ _ _ E).
  - exfalso. destruct c as [[] [] [] [] [] [] [] []]; try discriminate.
    now apply Hc.
Qed.

Lemma keys_loop_keys (fuel : nat) :
  forall (keyNames : string) (keyLen : nat) (keys ks : list string),
    keys <> [] -> Forall (fun k => k <> "") keys ->
    keys_loop fuel keyNames keyLen keys = Some (Ok ks) ->
    ks <> [] /\ Forall (fun k => k <> "") ks.
Proof.
  induction fuel as [|fuel IH]; intros keyNames keyLen keys ks Hne Hall H;
    [discriminate|].
  cbn [keys_loop] in H. cbv zeta in H.
  destruct (String.eqb (drop keyLen keyNames) ""); [now inversion H; subst|].
  destruct (reKeyAccess_Find _) as [[w k]|] eqn:HA.
  { apply reKeyAccess_Find_nonempty in HA.
    eapply IH; [| |exact H].
    - now destruct keys.
    - apply Forall_app. split; [exact Hall|]. now constructor. }
  destruct (reIndexAccess_Find _) as [w|]; [|discriminate].
  eapply IH; [exact Hne|exact Hall|exact H].
Qed.

Lemma parse_keys_keys (keyNames : string) (ks : list string) :
  parse_keys keyNames = Some (Ok ks) ->
  ks <> [] /\ Forall (fun k => k <> "") ks.
Proof.
  unfold parse_keys. destruct (reKey_Find keyNames) as [k|] eqn:E;
    [|discriminate].
  apply reKey_Find_nonempty in E.
  apply keys_loop_keys; [discriminate|]. now constructor.
Qed.

(** Decoding a matched placeholder gives a node with the fields of the
    match, or one of three errors. *)
Lemma placeholder_node_outcome (s : string) (m : submatch) :
  rePlaceholder_Find s = Some m ->
  (exists n, placeholder_node m = Some (Ok n) /\ node_fields n /\
             (Keys n = None <-> String.eqb (m2 m) "" = true)) \/
  (exists e, placeholder_node m = Some (Err e) /\ parse_error e /\ e <> EMixed).
Proof.
  intros HF.
  destruct (rePlaceholder_Find_digits _ _ HF) as (D1 & D6 & D7 & S3 & X).
  destruct (rePlaceholder_Find_prefix _ _ HF) as [rest0 Hpre].
  assert (H0 : exists rest, m0 m = String "%" rest).
  { revert HF. unfold rePlaceholder_Find.
    destruct s as [|c s]; [discriminate|].
    destruct (Ascii.eqb_spec c "%") as [->|Hc].
    - destruct (selector s) as [[[seltext g1] g2] s1].
      destruct (opt_byte "+" s1) as [g3 s2].
      destruct (padspec s2) as [g4 s3].
      destruct (opt_byte "-" s3) as [g5 s4].
      destruct (span is_digit s4) as [g6 s5].
      destruct (precision s5) as [g7 s6].
      destruct s6 as [|t s6]; [discriminate|].
      destruct (mem t _); [|discriminate].
      intros H; inversion H; subst. cbn [m0]. rewrite app_cons_s. eauto.
    - intros H. exfalso.
      destruct c as [[] [] [] [] [] [] [] []]; try discriminate.
      now apply Hc. }
  unfold placeholder_node.
  assert (P1 :
    (exists e, (if negb (String.eqb (m1 m) "")
                then match Atoi (m1 m) with
                     | inl e => Err (EParamNo (m1 m) e)
                     | inr n => Ok n
                     end
                else Ok 0) = (Err e : res Z) /\ parse_error e /\ e <> EMixed) \/
    (exists p, (if negb (String.eqb (m1 m) "")
                then match Atoi (m1 m) with
                     | inl e => Err (EParamNo (m1 m) e)
                     | inr n => Ok n
                     end
                else Ok 0) = (Ok p : res Z) /\ 0 <= p < 2 ^ 63 /\
               (m1 m = "" -> p = 0))).
  { destruct (String.eqb_spec (m1 m) "") as [E|NE]; cbn [negb].
    - right. exists 0. split; [reflexivity|]. split; [lia|reflexivity].
    - destruct (Atoi_digits _ NE D1) as [->|[-> R]].
      + left. eexists. split; [reflexivity|].
        split; [|discriminate]. unfold parse_error. eauto 10.
      + right. eexists. split; [reflexivity|]. split; [exact R|].
        intros; contradiction. }
  assert (P6 :
    (exists e, (if negb (String.eqb (m6 m) "")
                then match Atoi (m6 m) with
                     | inl e => Err (EWidth (m6 m) e)
                     | inr n => Ok n
                     end
                else Ok 0) = (Err e : res Z) /\ parse_error e /\ e <> EMixed) \/
    (exists p, (if negb (String.eqb (m6 m) "")
                then match Atoi (m6 m) with
                     | inl e => Err (EWidth (m6 m) e)
                     | inr n => Ok n
                     end
                else Ok 0) = (Ok p : res Z) /\ 0 <= p < 2 ^ 63)).
  { destruct (String.eqb_spec (m6 m) "") as [E|NE]; cbn [negb].
    - right. exists 0. split; [reflexivity|]. lia.
    - destruct (Atoi_digits _ NE D6) as [->|[-> R]].
      + left. eexists. split; [reflexivity|].
        split; [|discriminate]. unfold parse_error. eauto 10.
      + right. eexists. split; [reflexivity|]. exact R. }
  destruct P1 as [(e & -> & He)|(p & -> & Hp & Hp0)];
    [right; exists e; now split|].
  destruct P6 as [(e & -> & He)|(w & -> & Hw)];
    [right; exists e; now split|].
  destruct (String.eqb_spec (m2 m) "") as [E2|NE2]; cbn [negb].
  - left. eexists. split; [reflexivity|]. split; [|now cbn].
    unfold node_fields. cbn. tauto.
  - destruct (parse_keys_total (m2 m)) as (r & Hr & [->|[ks ->]]);
      rewrite Hr.
    + right. eexists. split; [reflexivity|].
      split; [|discriminate]. unfold parse_error. tauto.
    + left. eexists. split; [reflexivity|]. split; [|now cbn].
      destruct (parse_keys_keys _ _ Hr) as [K1 K2].
      assert (p = 0) by (destruct X; [auto|contradiction]).
      unfold node_fields. cbn. tauto.
Qed.

(** ** How [Parse] ends *)

Lemma parse_loop_outcome (fuel : nat) :
  forall format ast argNames,
    (String.length format < fuel)%nat ->
    (exists ast', parse_loop fuel format ast argNames = Some (Ok ast')) \/
    (exists e, parse_loop fuel format ast argNames = Some (Err e)
               /\ parse_error e).
Proof.
  induction fuel as [|fuel IH]; intros format ast argNames Hlt; [lia|].
  cbn [parse_loop]. cbv zeta.
  destruct (negb (0 <? len format)); [left; eauto|].
  assert (Hnext : forall ast l argNames,
             1 <= l ->
             (exists ast',
                 (if len format <=? l then Some (Ok ast)
                  else parse_loop fuel (drop (Z.to_nat l) format) ast argNames)
                 = Some (Ok ast')) \/
             (exists e,
                 (if len format <=? l then Some (Ok ast)
                  else parse_loop fuel (drop (Z.to_nat l) format) ast argNames)
                 = Some (Err e) /\ parse_error e)).
  { intros ast0 l a0 Hl. destruct (len format <=? l) eqn:E; [left; eauto|].
    apply IH. pose proof (step_shorter format l Hl E). lia. }
  destruct (reText_Find format) as [text|] eqn:HT.
  { apply Hnext. exact (reText_Find_len _ _ HT). }
  destruct (reModulo_Find format) as [text|] eqn:HM.
  { apply Hnext. exact (reModulo_Find_len _ _ HM). }
  destruct (rePlaceholder_Find format) as [m|] eqn:HP;
    [|right; eexists; split; [reflexivity|unfold parse_error; tauto]].
  destruct (placeholder_node_outcome _ _ HP)
    as [(n & -> & _)|(e & -> & He & _)]; [|right; eauto].
  destruct (Z.lor _ _ =? 3);
    [right; eexists; split; [reflexivity|unfold parse_error; tauto]|].
  apply Hnext. exact (rePlaceholder_Find_len _ _ HP).
Qed.

(** X5. [Parse] always returns, and never panics: it gives an AST, or
    one of five errors, the three of the grammar (an unexpected
    placeholder, a malformed key path, mixed styles) and an argument
    number or a width too large for an [int]. *)
Theorem Parse_outcomes (format : string) :
  (exists ast, Parse format = Ok ast) \/
  (exists e, Parse format = Err e /\ parse_error e).
Proof.
  unfold Parse.
  destruct (parse_loop_outcome (S (String.length format)) format [] 0)
    as [[ast' ->]|(e & -> & He)]; [lia|left; eauto|right; eauto].
Qed.

(** ** The nodes of a parsed format string *)

Section Nodes.

Variable P : ASTNode -> Prop.
Hypothesis P_text : forall text, text <> "" -> P (text_node text).
Hypothesis P_placeholder :
  forall s m n,
    rePlaceholder_Find s = Some m -> placeholder_node m = Some (Ok n) -> P n.

(** A property of literals and of decoded placeholders holds of every
    node of the AST. *)
Lemma parse_loop_Forall (fuel : nat) :
  forall format ast argNames ast',
    Forall P ast ->
    parse_loop fuel format ast argNames = Some (Ok ast') ->
    Forall P ast'.
Proof.
  induction fuel as [|fuel IH]; intros format ast argNames ast' HP H;
    [discriminate|].
  cbn [parse_loop] in H. cbv zeta in H.
  destruct (negb (0 <? len format)); [now inversion H; subst|].
  assert (Hsnoc : forall n, P n -> Forall P (ast ++ [n])%list).
  { intros n Hn. apply Forall_app. split; [exact HP|]. now constructor. }
  assert (Hnext : forall n l a,
             P n ->
             (if len format <=? l then Some (Ok (ast ++ [n])%list)
              else parse_loop fuel (drop (Z.to_nat l) format)
                     (ast ++ [n])%list a) = Some (Ok ast') ->
             Forall P ast').
  { intros n l a Hn H'. destruct (len format <=? l).
    - inversion H'; subst. now apply Hsnoc.
    - eapply IH; [|exact H']. now apply Hsnoc. }
  destruct (reText_Find format) as [text|] eqn:HT.
  { eapply Hnext; [|exact H]. apply P_text.
    apply reText_Find_len in HT. intros ->. vm_compute in HT. now apply HT. }
  destruct (reModulo_Find format) as [text|].
  { eapply Hnext; [|exact H]. now apply P_text. }
  destruct (rePlaceholder_Find format) as [m|] eqn:HF; [|discriminate].
  destruct (placeholder_node m) as [[n|e|msg]|] eqn:HN; try discriminate.
  destruct (Z.lor _ _ =? 3); [discriminate|].
  eapply Hnext; [|exact H]. exact (P_placeholder _ _ _ HF HN).
Qed.

Lemma Parse_Forall (format : string) (ast : AST) :
  Parse format = Ok ast -> Forall P ast.
Proof.
  unfold Parse. intros H.
  destruct (parse_loop _ format [] 0) as [r|] eqn:E; [|discriminate].
  subst r. refine (parse_loop_Forall _ _ _ _ _ _ E). constructor.
Qed.

End Nodes.

(** X6. Every node of a parsed format string is a literal, with its
    text and no other field set, or a placeholder whose fields are what
    the grammar admits: its text starts with a percent sign, its type is
    one type character, its pad specifier and alignment are of the forms
    allowed, its sign flag is a plus sign, its precision decimal digits,
    its width and argument number within [0, 2^63), and its key path, if
    any, a non-empty list of non-empty keys with no argument number
    beside it. *)
Theorem Parse_nodes (format : string) (ast : AST) :
  Parse format = Ok ast -> Forall (fun n => wf_node n /\ node_fields n) ast.
Proof.
  apply Parse_Forall.
  - intros text Hne. split; [now apply wf_text|].
    unfold node_fields, text_node. cbn.
    destruct (String.eqb_spec text ""); [contradiction|].
    repeat split; try lia; auto.
  - intros s m n HF HN. split.
    + destruct (rePlaceholder_Find_groups _ _ HF) as (Hpad & Halign & Htype).
      destruct (placeholder_node_fields _ _ HN) as (_ & Ep & Ea & Et & _).
      unfold wf_node. rewrite Ep, Ea, Et. tauto.
    + destruct (placeholder_node_outcome _ _ HF)
        as [(n' & E & Hn & _)|(e & E & _)]; rewrite E in HN;
        [|discriminate].
      now inversion HN; subst.
Qed.

Lemma Parse_nodes_witness :
  Forall (fun n => wf_node n /\ node_fields n)
    [text_node "a"; named_node "%(k.x)s" ["k"; "x"] "s"].
Proof. exact (Parse_nodes "a%(k.x)s" _ eq_refl). Defined.

(** ** From the AST back to the format string *)

Lemma drop_app_s (a b : string) : drop (String.length a) (a ++ b) = b.
Proof. induction a as [|c a IH]; [reflexivity|]. now rewrite app_cons_s. Qed.

Lemma len_app_le (a b : string) : len (a ++ b) <= len a -> b = "".
Proof.
  rewrite len_app. destruct b as [|c b]; [reflexivity|].
  rewrite len_cons. pose proof (len_nonneg b). lia.
Qed.

Lemma Z_to_nat_len (s : string) : Z.to_nat (len s) = String.length s.
Proof. unfold len. apply Nat2Z.id. Qed.

Lemma reText_Find_prefix (s text : string) :
  reText_Find s = Some text ->
  (exists rest, s = text ++ rest) /\ text <> "" /\ text <> "%".
Proof.
  unfold reText_Find.
  destruct (span (fun c => negb (Ascii.eqb c "%")) s) as [a b] eqn:E.
  cbn [fst]. intros H.
  assert (text = a /\ a <> "") as [-> Hne]
    by (destruct a; [discriminate|inversion H; split; [auto|discriminate]]).
  split; [exists b; exact (span_app _ _ _ _ E)|]. split; [exact Hne|].
  apply span_all in E. intros ->. discriminate.
Qed.

Lemma reModulo_Find_prefix (s text : string) :
  reModulo_Find s = Some text -> text = "%%" /\ exists rest, s = "%%" ++ rest.
Proof.
  unfold reModulo_Find. intros H.
  destruct s as [|c [|d s]]; try discriminate;
    destruct (Ascii.eqb_spec c "%") as [->|Hc];
    try (exfalso; destruct c as [[] [] [] [] [] [] [] []]; try discriminate;
         now apply Hc); try discriminate.
  destruct (Ascii.eqb_spec d "%") as [->|Hd];
    [|exfalso; destruct d as [[] [] [] [] [] [] [] []]; try discriminate;
      now apply Hd].
  inversion H. split; [reflexivity|]. now exists s.
Qed.

Lemma unparse_app (a b : AST) :
  unparse (a ++ b)%list = unparse a ++ unparse b.
Proof.
  induction a as [|n a IH]; [reflexivity|].
  cbn [unparse fold_right app]. fold (unparse (a ++ b)%list). fold (unparse a).
  now rewrite IH, app_assoc_s.
Qed.

Lemma parse_loop_unparse (fuel : nat) :
  forall format ast argNames ast',
    parse_loop fuel format ast argNames = Some (Ok ast') ->
    exists suffix, ast' = (ast ++ suffix)%list /\ unparse suffix = format.
Proof.
  induction fuel as [|fuel IH]; intros format ast argNames ast' H;
    [discriminate|].
  cbn [parse_loop] in H. cbv zeta in H.
  destruct (Z.ltb_spec 0 (len format)) as [Hpos|Hz]; cbn [negb] in H.
  2:{ inversion H; subst. exists []. rewrite app_nil_r. split; [reflexivity|].
      destruct format; [reflexivity|]. rewrite len_cons in Hz.
      pose proof (len_nonneg format). lia. }
  assert (Hnext : forall n w rest a,
             format = w ++ rest -> source_text n = w ->
             (if len format <=? len w then Some (Ok (ast ++ [n])%list)
              else parse_loop fuel (drop (Z.to_nat (len w)) format)
                     (ast ++ [n])%list a) = Some (Ok ast') ->
             exists suffix, ast' = (ast ++ suffix)%list
                            /\ unparse suffix = format).
  { intros n w rest a Ef En H'. subst w.
    destruct (Z.leb_spec (len format) (len (source_text n))) as [Hle|Hgt].
    - inversion H'; subst ast'. exists [n]. split; [reflexivity|].
      rewrite Ef in Hle. apply len_app_le in Hle. subst rest.
      cbn [unparse fold_right]. now rewrite Ef.
    - rewrite Z_to_nat_len in H'. rewrite Ef in H' at 1.
      rewrite drop_app_s in H'.
      destruct (IH _ _ _ _ H') as (suffix & -> & Es).
      exists (n :: suffix). split; [now rewrite <- app_assoc|].
      cbn [unparse fold_right]. fold (unparse suffix). now rewrite Es. }
  destruct (reText_Find format) as [text|] eqn:HT.
  { destruct (reText_Find_prefix _ _ HT) as ([rest Ef] & Hne & Hnp).
    eapply (Hnext (text_node text)); [exact Ef| |exact H].
    unfold source_text, text_node. cbn [Text].
    destruct (String.eqb_spec text "%"); [contradiction|].
    now destruct (String.eqb_spec text ""); [contradiction|]. }
  destruct (reModulo_Find format) as [text|] eqn:HM.
  { destruct (reModulo_Find_prefix _ _ HM) as (-> & rest & Ef).
    eapply (Hnext (text_node "%")); [exact Ef|reflexivity|exact H]. }
  destruct (rePlaceholder_Find format) as [m|] eqn:HF; [|discriminate].
  destruct (placeholder_node m) as [[n|e|msg]|] eqn:HN; try discriminate.
  destruct (Z.lor _ _ =? 3); [discriminate|].
  destruct (rePlaceholder_Find_prefix _ _ HF) as [rest Ef].
  eapply (Hnext n); [exact Ef| |exact H].
  destruct (placeholder_node_fields _ _ HN) as (Et & _ & _ & _ & _ & _ & Ep).
  unfold source_text. now rewrite Et, Ep.
Qed.

(** X7. Parsing loses nothing of the format string: writing every node
    of the AST back, a literal percent sign twice, any other literal as it
    is and a placeholder as it was matched, gives the format string
    again. *)
Theorem Parse_unparse (format : string) (ast : AST) :
  Parse format = Ok ast -> unparse ast = format.
Proof.
  unfold Parse. intros H.
  destruct (parse_loop _ format [] 0) as [r|] eqn:E; [|discriminate].
  subst r. destruct (parse_loop_unparse _ _ _ _ _ E) as (suffix & -> & Es).
  exact Es.
Qed.

Lemma Parse_unparse_witness :
  exists ast,
    Parse "%(n)d%% of %(who.name)-10s" = Ok ast /\
    unparse ast = "%(n)d%% of %(who.name)-10s".
Proof.
  eexists. split; [reflexivity|].
  exact (Parse_unparse "%(n)d%% of %(who.name)-10s" _ eq_refl).
Defined.

(** ** One style for a whole format string *)

Lemma parse_loop_styles (fuel : nat) :
  forall format ast argNames ast',
    (argNames = 0 \/ argNames = 1 \/ argNames = 2) ->
    (argNames <> 2 -> Forall named_or_text ast) ->
    (argNames <> 1 -> Forall positional_or_text ast) ->
    parse_loop fuel format ast argNames = Some (Ok ast') ->
    Forall named_or_text ast' \/ Forall positional_or_text ast'.
Proof.
  induction fuel as [|fuel IH]; intros format ast a ast' Ha HN HP H;
    [discriminate|].
  cbn [parse_loop] in H. cbv zeta in H.
  assert (Hdone : Forall named_or_text ast \/ Forall positional_or_text ast).
  { destruct (Z.eq_dec a 2) as [->|Ne]; [right; apply HP; lia|left; auto]. }
  destruct (negb (0 <? len format)); [now inversion H; subst|].
  assert (Hnext : forall n l a',
             (a' = 0 \/ a' = 1 \/ a' = 2) ->
             (a' <> 2 -> Forall named_or_text (ast ++ [n])%list) ->
             (a' <> 1 -> Forall positional_or_text (ast ++ [n])%list) ->
             (if len format <=? l then Some (Ok (ast ++ [n])%list)
              else parse_loop fuel (drop (Z.to_nat l) format)
                     (ast ++ [n])%list a') = Some (Ok ast') ->
             Forall named_or_text ast' \/ Forall positional_or_text ast').
  { intros n l a' Ha' HN' HP' H'. destruct (len format <=? l).
    - inversion H'; subst.
      destruct (Z.eq_dec a' 2) as [->|Ne]; [right; apply HP'; lia|left; auto].
    - eapply IH; [exact Ha'|exact HN'|exact HP'|exact H']. }
  assert (Htext : forall text l,
             text <> "" ->
             (if len format <=? l then Some (Ok (ast ++ [text_node text])%list)
              else parse_loop fuel (drop (Z.to_nat l) format)
                     (ast ++ [text_node text])%list a) = Some (Ok ast') ->
             Forall named_or_text ast' \/ Forall positional_or_text ast').
  { intros text l Hne. apply Hnext; [exact Ha| |].
    - intros Hx. apply Forall_app. split; [auto|]. constructor; [|constructor].
      now left.
    - intros Hx. apply Forall_app. split; [auto|]. constructor; [|constructor].
      now left. }
  destruct (reText_Find format) as [text|] eqn:HT.
  { eapply Htext; [|exact H].
    apply reText_Find_len in HT. intros ->. vm_compute in HT. now apply HT. }
  destruct (reModulo_Find format) as [text|].
  { eapply Htext; [|exact H]. discriminate. }
  destruct (rePlaceholder_Find format) as [m|] eqn:HF; [|discriminate].
  destruct (placeholder_node_outcome _ _ HF)
    as [(n & E & _ & HK)|(e & E & _)]; rewrite E in H; [|discriminate].
  destruct (String.eqb (m2 m)) eqn:E2; cbn [negb] in H.
  - assert (Hk : Keys n = None) by now apply HK.
    set (a' := Z.lor a 2) in *.
    destruct (a' =? 3) eqn:E3; [discriminate|].
    assert (Ha' : a' = 2 /\ a <> 1).
    { subst a'. destruct Ha as [ -> | [ -> | -> ] ]; vm_compute in E3;
        try discriminate; (split; [reflexivity|lia]). }
    destruct Ha' as [Ea' Hna].
    refine (Hnext _ _ _ _ _ _ H); [lia|intros; lia|].
    intros _. apply Forall_app. split; [now apply HP|].
    constructor; [now right|constructor].
  - assert (Hk : Keys n <> None) by (intros Hx; apply HK in Hx; discriminate).
    set (a' := Z.lor a 1) in *.
    destruct (a' =? 3) eqn:E3; [discriminate|].
    assert (Ha' : a' = 1 /\ a <> 2).
    { subst a'. destruct Ha as [ -> | [ -> | -> ] ]; vm_compute in E3;
        try discriminate; (split; [reflexivity|lia]). }
    destruct Ha' as [Ea' Hna].
    refine (Hnext _ _ _ _ _ _ H); [lia| |intros; lia].
    intros _. apply Forall_app. split; [now apply HN|].
    constructor; [now right|constructor].
Qed.

(** X8. The placeholders of a parsed format string are of one style: all
    of them named, or all of them positional. *)
Theorem Parse_one_style (format : string) (ast : AST) :
  Parse format = Ok ast ->
  Forall named_or_text ast \/ Forall positional_or_text ast.
Proof.
  unfold Parse. intros H.
  destruct (parse_loop _ format [] 0) as [r|] eqn:E; [|discriminate].
  subst r. refine (parse_loop_styles _ _ _ _ _ _ _ _ E); auto.
Qed.

Lemma Parse_one_style_witness :
  Forall named_or_text [named_node "%(a)s" ["a"] "s"; text_node "-";
                        named_node "%(b)s" ["b"] "s"] \/
  Forall positional_or_text [named_node "%(a)s" ["a"] "s"; text_node "-";
                             named_node "%(b)s" ["b"] "s"].
Proof. exact (Parse_one_style "%(a)s-%(b)s" _ eq_refl). Defined.

(** ** Which argument a placeholder reads *)

(** X9. [argumentValue] never panics: every index is checked before it
    is used.  It returns an argument, with the cursor moved by one for a
    placeholder that takes the next argument and left where it was for a
    named or numbered placeholder, or it returns the error of the index or
    of the key that failed. *)
Theorem argumentValue_outcomes
    (ph : ASTNode) (args : list value) (cursor : Z) :
  (exists arg,
      argumentValue ph args cursor
      = Ok (arg, if implicit ph then cursor + 1 else cursor)) \/
  (exists e,
      argumentValue ph args cursor = Err e /\
      match e with
      | EImplicitIndex need => need = cursor + 1 /\ ParamNo ph = 0 \/
                               need = cursor + 1 /\ Keys ph <> None
      | EPositionalIndex n => n = ParamNo ph /\ Keys ph = None /\ n <> 0
      | ENilProperty _ path => Keys ph = Some path
      | ENotMap _ _ => Keys ph <> None
      | _ => False
      end).
Proof.
  unfold argumentValue, implicit.
  destruct (Keys ph) as [keys|] eqn:EK.
  - destruct (index args cursor) as [arg|];
      [|right; eexists; split;
        [reflexivity|cbv iota; right; split; [auto|discriminate]]].
    destruct (walk keys keys arg) as [arg'|e|msg] eqn:EW.
    + left. eauto.
    + right. exists e. split; [reflexivity|].
      destruct (walk_error _ _ _ _ EW)
        as (ks1 & key & ks2 & v & _ & _ & [[_ ->]|(_ & _ & ->)]);
        cbv iota; [reflexivity|discriminate].
    + now apply walk_no_panic in EW.
  - destruct (Z.eqb_spec (ParamNo ph) 0) as [E0|N0]; cbn [negb].
    + destruct (index args cursor) as [arg|]; [left; eauto|].
      right. eexists. split; [reflexivity|]. cbv iota. left. auto.
    + destruct (Z.ltb_spec (ParamNo ph) 1) as [H1|H1]; cbn [orb];
        [right; eexists; split; [reflexivity|cbv iota; auto]|].
      destruct (Z.ltb_spec (Z.of_nat (length args)) (ParamNo ph)) as [H2|H2];
        [right; eexists; split; [reflexivity|cbv iota; auto]|].
      unfold index.
      destruct (Z.ltb_spec (ParamNo ph - 1) 0); [lia|].
      destruct (Z.leb_spec (Z.of_nat (length args)) (ParamNo ph - 1)); [lia|].
      cbn [orb].
      destruct (lookup_lt_is_Some_2 args (Z.to_nat (ParamNo ph - 1)))
        as [arg ->]; [lia|]. left. eauto.
Qed.

Lemma index_app_l (args extra : list value) (i : Z) (arg : value) :
  index args i = Some arg -> index (args ++ extra) i = Some arg.
Proof.
  unfold index. rewrite length_app, Nat2Z.inj_add.
  destruct (Z.ltb_spec i 0); [discriminate|]. cbn [orb].
  destruct (Z.leb_spec (Z.of_nat (length args)) i); [discriminate|].
  destruct (Z.leb_spec (Z.of_nat (length args) + Z.of_nat (length extra)) i);
    [lia|].
  intros Hi. rewrite lookup_app_l by lia. exact Hi.
Qed.

Lemma argumentValue_app
    (ph : ASTNode) (args extra : list value) (cursor : Z) (r : value * Z) :
  argumentValue ph args cursor = Ok r ->
  argumentValue ph (args ++ extra) cursor = Ok r.
Proof.
  unfold argumentValue. destruct (Keys ph) as [keys|].
  - destruct (index args cursor) as [arg|] eqn:E; [|discriminate].
    now rewrite (index_app_l _ extra _ _ E).
  - destruct (negb (ParamNo ph =? 0)).
    + destruct (Z.ltb_spec (ParamNo ph) 1); [discriminate|]. cbn [orb].
      destruct (Z.ltb_spec (Z.of_nat (length args)) (ParamNo ph));
        [discriminate|].
      rewrite length_app, Nat2Z.inj_add.
      destruct (Z.ltb_spec (Z.of_nat (length args) + Z.of_nat (length extra))
                  (ParamNo ph)); [lia|].
      destruct (index args (ParamNo ph - 1)) as [arg|] eqn:E; [|discriminate].
      now rewrite (index_app_l _ extra _ _ E).
    + destruct (index args cursor) as [arg|] eqn:E; [|discriminate].
      now rewrite (index_app_l _ extra _ _ E).
Qed.

Lemma FormatAST_loop_app (lib : Lib) (extra : list value) (ast : AST) :
  forall (args : list value) (cursor : Z) (output out : string),
    run lib (FormatAST_loop ast args cursor output) = Ok out ->
    run lib (FormatAST_loop ast (args ++ extra) cursor output) = Ok out.
Proof.
  induction ast as [|n ast IH]; intros args cursor output out H; [exact H|].
  cbn [FormatAST_loop] in *.
  destruct (negb (String.eqb (Text n) "")); [now apply IH|].
  destruct (argumentValue n args cursor) as [[arg next]|e|msg] eqn:E;
    [|discriminate..].
  rewrite (argumentValue_app _ _ extra _ _ E).
  rewrite run_bind in *.
  destruct (run lib (formatPlaceholder n arg)) as [f|e|msg];
    [|discriminate..].
  now apply IH.
Qed.

(** X10. Arguments that no placeholder asks for are ignored: if
    formatting succeeds with some arguments, it succeeds with the same
    output when further arguments follow them. *)
Theorem surplus_arguments_ignored
    (lib : Lib) (ast : AST) (args extra : list value) (out : string) :
  run lib (FormatAST ast args) = Ok out ->
  run lib (FormatAST ast (args ++ extra)) = Ok out.
Proof. apply FormatAST_loop_app. Qed.

Lemma surplus_arguments_ignored_witness :
  run silent (FormatAST [node "%d" "" "" "" 0 "" "d"]
                ([VInt KInt 7] ++ [VBool true; VNil]))
  = Ok "7".
Proof.
  exact (surplus_arguments_ignored silent [node "%d" "" "" "" 0 "" "d"]
           [VInt KInt 7] [VBool true; VNil] "7" eq_refl).
Defined.

Lemma FormatAST_loop_named (lib : Lib) (a : value) (rest : list value)
    (ast : AST) :
  forall output,
    Forall named_or_text ast ->
    run lib (FormatAST_loop ast (a :: rest) 0 output)
    = run lib (FormatAST_loop ast [a] 0 output).
Proof.
  induction ast as [|n ast IH]; intros output HF; [reflexivity|].
  inversion HF as [|n' ast' Hn HF']; subst.
  cbn [FormatAST_loop].
  destruct (String.eqb_spec (Text n) "") as [Et|_]; cbn [negb];
    [|now apply IH].
  destruct Hn as [Hn|Hn]; [contradiction|].
  unfold argumentValue. destruct (Keys n) as [keys|]; [|contradiction].
  change (index (a :: rest) 0) with (Some a).
  change (index [a] 0) with (Some a). cbv beta iota.
  destruct (walk keys keys a) as [arg|e|msg]; [|reflexivity..].
  rewrite !run_bind.
  destruct (run lib (formatPlaceholder n arg)); [|reflexivity..].
  now apply IH.
Qed.

(** X11. Named placeholders all read the first argument: when every
    placeholder of the AST is named, the arguments after the first have
    no effect on the result. *)
Theorem named_read_first_argument
    (lib : Lib) (ast : AST) (a : value) (rest : list value) :
  Forall named_or_text ast ->
  run lib (FormatAST ast (a :: rest)) = run lib (FormatAST ast [a]).
Proof. apply FormatAST_loop_named. Qed.

Lemma named_read_first_argument_witness :
  run silent (FormatAST [named_node "%(n)d" ["n"] "d"]
                [VMap (<["n" := VInt KInt 1]> ∅); VInt KInt 2])
  = run silent (FormatAST [named_node "%(n)d" ["n"] "d"]
                [VMap (<["n" := VInt KInt 1]> ∅)]).
Proof.
  apply (named_read_first_argument silent [named_node "%(n)d" ["n"] "d"]).
  constructor; [right; discriminate|constructor].
Defined.

Lemma FormatAST_loop_no_arguments (lib : Lib) (ast : AST) :
  forall output,
    Exists (fun n => Text n = "") ast ->
    exists e,
      run lib (FormatAST_loop ast [] 0 output) = Err e /\
      (e = EImplicitIndex 1 \/ exists n, e = EPositionalIndex n).
Proof.
  induction ast as [|n ast IH]; intros output HE; [now inversion HE|].
  cbn [FormatAST_loop].
  destruct (String.eqb_spec (Text n) "") as [Et|Nt]; cbn [negb].
  - unfold argumentValue. change (index [] 0) with (@None value).
    destruct (Keys n); [eexists; split; [reflexivity|now left]|].
    destruct (Z.eqb_spec (ParamNo n) 0) as [E0|N0]; cbn [negb];
      [eexists; split; [reflexivity|now left]|].
    cbn [length]. change (Z.of_nat 0) with 0.
    destruct (Z.ltb_spec (ParamNo n) 1); cbn [orb];
      [eexists; split; [reflexivity|right; eauto]|].
    destruct (Z.ltb_spec 0 (ParamNo n)); [|lia].
    eexists; split; [reflexivity|right; eauto].
  - apply IH. inversion HE; subst; [contradiction|assumption].
Qed.

(** X12. Without arguments every AST that has a placeholder fails, with
    an error of the argument index (never a panic): the first placeholder
    finds no argument to read. *)
Theorem no_arguments_fail (lib : Lib) (ast : AST) :
  Exists (fun n => Text n = "") ast ->
  exists e,
    run lib (FormatAST ast []) = Err e /\
    (e = EImplicitIndex 1 \/ exists n, e = EPositionalIndex n).
Proof. apply FormatAST_loop_no_arguments. Qed.

Lemma no_arguments_fail_witness :
  exists e,
    run silent (FormatAST [text_node "x"; node "%s" "" "" "" 0 "" "s"] [])
    = Err e /\
    (e = EImplicitIndex 1 \/ exists n, e = EPositionalIndex n).
Proof.
  apply (no_arguments_fail silent).
  apply Exists_cons_tl, Exists_cons_hd. reflexivity.
Defined.

(** ** Literal text *)

Lemma parse_loop_mono (fuel : nat) :
  forall format ast argNames r,
    parse_loop fuel format ast argNames = Some r ->
    parse_loop (S fuel) format ast argNames = Some r.
Proof.
  induction fuel as [|fuel IH]; intros format ast a r H; [discriminate|].
  remember (S fuel) as g eqn:Eg. cbn [parse_loop]. cbv zeta.
  rewrite Eg in H. cbn [parse_loop] in H. cbv zeta in H. revert H.
  destruct (negb (0 <? len format)); [auto|].
  destruct (reText_Find format) as [text|].
  { destruct (len format <=? len text); [auto|]. subst g. apply IH. }
  destruct (reModulo_Find format) as [text|].
  { destruct (len format <=? len text); [auto|]. subst g. apply IH. }
  destruct (rePlaceholder_Find format) as [m|]; [|auto].
  destruct (placeholder_node m) as [[n|e|msg]|]; auto.
  destruct (Z.lor _ _ =? 3); [auto|].
  destruct (len format <=? len (m0 m)); [auto|]. subst g. apply IH.
Qed.

Lemma parse_loop_le (f f' : nat) :
  (f <= f')%nat ->
  forall format ast argNames r,
    parse_loop f format ast argNames = Some r ->
    parse_loop f' format ast argNames = Some r.
Proof.
  induction 1 as [|f' Hle IH]; intros format ast a r H; [exact H|].
  apply parse_loop_mono, IH, H.
Qed.

(** The result does not depend on the fuel, once there is enough. *)
Lemma parse_loop_enough (f f' : nat) (format : string) (ast : AST) (a : Z) :
  (String.length format < f)%nat -> (String.length format < f')%nat ->
  parse_loop f format ast a = parse_loop f' format ast a.
Proof.
  intros Hf Hf'.
  assert (T : forall g, (String.length format < g)%nat ->
                        exists r, parse_loop g format ast a = Some r).
  { intros g Hg.
    destruct (parse_loop_outcome g format ast a Hg) as [[x ->]|(e & -> & _)];
      eauto. }
  destruct (Nat.le_ge_cases f f') as [Hle|Hle].
  - destruct (T f Hf) as [r Hr]. rewrite Hr. symmetry.
    exact (parse_loop_le _ _ Hle _ _ _ _ Hr).
  - destruct (T f' Hf') as [r Hr]. rewrite Hr.
    exact (parse_loop_le _ _ Hle _ _ _ _ Hr).
Qed.

(** The nodes gathered so far are passed through. *)
Lemma parse_loop_prefix (fuel : nat) :
  forall format (pre ast : AST) argNames,
    parse_loop fuel format (pre ++ ast)%list argNames
    = match parse_loop fuel format ast argNames with
      | Some (Ok ast') => Some (Ok (pre ++ ast')%list)
      | r => r
      end.
Proof.
  induction fuel as [|fuel IH]; intros format pre ast a; [reflexivity|].
  cbn [parse_loop]. cbv zeta.
  destruct (negb (0 <? len format)); [reflexivity|].
  destruct (reText_Find format) as [text|].
  { destruct (len format <=? len text); rewrite <- app_assoc;
      [reflexivity|apply IH]. }
  destruct (reModulo_Find format) as [text|].
  { destruct (len format <=? len text); rewrite <- app_assoc;
      [reflexivity|apply IH]. }
  destruct (rePlaceholder_Find format) as [m|]; [|reflexivity].
  destruct (placeholder_node m) as [[n|e|msg]|]; try reflexivity.
  destruct (Z.lor _ _ =? 3); [reflexivity|].
  destruct (len format <=? len (m0 m)); rewrite <- app_assoc;
    [reflexivity|apply IH].
Qed.

Lemma span_escape (tail : string) :
  (tail = "" \/ exists t, tail = String "%" t) ->
  forall s,
    span not_percent (escape s ++ tail)
    = (fst (span not_percent s), escape (snd (span not_percent s)) ++ tail).
Proof.
  intros Ht s. induction s as [|c s IH].
  - cbn [escape span fst snd]. rewrite app_nil_s.
    destruct Ht as [->|[t ->]]; reflexivity.
  - cbn [escape span].
    destruct (Ascii.eqb_spec c "%") as [->|Hc].
    + reflexivity.
    + assert (Hnp : not_percent c = true).
      { unfold not_percent. now destruct (Ascii.eqb_spec c "%"). }
      rewrite Hnp, app_cons_s. cbn [span]. rewrite Hnp, IH.
      now destruct (span not_percent s) as [a b].
Qed.

Lemma escape_nil (s : string) : escape s = "" -> s = "".
Proof.
  destruct s as [|c s]; [reflexivity|]. cbn [escape].
  now destruct (Ascii.eqb c "%").
Qed.

Lemma app_eq_nil_s (a b : string) : a ++ b = "" -> a = "" /\ b = "".
Proof. destruct a; [now rewrite app_nil_s|discriminate]. Qed.

(** Parsing an escaped text followed by [tail]: the text becomes
    literals, and the loop goes on at [tail] as if it had started
    there. *)
Lemma parse_escape_tail (tail : string) :
  (tail = "" \/ exists t, tail = String "%" t) ->
  forall (fuel : nat) (s : string) (ast : AST) (a : Z),
    (String.length (escape s ++ tail) < fuel)%nat ->
    exists texts,
      Forall (fun t => t <> "") texts /\ texts_of texts = s /\
      parse_loop fuel (escape s ++ tail) ast a
      = parse_loop fuel tail (ast ++ map text_node texts)%list a.
Proof.
  intros Ht. induction fuel as [|fuel IH]; intros s ast a Hlt; [lia|].
  destruct s as [|c s'].
  { exists []. split; [constructor|]. split; [reflexivity|].
    cbn [escape map]. now rewrite app_nil_s, app_nil_r. }
  set (format := escape (String c s') ++ tail) in *.
  assert (Hnext : forall w t s2,
             format = w ++ escape s2 ++ tail -> t <> "" -> 1 <= len w ->
             t ++ s2 = String c s' ->
             exists texts,
               Forall (fun t => t <> "") texts /\
               texts_of texts = String c s' /\
               (if len format <=? len w
                then Some (Ok (ast ++ [text_node t])%list)
                else parse_loop fuel (drop (Z.to_nat (len w)) format)
                       (ast ++ [text_node t])%list a)
               = parse_loop (S fuel) tail (ast ++ map text_node texts)%list a).
  { intros w t s2 Ef Hne Hw Es.
    destruct (Z.leb_spec (len format) (len w)) as [Hle|Hgt].
    - rewrite Ef in Hle. apply len_app_le, app_eq_nil_s in Hle.
      destruct Hle as [E2 ->]. apply escape_nil in E2. subst s2.
      exists [t]. split; [now constructor|].
      split; [cbn [texts_of fold_right]; exact Es|reflexivity].
    - assert (Ed : drop (Z.to_nat (len w)) format = escape s2 ++ tail).
      { rewrite Z_to_nat_len, Ef. apply drop_app_s. }
      assert (Hsh : (String.length (escape s2 ++ tail) < fuel)%nat).
      { pose proof (step_shorter format (len w) Hw) as Hs.
        destruct (Z.leb_spec (len format) (len w)); [lia|].
        specialize (Hs eq_refl). rewrite Ed in Hs. lia. }
      rewrite Ed.
      destruct (IH s2 (ast ++ [text_node t])%list a Hsh)
        as (texts & HF & Et & ->).
      exists (t :: texts). split; [now constructor|].
      split; [cbn [texts_of fold_right]; fold (texts_of texts);
              now rewrite Et|].
      rewrite <- app_assoc. cbn [map app].
      rewrite length_app_s in Hsh. apply parse_loop_enough; lia. }
  assert (Hpos : negb (0 <? len format) = false).
  { assert (1 <= len format);
      [|now destruct (Z.ltb_spec 0 (len format)); [|lia]].
    subst format. cbn [escape].
    destruct (Ascii.eqb c "%"); rewrite app_cons_s, len_cons;
      match goal with |- 1 <= 1 + len ?x => pose proof (len_nonneg x) end;
      lia. }
  cbn [parse_loop]. cbv zeta. fold format. rewrite Hpos.
  pose proof (span_escape tail Ht (String c s')) as Hspan.
  fold format in Hspan.
  unfold reText_Find. fold not_percent. rewrite Hspan. cbn [fst].
  destruct (span not_percent (String c s')) as [w s2] eqn:Es.
  cbn [fst snd] in *.
  pose proof (span_app _ _ _ _ Es) as Esplit.
  pose proof (span_app _ _ _ _ Hspan) as Ef.
  destruct w as [|d w].
  - assert (Ec : c = "%"%char).
    { cbn [span] in Es. unfold not_percent at 1 in Es.
      destruct (Ascii.eqb_spec c "%") as [->|_]; cbn [negb] in Es.
      - reflexivity.
      - destruct (span not_percent s'); discriminate. }
    assert (Ef' : format = "%%" ++ escape s' ++ tail)
      by (subst format c; reflexivity).
    assert (EM : reModulo_Find format = Some "%%")
      by (rewrite Ef'; reflexivity).
    rewrite EM.
    apply (Hnext "%%" "%" s'); [exact Ef'|discriminate|now vm_compute|].
    now rewrite Ec.
  - apply (Hnext (String d w) (String d w) s2);
      [exact Ef|discriminate| |now symmetry].
    rewrite len_cons. pose proof (len_nonneg w). lia.
Qed.

Lemma Parse_nil : Parse "" = Ok [].
Proof. reflexivity. Qed.

(** An escaped text and what follows it, parsed together. *)
Lemma Parse_escape (s tail : string) :
  (tail = "" \/ exists t, tail = String "%" t) ->
  exists texts,
    Forall (fun t => t <> "") texts /\ texts_of texts = s /\
    Parse (escape s ++ tail)
    = match Parse tail with
      | Ok ast => Ok (map text_node texts ++ ast)%list
      | r => r
      end.
Proof.
  intros Ht.
  destruct (parse_escape_tail tail Ht (S (String.length (escape s ++ tail)))
              s [] 0 ltac:(lia)) as (texts & HF & Es & E).
  exists texts. split; [exact HF|]. split; [exact Es|].
  unfold Parse. rewrite E. cbn [app].
  rewrite <- (app_nil_r (map text_node texts)), parse_loop_prefix.
  rewrite (parse_loop_enough _ (S (String.length tail)) tail [] 0)
    by (rewrite ?length_app_s; lia).
  destruct (parse_loop_outcome (S (String.length tail)) tail [] 0 ltac:(lia))
    as [[ast ->]|(e & -> & _)]; [|reflexivity].
  now rewrite app_nil_r.
Qed.

(** X13. Literal text before a placeholder does not change how the rest
    is parsed.  For a text [s] written with its percent signs doubled and
    followed by [tail], the end of the format string or a percent sign on,
    [Parse] gives the literals of [s], whose texts make up [s], and then
    the nodes of [tail]; it fails as parsing [tail] alone fails. *)
Theorem Parse_literal_prefix (s tail : string) :
  (tail = "" \/ exists t, tail = String "%" t) ->
  exists texts,
    Forall (fun t => t <> "") texts /\ texts_of texts = s /\
    Parse (escape s ++ tail)
    = match Parse tail with
      | Ok ast => Ok (map text_node texts ++ ast)%list
      | r => r
      end.
Proof. exact (Parse_escape s tail). Qed.

Lemma Parse_literal_prefix_witness :
  exists texts,
    Forall (fun t => t <> "") texts /\ texts_of texts = "100% of " /\
    Parse (escape "100% of " ++ "%") = Err EUnexpected.
Proof.
  destruct (Parse_literal_prefix "100% of " "%") as (texts & HF & Es & E);
    [right; now exists ""|].
  exists texts. split; [exact HF|]. split; [exact Es|exact E].
Defined.

Lemma FormatAST_loop_texts (texts : list string) :
  forall (ast : AST) (args : list value) (cursor : Z) (output : string),
    Forall (fun t => t <> "") texts ->
    FormatAST_loop (map text_node texts ++ ast)%list args cursor output
    = FormatAST_loop ast args cursor (output ++ texts_of texts).
Proof.
  induction texts as [|t texts IH]; intros ast args cursor output HF.
  - cbn [map app texts_of fold_right]. now rewrite app_nil_r_s.
  - inversion HF as [|t' texts' Ht HF']; subst.
    cbn [map app FormatAST_loop text_node Text].
    destruct (String.eqb_spec t "") as [|_]; [contradiction|]. cbn [negb].
    rewrite IH by exact HF'. cbn [texts_of fold_right].
    fold (texts_of texts). now rewrite app_assoc_s.
Qed.

Lemma FormatAST_loop_output (lib : Lib) (ast : AST) :
  forall (args : list value) (cursor : Z) (o o' : string),
    run lib (FormatAST_loop ast args cursor (o ++ o'))
    = prefixed o (run lib (FormatAST_loop ast args cursor o')).
Proof.
  induction ast as [|n ast IH]; intros args cursor o o'; [reflexivity|].
  cbn [FormatAST_loop].
  destruct (negb (String.eqb (Text n) "")).
  - rewrite app_assoc_s. apply IH.
  - destruct (argumentValue n args cursor) as [[arg next]|e|msg];
      [|reflexivity..].
    rewrite !run_bind.
    destruct (run lib (formatPlaceholder n arg)) as [f|e|msg];
      [|reflexivity..].
    rewrite app_assoc_s. apply IH.
Qed.

Lemma escape_literal (s : string) : all not_percent s = true -> escape s = s.
Proof.
  induction s as [|c s IH]; [reflexivity|]. cbn [all escape].
  unfold not_percent at 1. destruct (Ascii.eqb c "%"); [discriminate|].
  cbn [negb andb]. intros H. now rewrite IH.
Qed.

(** X14. Every text formats to itself once its percent signs are
    doubled, whatever the arguments; a text without a percent sign is its
    own format string. *)
Theorem Format_literal (s : string) (args : list value) :
  Format (escape s) args = Ret (Ok s) /\
  (all not_percent s = true -> Format s args = Ret (Ok s)).
Proof.
  assert (E : Format (escape s) args = Ret (Ok s)).
  { destruct (Parse_escape s "" ltac:(now left))
      as (texts & HF & Es & E).
    rewrite app_nil_r_s, Parse_nil in E. unfold Format. rewrite E.
    unfold FormatAST. rewrite FormatAST_loop_texts by exact HF.
    cbn [FormatAST_loop]. now rewrite app_nil_s, Es. }
  split; [exact E|]. intros H. now rewrite <- (escape_literal s H) at 1.
Qed.

Lemma Format_literal_witness :
  Format "100%% sure" [VInt KInt 1] = Ret (Ok "100% sure") /\
  Format "no placeholder" [] = Ret (Ok "no placeholder").
Proof.
  split.
  - exact (proj1 (Format_literal "100% sure" [VInt KInt 1])).
  - exact (proj2 (Format_literal "no placeholder" []) eq_refl).
Defined.

(** X15. Literal text before the placeholders is copied to the output
    and has no other effect: formatting an escaped text followed by
    [tail] gives the text followed by what formatting [tail] gives, and
    fails as formatting [tail] fails. *)
Theorem Format_literal_prefix
    (lib : Lib) (s tail : string) (args : list value) :
  (tail = "" \/ exists t, tail = String "%" t) ->
  run lib (Format (escape s ++ tail) args)
  = prefixed s (run lib (Format tail args)).
Proof.
  intros Ht. destruct (Parse_escape s tail Ht) as (texts & HF & Es & E).
  unfold Format. rewrite E.
  destruct (Parse tail) as [ast|e|msg]; [|reflexivity..].
  unfold FormatAST. rewrite FormatAST_loop_texts by exact HF.
  rewrite app_nil_s, Es, <- (app_nil_r_s s) at 1.
  apply FormatAST_loop_output.
Qed.

Lemma Format_literal_prefix_witness :
  run silent (Format (escape "5% of " ++ "%d") [VInt KInt 40])
  = Ok "5% of 40".
Proof.
  rewrite (Format_literal_prefix silent "5% of " "%d" [VInt KInt 40]);
    [reflexivity|right; now exists "d"].
Defined.

(** ** What each type of placeholder renders *)

Lemma typeName_range (v : value) :
  In (typeName v)
    ["null"; "array"; "function"; "boolean"; "string"; "regexp"; "number";
     "object"].
Proof.
  unfold typeName.
  destruct v as [|b|k z|f|f|s|m|ty str c|vs|w|[isnil| | |] ty str];
    cbn [In]; try tauto;
    try (destruct (String.eqb ty "*regexp.Regexp"); [tauto|]);
    destruct (negb (Number.IsNaN _)); tauto.
Qed.

(** X16. A placeholder of type [T] never fails and never calls its
    argument: it renders the kind of the argument as it is, one of the
    eight names of [typeName], padded without a sign. *)
Theorem type_placeholder (ph : ASTNode) (v : value) :
  Type_ ph = "T" ->
  formatPlaceholder ph v
  = Ret (Ok (alignedPad (typeName v) (Width ph) (Pad ph) (Align ph) "")) /\
  In (typeName v)
    ["null"; "array"; "function"; "boolean"; "string"; "regexp"; "number";
     "object"].
Proof.
  intros HT. split; [|apply typeName_range].
  unfold formatPlaceholder, finish. rewrite HT. reflexivity.
Qed.

Lemma type_placeholder_witness :
  formatPlaceholder (node "%8T" "" "" "" 8 "" "T")
    (VFunc "func() int" "0x47b0e0" None)
  = Ret (Ok "function").
Proof.
  exact (proj1 (type_placeholder (node "%8T" "" "" "" 8 "" "T")
                  (VFunc "func() int" "0x47b0e0" None) eq_refl)).
Defined.

(** X17. A placeholder of type [t] renders [true] or [false] as
    [coerceBoolean] decides, cut to the precision if there is one, and
    pads it without a sign.  It makes no check of the argument and fails
    only on a precision too large for an [int]. *)
Theorem boolean_placeholder (ph : ASTNode) (v : value) :
  Type_ ph = "t" ->
  isFunc v = false ->
  all is_digit (Precision ph) = true ->
  let text := if coerceBoolean v then "true" else "false" in
  let padded fv := Ok (alignedPad fv (Width ph) (Pad ph) (Align ph) "") in
  formatPlaceholder ph v
  = Ret (if String.eqb (Precision ph) "" then padded text
         else if digits_value 0 (Precision ph) <? 2 ^ 63
              then padded (trim text (digits_value 0 (Precision ph)))
              else Err (EFormat v (Placeholder ph)
                          (CausePrecision (Precision ph) ErrRange))).
Proof.
  intros HT HF HD. cbv zeta.
  unfold formatPlaceholder. rewrite HT, HF, andb_false_r.
  change (reNumericArg_Match "t") with false. cbn [andb]. cbv iota.
  change (Ascii.eqb "t" "c") with false.
  change (mem "t" "bdiuefgoxX") with false.
  change (Ascii.eqb "t" "j") with false.
  change (Ascii.eqb "t" "s") with false.
  change (Ascii.eqb "t" "t") with true. cbv iota.
  unfold formatWithPrecision.
  destruct (String.eqb_spec (Precision ph) "") as [E|NE].
  - cbn [app_nil_s]. change ("%" ++ "t") with "%t".
    unfold Sprintf. cbn [directive]. change (Ascii.eqb "t" "t") with true.
    cbv iota. cbn [bind]. unfold finish. rewrite HT.
    change (reNumber_Match "t") with false. cbv iota.
    now destruct (coerceBoolean v).
  - change (String.eqb "t" "t") with true. cbv iota.
    destruct (Atoi_digits _ NE HD) as [E|[E R]]; rewrite E.
    + assert (Hbig : 2 ^ 63 <= digits_value 0 (Precision ph)).
      { revert E. unfold Atoi, ParseInt.
        destruct (Precision ph) as [|c p]; [contradiction|].
        assert (Hc : is_digit c = true)
          by (cbn [all] in HD; now apply andb_true_iff in HD).
        destruct (Ascii.eqb_spec c "-") as [->|_]; [discriminate|].
        destruct (Ascii.eqb_spec c "+") as [->|_]; [discriminate|].
        cbn [orb negb andb]. rewrite HD. cbn [negb orb].
        change (String.eqb (String c p) "") with false. cbv iota.
        destruct (Z.leb_spec (2 ^ 63) (digits_value 0 (String c p)));
          [auto|discriminate]. }
      destruct (Z.ltb_spec (digits_value 0 (Precision ph)) (2 ^ 63)); [lia|].
      reflexivity.
    + destruct (Z.ltb_spec (digits_value 0 (Precision ph)) (2 ^ 63)); [|lia].
      cbn [bind]. unfold finish. rewrite HT.
      change (reNumber_Match "t") with false. cbv iota.
      cbn [Sprint]. reflexivity.
Qed.

Lemma boolean_placeholder_witness :
  formatPlaceholder (node "%.2t" "" "" "" 0 "2" "t") (VString "x")
  = Ret (Ok "tr").
Proof.
  exact (boolean_placeholder (node "%.2t" "" "" "" 0 "2" "t") (VString "x")
           eq_refl eq_refl eq_refl).
Defined.

(** X18. A placeholder of type [j] returns what the JSON encoder gives,
    without sign or padding: its width is the number of spaces of the
    indentation, and no width or a width of zero asks for the compact
    encoding.  An error of the encoder is the error of the placeholder. *)
Theorem json_placeholder (lib : Lib) (ph : ASTNode) (v : value) :
  Type_ ph = "j" ->
  isFunc v = false ->
  run lib (formatPlaceholder ph v)
  = match lib_Marshal lib v
            (if 0 <? Width ph then Some (Repeat " " (Width ph)) else None)
    with
    | inl js => Ok js
    | inr msg => Err (EFormat v (Placeholder ph) (CauseJSON msg))
    end.
Proof.
  intros HT HF. unfold formatPlaceholder. rewrite HT, HF, andb_false_r.
  change (reNumericArg_Match "j") with false. cbn [andb]. cbv iota.
  change (Ascii.eqb "j" "c") with false.
  change (mem "j" "bdiuefgoxX") with false.
  change (Ascii.eqb "j" "j") with true. cbv iota.
  unfold formatJSON. cbn [bind run].
  now destruct (lib_Marshal lib v _).
Qed.

Lemma json_placeholder_witness :
  run {| lib_Sprintf := fun _ _ => ""; lib_Marshal := fun _ _ => inl "{}" |}
    (formatPlaceholder (node "%10j" "" "" "" 10 "" "j") (VMap ∅))
  = Ok "{}".
Proof.
  exact (json_placeholder
           {| lib_Sprintf := fun _ _ => ""; lib_Marshal := fun _ _ => inl "{}" |}
           (node "%10j" "" "" "" 10 "" "j") (VMap ∅) eq_refl eq_refl).
Defined.
(** ** Numbers *)

(** X19. The three views of a number agree: [IsNaN] is false exactly
    when [Float64] succeeds, and a value that is not a number is not
    positive. *)
Theorem IsNaN_Float64 (v : value) :
  (Number.IsNaN v = false <-> exists f, Number.Float64 v = Some f) /\
  (Number.IsNaN v = true -> Number.IsPositive v = false).
Proof.
  unfold Number.IsNaN, Number.IsPositive.
  destruct v as [|b|k z|f|f|s|m|ty str c|vs|w|o ty str];
    try (split; [split; [discriminate|intros [f' H]; discriminate]
                |reflexivity]);
    try (split; [split; [eauto|reflexivity]|discriminate]).
  - destruct k;
      try (split; [split; [discriminate|intros [f' H]; discriminate]
                  |reflexivity]);
      (split; [split; [eauto|reflexivity]|discriminate]).
  - unfold Number.Float64. destruct (Float.ParseFloat s) as [e|f].
    + split; [split; [discriminate|intros [f' H]; discriminate]|reflexivity].
    + split; [split; [eauto|reflexivity]|discriminate].
Qed.

Lemma digits_loop_head (fuel : nat) :
  forall (n : Z) (acc : string),
    0 <= n ->
    exists d r, 0 <= d < 10 /\
      digits_loop (S fuel) false 10 n acc = String (chr (48 + d)) r.
Proof.
  induction fuel as [|fuel IH]; intros n acc Hn.
  - exists (n mod 10), acc. split; [apply Z.mod_pos_bound; lia|].
    cbn [digits_loop]. unfold digit_char.
    destruct (Z.ltb_spec (n mod 10) 10);
      [|pose proof (Z.mod_pos_bound n 10); lia].
    now destruct (n / 10 =? 0).
  - remember (S fuel) as g. cbn [digits_loop]. cbv zeta.
    destruct (n / 10 =? 0).
    + exists (n mod 10), acc. split; [apply Z.mod_pos_bound; lia|].
      unfold digit_char.
      now destruct (Z.ltb_spec (n mod 10) 10);
        [|pose proof (Z.mod_pos_bound n 10); lia].
    + subst g. apply IH. apply Z.div_pos; lia.
Qed.

Lemma reSign_remove_digits (n : Z) :
  0 <= n -> reSign_remove (FormatUint false 10 n) = FormatUint false 10 n.
Proof.
  intros Hn. unfold FormatUint.
  destruct (digits_loop_head (Z.to_nat (Z.log2 n)) n "" Hn) as (d & r & Hd & ->).
  unfold reSign_remove.
  assert (E : Ascii.eqb (chr (48 + d)) "+" || Ascii.eqb (chr (48 + d)) "-"
              = false).
  { assert (Hc : d = 0 \/ d = 1 \/ d = 2 \/ d = 3 \/ d = 4 \/ d = 5 \/ d = 6
                 \/ d = 7 \/ d = 8 \/ d = 9) by lia.
    repeat (destruct Hc as [->|Hc]; [reflexivity|]). now subst. }
  now rewrite E.
Qed.

Lemma to_signed_id (z : Z) : - 2 ^ 63 <= z < 2 ^ 63 -> to_signed 64 z = z.
Proof.
  intros Hz. unfold to_signed. change (64 - 1) with 63.
  change (2 ^ 64) with 18446744073709551616.
  change (2 ^ 63) with 9223372036854775808 in *.
  rewrite Z.mod_small by lia. lia.
Qed.

(** X20. A placeholder of type [d] or [i] without precision renders a
    signed integer as its sign, then the decimal digits of its magnitude,
    with the padding between the two when it is made of zeros and before
    the sign otherwise: the sign is a minus sign for a negative number,
    and a plus sign for any other when the placeholder has the sign
    flag. *)
Theorem decimal_placeholder (ph : ASTNode) (k : ikind) (z : Z) (t : ascii) :
  Type_ ph = String t "" ->
  t = "d"%char \/ t = "i"%char ->
  Precision ph = "" ->
  k = KInt \/ k = KInt8 \/ k = KInt32 \/ k = KInt64 ->
  - 2 ^ 63 <= z < 2 ^ 63 ->
  formatPlaceholder ph (VInt k z)
  = Ret (Ok (alignedPad (FormatUint false 10 (Z.abs z))
               (Width ph) (Pad ph) (Align ph)
               (if z <? 0 then "-"
                else if String.eqb (Sign ph) "" then "" else "+"))).
Proof.
  intros HT Ht HP Hk Hz.
  assert (HI : Number.Int64 (VInt k z) = Some z).
  { unfold Number.Int64.
    destruct Hk as [ -> | [ -> | [ -> | -> ] ] ];
      now rewrite (to_signed_id z Hz). }
  assert (HN : Number.IsNaN (VInt k z) = false)
    by (destruct Hk as [ -> | [ -> | [ -> | -> ] ] ]; reflexivity).
  assert (HF : Number.Format (VInt k z) None t = Ret (FormatInt false 10 z)).
  { unfold Number.Format.
    destruct Ht as [ -> | -> ].
    - change (Ascii.eqb "d" "b") with false.
      change (Ascii.eqb "d" "u") with false.
      change (Ascii.eqb "d" "i" || Ascii.eqb "d" "d") with true.
      cbv iota. now rewrite HI.
    - change (Ascii.eqb "i" "b") with false.
      change (Ascii.eqb "i" "u") with false.
      change (Ascii.eqb "i" "i" || Ascii.eqb "i" "d") with true.
      cbv iota. now rewrite HI. }
  assert (Hm : mem t "bdiuefgoxX" = true)
    by (destruct Ht as [ -> | -> ]; reflexivity).
  rewrite (formatPlaceholder_number ph _ t _ HT HP Hm HN HF).
  unfold finish. rewrite HT.
  assert (HR : reNumber_Match (String t "") = true)
    by (destruct Ht as [ -> | -> ]; reflexivity).
  rewrite HR, (IsPositive_int k z Hk). unfold FormatInt.
  destruct (Z.ltb_spec z 0) as [Hneg|Hpos].
  - destruct (Z.leb_spec 0 z); [lia|]. cbn [negb orb]. unfold sign.
    cbn [reSign_remove].
    change (Ascii.eqb "-" "+" || Ascii.eqb "-" "-") with true.
    cbv iota. now rewrite Z.abs_neq by lia.
  - destruct (Z.leb_spec 0 z); [|lia]. cbn [negb orb]. unfold sign.
    rewrite Z.abs_eq by lia.
    destruct (String.eqb (Sign ph) ""); cbn [negb]; [reflexivity|].
    now rewrite reSign_remove_digits.
Qed.

Lemma decimal_placeholder_witness :
  formatPlaceholder (node "%+06d" "+" "0" "" 6 "" "d") (VInt KInt 42)
  = Ret (Ok "+00042").
Proof.
  refine (decimal_placeholder (node "%+06d" "+" "0" "" 6 "" "d") KInt 42 "d"
            eq_refl (or_introl eq_refl) eq_refl (or_introl eq_refl) _).
  split; [discriminate|reflexivity].
Defined.

(** ** When rendering panics *)




(** ** Key paths *)

Lemma stops_dot (x : string) : ident_char true (String "." x) = None.
Proof. destruct x as [|c2 [|c3 s3]]; reflexivity. Qed.

Lemma stops_bracket (x : string) : ident_char true (String "[" x) = None.
Proof. destruct x as [|c2 [|c3 s3]]; reflexivity. Qed.

Lemma segments_stop (segs : list segment) :
  ident_char true (texts_of (map segment_text segs)) = None.
Proof.
  destruct segs as [|[k|d] segs]; [reflexivity| |];
    cbn [map texts_of fold_right segment_text];
    rewrite !app_cons_s; [apply stops_dot|apply stops_bracket].
Qed.

Lemma ident_tail_run (r : string) :
  forall (rest : string) (fuel : nat),
    all ident_byte r = true -> ident_char true rest = None ->
    (String.length r <= fuel)%nat ->
    ident_tail fuel (r ++ rest) = (r, rest).
Proof.
  induction r as [|c r IH]; intros rest fuel Hr Hrest Hfuel.
  - rewrite app_nil_s. destruct fuel; [reflexivity|].
    cbn [ident_tail]. now rewrite Hrest.
  - destruct fuel as [|fuel]; [cbn in Hfuel; lia|].
    cbn [all] in Hr. apply andb_true_iff in Hr as [Hc Hr].
    rewrite app_cons_s. cbn [ident_tail ident_char].
    unfold ident_byte in Hc. cbn [andb]. rewrite Hc.
    rewrite (IH rest fuel Hr Hrest) by (cbn in Hfuel; lia).
    reflexivity.
Qed.

Lemma ident_run (k rest : string) :
  is_ident k = true -> ident_char true rest = None ->
  ident (k ++ rest) = Some (k, rest).
Proof.
  intros Hk Hrest. destruct k as [|c r]; [discriminate|].
  cbn [is_ident] in Hk. apply andb_true_iff in Hk as [Hc Hr].
  unfold ident. rewrite app_cons_s. cbn [ident_char]. rewrite Hc. cbn [orb].
  rewrite (ident_tail_run r rest _ Hr Hrest)
    by (rewrite length_app_s; lia).
  reflexivity.
Qed.

Lemma span_run (p : ascii -> bool) (a : string) (c : ascii) (rest : string) :
  all p a = true -> p c = false ->
  span p (a ++ String c rest) = (a, String c rest).
Proof.
  intros Ha Hc. induction a as [|d a IH].
  - rewrite app_nil_s. cbn [span]. now rewrite Hc.
  - cbn [all] in Ha. apply andb_true_iff in Ha as [Hd Ha].
    rewrite app_cons_s. cbn [span]. now rewrite Hd, (IH Ha).
Qed.

Lemma length_segments (segs : list segment) :
  (length segs <= String.length (texts_of (map segment_text segs)))%nat.
Proof.
  induction segs as [|s segs IH]; [cbn; lia|].
  cbn [map texts_of fold_right length]. fold (texts_of (map segment_text segs)).
  rewrite length_app_s.
  destruct s as [k|d]; cbn [segment_text]; rewrite app_cons_s;
    cbn [String.length]; lia.
Qed.

Lemma keys_loop_segments (segs : list segment) :
  forall (fuel : nat) (w : string) (keys : list string),
    forallb segment_ok segs = true ->
    (length segs < fuel)%nat ->
    keys_loop fuel (w ++ texts_of (map segment_text segs)) (String.length w)
      keys
    = Some (Ok (keys ++ flat_map segment_keys segs)%list).
Proof.
  induction segs as [|s segs IH]; intros fuel w keys Hok Hfuel;
    (destruct fuel as [|fuel]; [cbn in Hfuel; lia|]);
    cbn [keys_loop]; cbv zeta; rewrite drop_app_s.
  - cbn [map texts_of fold_right flat_map]. now rewrite app_nil_r.
  - cbn [forallb] in Hok. apply andb_true_iff in Hok as [Hs Hok].
    cbn [map texts_of fold_right flat_map].
    fold (texts_of (map segment_text segs)).
    cbn [length] in Hfuel.
    destruct s as [k|d]; cbn [segment_text segment_ok segment_keys] in *.
    + rewrite !app_cons_s, app_nil_s.
      change (String.eqb (String "." _) "") with false. cbv iota.
      cbn [reKeyAccess_Find].
      rewrite (ident_run k _ Hs (segments_stop segs)).
      rewrite (app_assoc keys [k]), <- (app_cons_s "." k).
      apply IH; [exact Hok|lia].
    + apply andb_true_iff in Hs as [Hne Hd].
      rewrite !app_cons_s, app_nil_s.
      change (String.eqb (String "[" _) "") with false. cbv iota.
      cbn [reKeyAccess_Find reIndexAccess_Find].
      rewrite app_assoc_s, app_cons_s, app_nil_s.
      rewrite (span_run is_digit d "]" _ Hd eq_refl).
      destruct d as [|c d]; [discriminate|].
      change (Ascii.eqb "]" "]") with true.
      cbn [app].
      replace (String "[" (String c d ++ String "]"
                             (texts_of (map segment_text segs))))
        with (("[" ++ String c d ++ "]") ++ texts_of (map segment_text segs))
        by (rewrite !app_assoc_s; reflexivity).
      apply IH; [exact Hok|lia].
Qed.

(** X22. The keys of a key path are its first key and the keys of its
    segments, in order; a segment that is an index in square brackets is
    accepted and contributes no key. *)
Theorem parse_keys_path (k : string) (segs : list segment) :
  is_ident k = true ->
  forallb segment_ok segs = true ->
  parse_keys (path_text k segs) = Some (Ok (path_keys k segs)).
Proof.
  intros Hk Hsegs. unfold parse_keys, path_text, reKey_Find.
  rewrite (ident_run k _ Hk (segments_stop segs)).
  apply (keys_loop_segments segs _ k [k] Hsegs).
  rewrite length_app_s. pose proof (length_segments segs). lia.
Qed.

Lemma parse_keys_path_witness :
  parse_keys "user.tags[0].name" = Some (Ok ["user"; "tags"; "name"]).
Proof.
  exact (parse_keys_path "user" [Key "tags"; Index "0"; Key "name"]
           eq_refl eq_refl).
Defined.

(** ** Arguments in order *)

Lemma index_middle (pre args : list value) (a : value) :
  index (pre ++ a :: args) (Z.of_nat (length pre)) = Some a.
Proof.
  unfold index. rewrite length_app. cbn [length].
  destruct (Z.ltb_spec (Z.of_nat (length pre)) 0); [lia|]. cbn [orb].
  destruct (Z.leb_spec (Z.of_nat (length pre + S (length args)))
              (Z.of_nat (length pre))); [lia|].
  rewrite Nat2Z.id. now rewrite list_lookup_middle.
Qed.

Lemma FormatAST_loop_in_order (lib : Lib) (phs : AST) :
  forall (pre args : list value) (outs : list string) (output : string),
    Forall (fun ph => Text ph = "" /\ implicit ph = true) phs ->
    Forall2 (fun pa out => run lib (formatPlaceholder pa.1 pa.2) = Ok out)
      (zip phs args) outs ->
    length phs = length args ->
    run lib (FormatAST_loop phs (pre ++ args) (Z.of_nat (length pre)) output)
    = Ok (output ++ texts_of outs).
Proof.
  induction phs as [|ph phs IH]; intros pre args outs output HI HF HL.
  - destruct args; [|discriminate]. inversion HF; subst.
    cbn [FormatAST_loop run texts_of fold_right]. now rewrite app_nil_r_s.
  - destruct args as [|a args]; [discriminate|].
    inversion HI as [|ph' phs' [Ht Himp] HI']; subst.
    cbn [zip zip_with] in HF. inversion HF as [|pa out l outs' Hout HF']; subst.
    cbn [fst snd] in Hout.
    cbn [FormatAST_loop]. rewrite Ht. change (String.eqb "" "") with true.
    cbn [negb]. unfold argumentValue. unfold implicit in Himp.
    destruct (Keys ph); [discriminate|]. rewrite Himp. cbn [negb].
    rewrite index_middle, run_bind, Hout.
    replace (pre ++ a :: args)%list with ((pre ++ [a]) ++ args)%list
      by now rewrite <- app_assoc.
    replace (Z.of_nat (length pre) + 1) with (Z.of_nat (length (pre ++ [a])%list))
      by (rewrite length_app; cbn [length]; lia).
    rewrite (IH (pre ++ [a])%list args outs' (output ++ out) HI' HF')
      by (cbn [length] in HL; lia).
    cbn [texts_of fold_right]. fold (texts_of outs').
    now rewrite app_assoc_s.
Qed.

(** X23. Placeholders that take the next argument take the arguments in
    order: when an AST is made of such placeholders, one for each
    argument, and each renders its own argument without error, the output
    is the renderings one after the other. *)
Theorem implicit_in_order
    (lib : Lib) (phs : AST) (args : list value) (outs : list string) :
  Forall (fun ph => Text ph = "" /\ implicit ph = true) phs ->
  Forall2 (fun pa out => run lib (formatPlaceholder pa.1 pa.2) = Ok out)
    (zip phs args) outs ->
  length phs = length args ->
  run lib (FormatAST phs args) = Ok (texts_of outs).
Proof.
  intros HI HF HL.
  exact (FormatAST_loop_in_order lib phs [] args outs "" HI HF HL).
Qed.

Lemma implicit_in_order_witness :
  run silent (FormatAST [node "%d" "" "" "" 0 "" "d"; node "%T" "" "" "" 0 "" "T"]
                [VInt KInt 7; VBool true])
  = Ok (texts_of ["7"; "boolean"]).
Proof.
  apply (implicit_in_order silent).
  - repeat constructor.
  - repeat constructor.
  - reflexivity.
Defined.

(** ** Numbers under the verbs of [Number.Format] *)

(** X24. Under the verb [e] the [Format] method of a number never runs
    into the panic of [trimExcessZerosFromExponent]: for every value that
    converts to a float, infinities and NaN included, it writes what the
    trimming returns. *)
Theorem exponent_trim_is_safe
    (v : value) (f64 : Float.float) (precision : option Z) :
  Number.Float64 v = Some f64 ->
  exists s,
    Number.trimExcessZerosFromExponent
      (Float.FormatFloat Float.binary64 f64 "e"
         (match precision with Some p => p | None => -1 end)) = Some s /\
    Number.Format v precision "e" = Ret s.
Proof.
  intros HF.
  destruct (trim_FormatFloat f64 (match precision with Some p => p | None => -1 end))
    as [s Hs].
  exists s. split; [exact Hs|].
  unfold Number.Format.
  change (Ascii.eqb "e" "b") with false.
  change (Ascii.eqb "e" "u") with false.
  change (Ascii.eqb "e" "i" || Ascii.eqb "e" "d") with false.
  change (Ascii.eqb "e" "e" || Ascii.eqb "e" "f" || Ascii.eqb "e" "g") with true.
  cbv iota. rewrite HF. cbv zeta.
  change (Ascii.eqb "e" "e") with true. cbv iota. now rewrite Hs.
Qed.

Lemma exponent_trim_is_safe_witness :
  exists s,
    Number.trimExcessZerosFromExponent
      (Float.FormatFloat Float.binary64 (S754_infinity false) "e" (-1))
    = Some s /\
    Number.Format (VFloat64 (S754_infinity false)) None "e" = Ret s.
Proof.
  exact (exponent_trim_is_safe (VFloat64 (S754_infinity false))
           (S754_infinity false) None eq_refl).
Defined.

(** X25. An integer verb on a text that is not an integer does not
    fail.  Under [u], [x], [X] and [o] without precision, a string that
    passed the check of numbers (or any string under [o], which is not
    checked) and that [strconv.ParseInt] refuses is rendered as [fmt]
    renders an operand its verb does not apply to, and padded. *)
Theorem integer_verb_on_text
    (ph : ASTNode) (s : string) (t : ascii) (e : NumError) :
  Type_ ph = String t "" ->
  Precision ph = "" ->
  mem t "uxXo" = true ->
  t = "o"%char \/ Number.IsNaN (VString s) = false ->
  ParseInt s = inl e ->
  formatPlaceholder ph (VString s)
  = Ret (Ok (alignedPad (badVerb t (VString s))
               (Width ph) (Pad ph) (Align ph) "")).
Proof.
  intros HT HP Ht HN HE.
  assert (HF : Number.Format (VString s) None t = Ret (badVerb t (VString s))).
  { unfold Number.Format, Number.Unsigned, Number.unsigned, Number.Int64.
    rewrite HE. mem_cases Ht t; reflexivity. }
  unfold formatPlaceholder. rewrite HT. cbn [isFunc]. rewrite andb_false_r.
  assert (Hcheck : reNumericArg_Match (String t "") && Number.IsNaN (VString s)
                   = false).
  { destruct HN as [ -> | -> ]; [reflexivity|apply andb_false_r]. }
  rewrite Hcheck.
  assert (Hc : Ascii.eqb t "c" = false) by (mem_cases Ht t; reflexivity).
  assert (Hm : mem t "bdiuefgoxX" = true) by (mem_cases Ht t; reflexivity).
  rewrite Hc, Hm. unfold formatWithPrecision. rewrite HP.
  change (String.eqb "" "") with true. cbv iota.
  assert (HS : Sprintf ("%" ++ String t "") (VNumber (VString s))
               = Ret (badVerb t (VString s))).
  { rewrite <- HF. unfold Sprintf. rewrite app_cons_s, app_nil_s.
    mem_cases Ht t; reflexivity. }
  rewrite HS. cbn [bind]. unfold finish.
  assert (HR : reNumber_Match (Type_ ph) = false)
    by (rewrite HT; mem_cases Ht t; reflexivity).
  now rewrite HR.
Qed.

Lemma integer_verb_on_text_witness :
  formatPlaceholder (node "%o" "" "" "" 0 "" "o") (VString "abc")
  = Ret (Ok "%!o(string=abc)").
Proof.
  exact (integer_verb_on_text (node "%o" "" "" "" 0 "" "o") "abc" "o" ErrSyntax
           eq_refl eq_refl eq_refl (or_introl eq_refl) eq_refl).
Defined.

(** ** Text and numbered arguments *)

(** X26. Under the types [s] and [v] an argument that is neither a
    function nor a [Number] is handed to [fmt] as it is, with the verb of
    the type and the precision of the placeholder if there is one; what
    [fmt] writes is padded without a sign.  No check is made of the
    argument and the placeholder does not fail. *)
Theorem text_placeholder
    (lib : Lib) (ph : ASTNode) (v : value) (t : ascii) :
  Type_ ph = String t "" ->
  t = "s"%char \/ t = "v"%char ->
  isFunc v = false ->
  (forall w, v <> VNumber w) ->
  run lib (formatPlaceholder ph v)
  = Ok (alignedPad
          (lib_Sprintf lib
             (if String.eqb (Precision ph) "" then "%" ++ String t ""
              else "%." ++ Precision ph ++ String t "") v)
          (Width ph) (Pad ph) (Align ph) "").
Proof.
  intros HT Ht HF HN.
  assert (HS : forall format, Sprintf format v = CallSprintf format v Ret
                              \/ exists c, directive format = Some (None, c)
                                           /\ Ascii.eqb c "t" = true).
  { intros format. unfold Sprintf.
    destruct (directive format) as [[[p|] c]|];
      destruct v as [|b|k z|f|f|s|m|ty str r|vs|w|o ty str]; auto;
      try (exfalso; eapply HN; reflexivity).
    destruct (Ascii.eqb c "t") eqn:E; [right; eauto|now left]. }
  assert (HS' : forall format,
             format = "%" ++ String t "" \/
             format = "%." ++ Precision ph ++ String t "" ->
             Sprintf format v = CallSprintf format v Ret).
  { intros format Hf. destruct (HS format) as [H|(c & Hd & Hc)]; [exact H|].
    exfalso. destruct Hf as [ -> | -> ].
    - rewrite app_cons_s, app_nil_s in Hd. cbn [directive] in Hd.
      destruct Ht as [ -> | -> ]; cbn in Hd; inversion Hd; subst; discriminate.
    - rewrite !app_cons_s, app_nil_s in Hd. cbn [directive] in Hd.
      destruct (Precision ph ++ String t "") as [|p0 rest];
        [inversion Hd; subst c; discriminate|].
      destruct (span is_digit (String p0 rest)) as [ds tl].
      destruct ds as [|d ds], tl as [|c' [|c'' tl]]; try discriminate.
      destruct (parsenum 0 _); discriminate. }
  unfold formatPlaceholder. rewrite HT, HF, andb_false_r.
  assert (Hcheck : reNumericArg_Match (String t "") = false)
    by (destruct Ht as [ -> | -> ]; reflexivity).
  rewrite Hcheck. cbn [andb]. cbv iota.
  assert (Hfin : forall fv,
             finish ph v (inr fv)
             = Ok (alignedPad fv (Width ph) (Pad ph) (Align ph) "")).
  { intros fv. unfold finish. rewrite HT.
    now destruct Ht as [ -> | -> ]. }
  assert (Hfmt : run lib (formatWithPrecision (String t "") (Precision ph) v)
                 = inr (lib_Sprintf lib
                          (if String.eqb (Precision ph) ""
                           then "%" ++ String t ""
                           else "%." ++ Precision ph ++ String t "") v)).
  { unfold formatWithPrecision.
    destruct (String.eqb (Precision ph) "").
    - rewrite HS' by now left. reflexivity.
    - assert (Et : String.eqb (String t "") "t" = false)
        by (destruct Ht as [ -> | -> ]; reflexivity).
      rewrite Et, HS' by now right. reflexivity. }
  destruct Ht as [ -> | -> ].
  - change (Ascii.eqb "s" "c") with false.
    change (mem "s" "bdiuefgoxX") with false.
    change (Ascii.eqb "s" "j") with false.
    change (Ascii.eqb "s" "s") with true. cbv iota.
    now rewrite run_bind, Hfmt, Hfin.
  - change (Ascii.eqb "v" "c") with false.
    change (mem "v" "bdiuefgoxX") with false.
    change (Ascii.eqb "v" "j") with false.
    change (Ascii.eqb "v" "s") with false.
    change (Ascii.eqb "v" "t") with false.
    change (Ascii.eqb "v" "T") with false.
    change (Ascii.eqb "v" "v") with true. cbv iota.
    now rewrite run_bind, Hfmt, Hfin.
Qed.

Lemma text_placeholder_witness :
  run {| lib_Sprintf := fun _ _ => "ab"; lib_Marshal := fun _ _ => inl "" |}
    (formatPlaceholder (node "%-4.2s" "" "" "-" 4 "2" "s") (VString "abc"))
  = Ok "ab  ".
Proof.
  refine (text_placeholder
            {| lib_Sprintf := fun _ _ => "ab"; lib_Marshal := fun _ _ => inl "" |}
            (node "%-4.2s" "" "" "-" 4 "2" "s") (VString "abc") "s"
            eq_refl (or_introl eq_refl) eq_refl _).
  discriminate.
Defined.

Lemma FormatAST_loop_numbered (lib : Lib) (args : list value) (phs : AST) :
  forall (outs : list string) (cursor : Z) (output : string),
    Forall2
      (fun ph out =>
         Text ph = "" /\ Keys ph = None /\ 1 <= ParamNo ph /\
         exists a, args !! Z.to_nat (ParamNo ph - 1) = Some a /\
                   run lib (formatPlaceholder ph a) = Ok out)
      phs outs ->
    run lib (FormatAST_loop phs args cursor output)
    = Ok (output ++ texts_of outs).
Proof.
  induction phs as [|ph phs IH]; intros outs cursor output HF.
  - inversion HF; subst. cbn [FormatAST_loop run texts_of fold_right].
    now rewrite app_nil_r_s.
  - inversion HF as [|ph' out phs' outs' (Ht & Hk & Hp & a & Ha & Hout) HF'];
      subst.
    cbn [FormatAST_loop]. rewrite Ht. change (String.eqb "" "") with true.
    cbn [negb]. unfold argumentValue. rewrite Hk.
    destruct (Z.eqb_spec (ParamNo ph) 0); [lia|]. cbn [negb].
    destruct (Z.ltb_spec (ParamNo ph) 1); [lia|]. cbn [orb].
    pose proof (lookup_lt_Some _ _ _ Ha) as Hlt.
    destruct (Z.ltb_spec (Z.of_nat (length args)) (ParamNo ph)); [lia|].
    unfold index.
    destruct (Z.ltb_spec (ParamNo ph - 1) 0); [lia|]. cbn [orb].
    destruct (Z.leb_spec (Z.of_nat (length args)) (ParamNo ph - 1)); [lia|].
    rewrite Ha, run_bind, Hout, (IH outs' cursor (output ++ out) HF').
    cbn [texts_of fold_right]. fold (texts_of outs').
    now rewrite app_assoc_s.
Qed.

(** X27. A placeholder with an argument number [n] reads the [n]-th
    argument, wherever it stands: for an AST of numbered placeholders
    whose numbers are within the arguments, each of which renders its
    argument without error, the output is the renderings one after the
    other. *)
Theorem numbered_read_their_argument
    (lib : Lib) (phs : AST) (args : list value) (outs : list string) :
  Forall2
    (fun ph out =>
       Text ph = "" /\ Keys ph = None /\ 1 <= ParamNo ph /\
       exists a, args !! Z.to_nat (ParamNo ph - 1) = Some a /\
                 run lib (formatPlaceholder ph a) = Ok out)
    phs outs ->
  run lib (FormatAST phs args) = Ok (texts_of outs).
Proof. exact (FormatAST_loop_numbered lib args phs outs 0 ""). Qed.

Lemma numbered_read_their_argument_witness :
  run silent
    (FormatAST [numbered_node "%2$d" 2 "d"; numbered_node "%1$d" 1 "d"]
       [VInt KInt 10; VInt KInt 20])
  = Ok (texts_of ["20"; "10"]).
Proof.
  apply (numbered_read_their_argument silent).
  constructor; [|constructor; [|constructor]].
  - split; [reflexivity|]. split; [reflexivity|]. split; [now vm_compute|].
    exists (VInt KInt 20). split; reflexivity.
  - split; [reflexivity|]. split; [reflexivity|]. split; [now vm_compute|].
    exists (VInt KInt 10). split; reflexivity.
Defined.

(** ** The package's test cases

    The cases of [TestFormat] whose rendering does not go through an
    unmodelled call, evaluated on the embedding. *)

Example alignedPad_right : alignedPad "<" 5 "" "" "" = "    <".
Proof. reflexivity. Qed.
Example alignedPad_zero : alignedPad "2" 5 "0" "" "-" = "-0002".
Proof. reflexivity. Qed.
Example alignedPad_custom : alignedPad "123" 10 "'_" "" "-" = "______-123".
Proof. reflexivity. Qed.
Example alignedPad_left : alignedPad ">" 5 "0" "-" "" = ">0000".
Proof. reflexivity. Qed.
Example alignedPad_long : alignedPad "xxxxxx" 5 "" "" "" = "xxxxxx".
Proof. reflexivity. Qed.

(** The [float64] a decimal literal denotes. *)
Example literal_2_2 :
  Float.ParseFloat "2.2" = inr (S754_finite false 4953959590107546 (-51)).
Proof. vm_compute. reflexivity. Qed.

Example test_modulo : Format "%%" [] = Ret (Ok "%").
Proof. vm_compute. reflexivity. Qed.
Example test_binary : Format "%b" [VInt KInt 2] = Ret (Ok "10").
Proof. vm_compute. reflexivity. Qed.
Example test_decimal_string : Format "%d" [VString "2"] = Ret (Ok "2").
Proof. vm_compute. reflexivity. Qed.
Example test_exponent : Format "%e" [VInt KInt 2] = Ret (Ok "2e+0").
Proof. vm_compute. reflexivity. Qed.
Example test_unsigned : Format "%u" [VInt KInt (-2)] = Ret (Ok "4294967294").
Proof. vm_compute. reflexivity. Qed.
Example test_float :
  Format "%f" [VFloat64 (S754_finite false 4953959590107546 (-51))]
  = Ret (Ok "2.2").
Proof. vm_compute. reflexivity. Qed.
Example test_octal : Format "%o" [VInt KInt (-8)] = Ret (Ok "37777777770").
Proof. vm_compute. reflexivity. Qed.
Example test_hex : Format "%x" [VInt KInt (-255)] = Ret (Ok "ffffff01").
Proof. vm_compute. reflexivity. Qed.
Example test_HEX : Format "%X" [VInt KInt (-255)] = Ret (Ok "FFFFFF01").
Proof. vm_compute. reflexivity. Qed.
Example test_true : Format "%t" [VString "true"] = Ret (Ok "true").
Proof. vm_compute. reflexivity. Qed.
Example test_trimmed_true : Format "%.1t" [VBool true] = Ret (Ok "t").
Proof. vm_compute. reflexivity. Qed.
Example test_false : Format "%t" [VInt KInt 0] = Ret (Ok "false").
Proof. vm_compute. reflexivity. Qed.
Example test_null : Format "%T" [VNil] = Ret (Ok "null").
Proof. vm_compute. reflexivity. Qed.
Example test_number : Format "%T" [VInt KInt 42] = Ret (Ok "number").
Proof. vm_compute. reflexivity. Qed.
Example test_object : Format "%T" [VMap ∅] = Ret (Ok "object").
Proof. vm_compute. reflexivity. Qed.
Example test_plus : Format "%+d" [VInt KInt 2] = Ret (Ok "+2").
Proof. vm_compute. reflexivity. Qed.
Example test_sign_zero_pad :
  Format "%+010d" [VInt KInt (-123)] = Ret (Ok "-000000123").
Proof. vm_compute. reflexivity. Qed.
Example test_sign_custom_pad :
  Format "%+'_10d" [VInt KInt (-123)] = Ret (Ok "______-123").
Proof. vm_compute. reflexivity. Qed.
Example test_width : Format "%02u" [VInt KInt 1234] = Ret (Ok "1234").
Proof. vm_compute. reflexivity. Qed.

(** A string under [%s] is the library's to render; the package pads
    what comes back. *)
Example test_string_padding :
  exists k,
    Format "%5s" [VString "<"] = CallSprintf "%s" (VString "<") k /\
    k "<" = Ret (Ok "    <").
Proof. eexists. split; vm_compute; reflexivity. Qed.

Example test_named :
  exists k,
    Format "Hello %(who)s!" [VMap (<["who" := VString "world"]> ∅)]
    = CallSprintf "%s" (VString "world") k /\
    k "world" = Ret (Ok "Hello world!").
Proof. eexists. split; vm_compute; reflexivity. Qed.

(** A type character outside the check for a number: a string under [%o]
    is rendered as an operand the verb does not apply to. *)
Example octal_of_a_string :
  Format "%o" [VString "abc"] = Ret (Ok "%!o(string=abc)").
Proof. vm_compute. reflexivity. Qed.

(** An [int64] goes through [uint64] and back: the sign stays. *)
Example unsigned_of_int64 :
  Format "%u" [VInt KInt64 (-2)] = Ret (Ok "-2").
Proof. vm_compute. reflexivity. Qed.
